(** * Street Bot front-end: session persistence, history bucketing and the
      chat controller

    A shallow embedding of the chat page of the Street Bot front-end
    (the [Home] component and the helper functions declared next to it),
    of the provider of its agent and of the scraper script, together with
    the properties its specification states about them.

    Conventions of the embedding.
    - A JavaScript string is the sequence of its UTF-16 code units
      ([string], a code unit being a number): lengths, slices, comparisons
      and white space are those of the language.
    - The built-ins whose result rests on data outside the program are
      parameters, gathered in [Platform]: the lower-casing of Unicode
      text, the reading of a date from a string, the offset of the local
      time zone (which changes with daylight saving) and the reading of a
      number from its text.  What is proved holds for every platform.
    - Values of unknown shape (the body of a remote response, the contents
      of the persisted slot, free-form metadata) are JSON values ([json]).
      A number is kept as the text the language prints it with.
    - [crypto.randomUUID()] and [new Date()] are read from the environment:
      the fresh identifier and the current instant are arguments of the
      functions that call them.
    - A date is its time value in milliseconds, or the invalid date.
    - The browser is a record: whether there is a window, whether the
      session storage can be reached and how much it accepts, its items,
      and the lines written to the console.  The debug output that the
      source prints outside production is left out.
    - React state is threaded explicitly: a handler receives the state of
      the render it closes over and the queued updates are applied in the
      order in which the handler issues them. *)

From Stdlib Require Import ZArith NArith List Lia Bool.
From Stdlib Require Import Sorting.Sorted.
From Stdlib.Strings Require Byte.
From stdpp Require Import base list gmap.

Open Scope list_scope.
Open Scope Z_scope.

(** ** JavaScript strings *)

(** A string is the sequence of its UTF-16 code units; a character
    outside the Basic Multilingual Plane takes two of them. *)
Inductive string : Type :=
| EmptyString : string
| String (c : N) (s : string) : string.

(** String literals are written as in the source: the UTF-8 bytes of the
    literal are read as code points and these as code units. *)
Module UTF8.

Fixpoint decode (bs : list N) : option string :=
  match bs with
  | [] => Some EmptyString
  | b0 :: r0 =>
      if (b0 <? 128)%N then String b0 <$> decode r0
      else if (b0 <? 192)%N then None
      else if (b0 <? 224)%N then
        match r0 with
        | b1 :: r1 => String ((b0 - 192) * 64 + (b1 - 128))%N <$> decode r1
        | _ => None
        end
      else if (b0 <? 240)%N then
        match r0 with
        | b1 :: b2 :: r2 =>
            String ((b0 - 224) * 4096 + (b1 - 128) * 64 + (b2 - 128))%N <$> decode r2
        | _ => None
        end
      else
        match r0 with
        | b1 :: b2 :: b3 :: r3 =>
            let v := ((b0 - 240) * 262144 + (b1 - 128) * 4096 + (b2 - 128) * 64
                      + (b3 - 128) - 65536)%N in
            (fun s => String (55296 + v / 1024)%N (String (56320 + v mod 1024)%N s))
              <$> decode r3
        | _ => None
        end
  end.

Definition of_bytes (bs : list Byte.byte) : option string := decode (map Byte.to_N bs).

(** For display: the text of a string without surrogates. *)
Fixpoint encode (s : string) : option (list N) :=
  match s with
  | EmptyString => Some []
  | String c s' =>
      if (c <? 128)%N then cons c <$> encode s'
      else if (c <? 2048)%N then
        (fun r => (192 + c / 64)%N :: (128 + c mod 64)%N :: r) <$> encode s'
      else if (c <? 55296)%N || ((57343 <? c)%N && (c <? 65536)%N) then
        (fun r => (224 + c / 4096)%N :: (128 + (c / 64) mod 64)%N :: (128 + c mod 64)%N :: r)
          <$> encode s'
      else None
  end.

Definition to_bytes (s : string) : option (list Byte.byte) :=
  encode s ≫= mapM Byte.of_N.

End UTF8.

Declare Scope js_scope.
Delimit Scope js_scope with js.
Bind Scope js_scope with string.
String Notation string UTF8.of_bytes UTF8.to_bytes : js_scope.
Open Scope js_scope.

Module JSString.

(** [s.length] *)
Fixpoint length (s : string) : nat :=
  match s with
  | EmptyString => O
  | String _ s' => S (length s')
  end.

(** [a + b] *)
Fixpoint append (a b : string) : string :=
  match a with
  | EmptyString => b
  | String c a' => String c (append a' b)
  end.

(** [a === b] *)
Fixpoint eqb (a b : string) : bool :=
  match a, b with
  | EmptyString, EmptyString => true
  | String x a', String y b' => (x =? y)%N && eqb a' b'
  | _, _ => false
  end.

(** The order of [<] and [>] on strings: code unit by code unit. *)
Fixpoint compare (a b : string) : comparison :=
  match a, b with
  | EmptyString, EmptyString => Eq
  | EmptyString, String _ _ => Lt
  | String _ _, EmptyString => Gt
  | String x a', String y b' =>
      match (x ?= y)%N with
      | Eq => compare a' b'
      | r => r
      end
  end.

(** [a < b] *)
Definition ltb (a b : string) : bool :=
  match compare a b with Lt => true | _ => false end.

(** [a <= b] *)
Definition leb (a b : string) : bool :=
  match compare a b with Gt => false | _ => true end.

(** [s.startsWith(p)] *)
Fixpoint prefix (p s : string) : bool :=
  match p with
  | EmptyString => true
  | String x p' =>
      match s with
      | EmptyString => false
      | String y s' => (x =? y)%N && prefix p' s'
      end
  end.

(** [s.includes(needle)] *)
Fixpoint includes (s needle : string) : bool :=
  match s with
  | EmptyString => prefix needle EmptyString
  | String _ s' => prefix needle s || includes s' needle
  end.

(** What is left of [s] behind the prefix [p], when it starts with it. *)
Fixpoint strip_prefix (p s : string) : option string :=
  match p with
  | EmptyString => Some s
  | String x p' =>
      match s with
      | EmptyString => None
      | String y s' => if (x =? y)%N then strip_prefix p' s' else None
      end
  end.

(** The code units [trim] removes: the white space and the line
    terminators of the language (TAB, LF, VT, FF, CR, SPACE, NBSP, the
    space separators of Unicode, LS, PS and the byte order mark). *)
Definition is_space (c : N) : bool :=
  (((9 <=? c) && (c <=? 13)) || (c =? 32) || (c =? 160) || (c =? 5760) ||
   ((8192 <=? c) && (c <=? 8202)) || (c =? 8232) || (c =? 8233) || (c =? 8239) ||
   (c =? 8287) || (c =? 12288) || (c =? 65279))%N.

Fixpoint trimStart (s : string) : string :=
  match s with
  | EmptyString => EmptyString
  | String c s' => if is_space c then trimStart s' else s
  end.

(** Drops the trailing white space: a code unit is kept when it is no
    white space or when something is kept after it. *)
Fixpoint trimEnd (s : string) : string :=
  match s with
  | EmptyString => EmptyString
  | String c s' =>
      match trimEnd s' with
      | EmptyString => if is_space c then EmptyString else String c EmptyString
      | r => String c r
      end
  end.

(** A text made of white space only; the empty text is one. *)
Fixpoint blank (s : string) : bool :=
  match s with
  | EmptyString => true
  | String c s' => is_space c && blank s'
  end.

(** [s.trim()] *)
Definition trim (s : string) : string := trimEnd (trimStart s).

(** [parts.join(sep)] *)
Fixpoint join (sep : string) (parts : list string) : string :=
  match parts with
  | [] => EmptyString
  | [p] => p
  | p :: rest => append p (append sep (join sep rest))
  end.

(** [s.slice(0, n)] for [0 <= n] *)
Fixpoint take (n : nat) (s : string) : string :=
  match n, s with
  | S n', String c s' => String c (take n' s')
  | _, _ => EmptyString
  end.

(** [s.padStart(2, "0")] *)
Definition padStart2 (s : string) : string :=
  match length s with
  | O => "00"
  | S O => append "0" s
  | _ => s
  end.

Definition digit_char (d : Z) : N := Z.to_N (48 + d).

Fixpoint digits_fuel (fuel : nat) (n : Z) (acc : string) : string :=
  match fuel with
  | O => acc
  | S fuel' =>
      let acc' := String (digit_char (n mod 10)) acc in
      if n <? 10 then acc' else digits_fuel fuel' (n / 10) acc'
  end.

(** Decimal digits of a natural number, most significant first. *)
Definition digits (n : Z) : string := digits_fuel (S (Z.to_nat (Z.log2 n))) n EmptyString.

(** [String(n)] for an integer [n] (below [10^21] in size, where the
    language changes to the exponent form) *)
Definition of_int (n : Z) : string :=
  if n <? 0 then String 45 (digits (- n)) else digits n.

(** The truthiness of a string: only the empty string is falsy. *)
Definition truthy (s : string) : bool :=
  match s with EmptyString => false | _ => true end.

(** Text made of code units below 128. *)
Fixpoint is_ascii (s : string) : bool :=
  match s with
  | EmptyString => true
  | String c s' => (c <? 128)%N && is_ascii s'
  end.

Definition ascii_lower_unit (c : N) : N :=
  if ((65 <=? c) && (c <=? 90))%N then (c + 32)%N else c.

(** The letters A to Z made small; every other code unit is kept. *)
Fixpoint ascii_lower (s : string) : string :=
  match s with
  | EmptyString => EmptyString
  | String c s' => String (ascii_lower_unit c) (ascii_lower s')
  end.

Fixpoint to_list (s : string) : list N :=
  match s with
  | EmptyString => []
  | String c s' => c :: to_list s'
  end.

Fixpoint of_list (l : list N) : string :=
  match l with
  | [] => EmptyString
  | c :: l' => String c (of_list l')
  end.

End JSString.

Infix "+:+" := JSString.append (right associativity, at level 60) : js_scope.

#[global] Instance string_eq_dec : EqDecision string.
Proof. solve_decision. Defined.

#[global] Instance string_countable : Countable string.
Proof.
  refine (inj_countable' JSString.to_list JSString.of_list _).
  intros s. induction s as [|c s IH]; simpl; congruence.
Defined.

(** ** The platform

    The built-ins of the language whose result is decided by data that is
    no part of the program. *)
Class Platform : Type := {
  (** [s.toLowerCase()], which follows the case tables of Unicode *)
  toLowerCase : string -> string;
  (** on text of code units below 128 these tables make the letters A to Z
      small and keep everything else *)
  toLowerCase_ascii :
    forall s, JSString.is_ascii s = true -> toLowerCase s = JSString.ascii_lower s;
  (** and the lower case of a text that is not empty is not empty: every
      character is mapped to one character or more *)
  toLowerCase_nonempty :
    forall s, toLowerCase s = EmptyString -> s = EmptyString;
  (** [new Date(s).getTime()] for a string [s]: the time value, or [None]
      for [NaN] when the string is read as no date; which strings are
      dates, beyond the format of [toISOString], is left to the
      implementation by the language *)
  Date_parse : string -> option Z;
  (** [LocalTZA(t, isUTC)]: the offset of the local time zone in
      milliseconds, at the instant [t] when [isUTC] holds and at the local
      time [t] otherwise *)
  LocalTZA : Z -> bool -> Z;
  (** the text [String(x)] of the number [x] that the text of a JSON
      number denotes *)
  numberText : string -> string
}.
(** ** The loading placeholder *)

Definition defaultMessages : list string :=
  [ "Analyzing your request…";
    "Looking up available resources…";
    "Checking what help is available…";
    "Finding services that match your needs…" ].

Section Loading.
Context {P : Platform}.

Definition getLoadingMessage (userMessage : string) : string :=
  let messageLower := toLowerCase userMessage in
  if JSString.includes messageLower "housing" ||
     JSString.includes messageLower "shelter" ||
     JSString.includes messageLower "homeless" ||
     JSString.includes messageLower "apartment" ||
     JSString.includes messageLower "place to stay"
  then "Searching for housing options near you…"
  else if JSString.includes messageLower "food" ||
     JSString.includes messageLower "meal" ||
     JSString.includes messageLower "hungry" ||
     JSString.includes messageLower "eat" ||
     JSString.includes messageLower "food bank"
  then "Finding food resources in your area…"
  else if JSString.includes messageLower "medical" ||
     JSString.includes messageLower "doctor" ||
     JSString.includes messageLower "health" ||
     JSString.includes messageLower "clinic" ||
     JSString.includes messageLower "hospital" ||
     JSString.includes messageLower "sick"
  then "Looking up healthcare services for you…"
  else if JSString.includes messageLower "job" ||
     JSString.includes messageLower "work" ||
     JSString.includes messageLower "employment" ||
     JSString.includes messageLower "hire" ||
     JSString.includes messageLower "career"
  then "Searching for employment resources…"
  else if JSString.includes messageLower "legal" ||
     JSString.includes messageLower "lawyer" ||
     JSString.includes messageLower "court" ||
     JSString.includes messageLower "rights"
  then "Finding legal assistance options…"
  else if JSString.includes messageLower "mental" ||
     JSString.includes messageLower "counseling" ||
     JSString.includes messageLower "therapy" ||
     JSString.includes messageLower "depression" ||
     JSString.includes messageLower "anxiety"
  then "Locating mental health support services…"
  else if JSString.includes messageLower "transport" ||
     JSString.includes messageLower "bus" ||
     JSString.includes messageLower "ride" ||
     JSString.includes messageLower "get there"
  then "Checking transportation options…"
  else if JSString.includes messageLower "help" ||
     JSString.includes messageLower "support" ||
     JSString.includes messageLower "need" ||
     JSString.includes messageLower "assist"
  then "Finding the best support options for you…"
  else if JSString.includes messageLower "near me" ||
     JSString.includes messageLower "nearby" ||
     JSString.includes messageLower "close" ||
     JSString.includes messageLower "around here"
  then "Searching for nearby services…"
  else
    let index := (JSString.length userMessage mod length defaultMessages)%nat in
    nth index defaultMessages EmptyString.

End Loading.

(** The selection as the specification words it: a fixed priority list of
    keyword groups, the first group with a keyword occurring in the
    lower-cased text wins, and without a match one of the four generic
    messages is taken by the length of the text modulo four. *)
Module LoadingSpec.

Record group := { topic : string; keywords : list string; message : string }.

Definition groups : list group :=
  [ {| topic := "housing";
       keywords := ["housing"; "shelter"; "homeless"; "apartment"; "place to stay"];
       message := "Searching for housing options near you…" |};
    {| topic := "food";
       keywords := ["food"; "meal"; "hungry"; "eat"; "food bank"];
       message := "Finding food resources in your area…" |};
    {| topic := "medical";
       keywords := ["medical"; "doctor"; "health"; "clinic"; "hospital"; "sick"];
       message := "Looking up healthcare services for you…" |};
    {| topic := "employment";
       keywords := ["job"; "work"; "employment"; "hire"; "career"];
       message := "Searching for employment resources…" |};
    {| topic := "legal";
       keywords := ["legal"; "lawyer"; "court"; "rights"];
       message := "Finding legal assistance options…" |};
    {| topic := "mental health";
       keywords := ["mental"; "counseling"; "therapy"; "depression"; "anxiety"];
       message := "Locating mental health support services…" |};
    {| topic := "transportation";
       keywords := ["transport"; "bus"; "ride"; "get there"];
       message := "Checking transportation options…" |};
    {| topic := "generic help";
       keywords := ["help"; "support"; "need"; "assist"];
       message := "Finding the best support options for you…" |};
    {| topic := "near me";
       keywords := ["near me"; "nearby"; "close"; "around here"];
       message := "Searching for nearby services…" |} ].

Definition generic : list string :=
  [ "Analyzing your request…";
    "Looking up available resources…";
    "Checking what help is available…";
    "Finding services that match your needs…" ].

Section Selection.
Context {P : Platform}.

(** A group matches a text when one of its keywords occurs in the text
    with the case of the letters ignored. *)
Definition matches (text : string) (g : group) : bool :=
  existsb (JSString.includes (toLowerCase text)) (keywords g).

Definition select (text : string) : string :=
  match List.find (matches text) groups with
  | Some g => message g
  | None => nth (JSString.length text mod 4) generic EmptyString
  end.

End Selection.

End LoadingSpec.

(** ** JavaScript values of unknown shape

    What the program receives from [response.json()] and from
    [JSON.parse] is a JSON value.  A number is the text [String(x)] the
    language prints it with ([100], [1.5], [1e+21], [Infinity], [NaN];
    the negative zero prints as [0]).  An object is the list of its own
    properties in the order the language enumerates them. *)

Unset Elimination Schemes.
Inductive json : Type :=
| JNull : json
| JBool (b : bool) : json
| JNum (text : string) : json
| JStr (s : string) : json
| JArr (items : list json) : json
| JObj (fields : list (string * json)) : json.
Set Elimination Schemes.

Module JS.

(** The line feed, the separator written ["\n"] in the source. *)
Definition LF : string := String 10 EmptyString.

(** [!v] is [true] on [null], [false], [0], [NaN] and the empty
    string. *)
Definition falsy (v : json) : bool :=
  match v with
  | JNull => true
  | JBool b => negb b
  | JNum text => JSString.eqb text "0" || JSString.eqb text "NaN"
  | JStr s => negb (JSString.truthy s)
  | JArr _ | JObj _ => false
  end.

(** [typeof v === "object" && v !== null] *)
Definition is_object (v : json) : bool :=
  match v with JArr _ | JObj _ => true | _ => false end.

Fixpoint assoc (k : string) (fields : list (string * json)) : option json :=
  match fields with
  | [] => None
  | (k', v) :: rest => if JSString.eqb k k' then Some v else assoc k rest
  end.

(** [v.k] and [v?.k] for a property name [k] that no built-in prototype
    defines (the program reads [text], [children] and [service_lookup]):
    the own property of an object, [undefined] ([None]) on everything
    else.  [v.k] on [null] raises, and the program only applies it to
    values it has tested to be objects. *)
Definition get (k : string) (v : json) : option json :=
  match v with
  | JObj fields => assoc k fields
  | _ => None
  end.

End JS.

(** ** Text of a response message *)

(** The callback of the inner [children.map]. *)
Definition childText (child : json) : string :=
  match JS.get "text" child with
  | Some (JStr text) => text
  | _ => EmptyString
  end.

(** The callback of the outer [content.map]. *)
Definition partText (part : json) : string :=
  if negb (JS.is_object part) then EmptyString
  else
    match JS.get "text" part with
    | Some (JStr maybeText) => maybeText
    | _ =>
        match JS.get "children" part with
        | Some (JArr children) => JSString.join EmptyString (map childText children)
        | _ => EmptyString
        end
    end.

Definition extractText (content : json) : string :=
  if JS.falsy content then EmptyString
  else
    match content with
    | JStr s => s
    | JArr parts => JSString.join JS.LF (map partText parts)
    | _ => EmptyString
    end.

(** The three shapes the specification names. *)
Module ContentShape.

Definition text_part (text : string) : json :=
  JObj [("type", JStr "text"); ("text", JStr text)].

Definition leaf (text : string) : json := JObj [("text", JStr text)].

Definition children_part (texts : list string) : json :=
  JObj [("children", JArr (map leaf texts))].

Definition is_string (c : json) : bool :=
  match c with JStr _ => true | _ => false end.

Definition is_text_part (part : json) : bool :=
  match JS.get "type" part, JS.get "text" part with
  | Some (JStr "text"), Some (JStr _) => true
  | _, _ => false
  end.

Definition is_leaf (child : json) : bool :=
  match JS.get "text" child with Some (JStr _) => true | _ => false end.

Definition is_children_part (part : json) : bool :=
  match JS.get "children" part with
  | Some (JArr children) => forallb is_leaf children
  | _ => false
  end.

(** A sequence of [{type: "text", text}] parts. *)
Definition is_text_parts (c : json) : bool :=
  match c with JArr parts => forallb is_text_part parts | _ => false end.

(** A sequence of nodes whose [children] are leaf text nodes. *)
Definition is_children_nodes (c : json) : bool :=
  match c with JArr parts => forallb is_children_part parts | _ => false end.

Definition recognised (c : json) : bool :=
  is_string c || is_text_parts c || is_children_nodes c.

Definition recognised_part (part : json) : bool :=
  is_text_part part || is_children_part part.

End ContentShape.

(** ** The data model *)

Inductive Role : Type := user | assistant | system.

Module Variant.
Inductive t : Type := default | callout.
End Variant.

(** [ChatMessage]: a message of the conversation on screen.  Metadata and
    the lists derived from it come from the remote response unchecked, so
    they are JSON values. *)
Module ChatMessage.
Record t : Type := mk {
  id : string;
  role : Role;
  content : string;
  metadata : option json;
  variant : option Variant.t;
  serviceGroups : option (list json);
  nextActions : option json;
  needsIdentified : option json
}.
End ChatMessage.

(** [StoredMessage]: a message as a persisted session keeps it. *)
Module StoredMessage.
Record t : Type := mk {
  id : string;
  role : Role;
  content : string;
  metadata : option json;
  serviceGroups : option (list json);
  nextActions : option json;
  needsIdentified : option json;
  createdAt : string
}.
End StoredMessage.

(** [StoredSession]: one persisted conversation. *)
Module StoredSession.
Record t : Type := mk {
  sessionId : string;
  title : string;
  messages : list StoredMessage.t;
  createdAt : string;
  updatedAt : string
}.
End StoredSession.

(** [AgentUGIMessage]: a message as it is sent to the agent; [content] is
    always the one-element list [[{type: "text", text}]]. *)
Module AgentUGIMessage.
Record t : Type := mk {
  id : string;
  role : Role;
  content : list string
}.
End AgentUGIMessage.

(** [AgentUGIResponseMessage]: an item of [newMessages] as it arrives.
    Nothing checks it, so [role] is whatever value the item holds, if
    any, and [content] may be missing (the source tests
    ["content" in message]). *)
Module AgentUGIResponseMessage.
Record t : Type := mk {
  role : option json;
  content : option json;
  metadata : option json
}.
End AgentUGIResponseMessage.

(** [RunAgentResponsePayload]: the source reads [newMessages] with
    [?? []], so the field may be missing. *)
Module RunAgentResponsePayload.
Record t : Type := mk {
  newMessages : option (list AgentUGIResponseMessage.t);
  sessionId : option string
}.
End RunAgentResponsePayload.

Module SessionHistoryBuckets.
Record t : Type := mk {
  today : list StoredSession.t;
  yesterday : list StoredSession.t;
  last7Days : list StoredSession.t;
  monthly : gmap string (list StoredSession.t)
}.
End SessionHistoryBuckets.

Definition LOCAL_STORAGE_KEY : string := "streetbot:sessions".

Definition Role_eqb (a b : Role) : bool :=
  match a, b with
  | user, user | assistant, assistant | system, system => true
  | _, _ => false
  end.

Definition Role_to_string (r : Role) : string :=
  match r with user => "user" | assistant => "assistant" | system => "system" end.

(** ** Dates

    A [Date] object is its time value: milliseconds since the epoch, or
    [None] for the invalid date (the time value [NaN]).  The offset of
    the local time zone is the platform's [LocalTZA], which may change
    from one instant to the next.  The operations carry the names the
    language standard gives them. *)

Module JSDate.

Definition msPerDay : Z := 86400000.

Definition t : Type := option Z.

Definition Day (time : Z) : Z := time / msPerDay.
Definition TimeWithinDay (time : Z) : Z := time mod msPerDay.

(** The day number of the first day of year [y]. *)
Definition DayFromYear (y : Z) : Z :=
  365 * (y - 1970) + (y - 1969) / 4 - (y - 1901) / 100 + (y - 1601) / 400.

(** The year a day falls in: the largest [y] with [DayFromYear y <= day],
    found next to the estimate that the mean length of a year gives. *)
Definition YearFromDay (day : Z) : Z :=
  let y := 1970 + (400 * day) / 146097 in
  if DayFromYear (y + 1) <=? day then y + 1
  else if DayFromYear y <=? day then y
  else y - 1.

Definition is_leap (y : Z) : bool :=
  ((y mod 4 =? 0) && negb (y mod 100 =? 0)) || (y mod 400 =? 0).

(** [1] in a leap year, [0] otherwise. *)
Definition leap_day (y : Z) : Z := if is_leap y then 1 else 0.

(** The day within the year on which month [m] (0 to 11) starts. *)
Definition MonthStart (leap m : Z) : Z :=
  if m <=? 0 then 0
  else if m =? 1 then 31
  else if m =? 2 then 59 + leap
  else if m =? 3 then 90 + leap
  else if m =? 4 then 120 + leap
  else if m =? 5 then 151 + leap
  else if m =? 6 then 181 + leap
  else if m =? 7 then 212 + leap
  else if m =? 8 then 243 + leap
  else if m =? 9 then 273 + leap
  else if m =? 10 then 304 + leap
  else 334 + leap.

(** The month (0 to 11) of a day within a year. *)
Definition MonthOfDay (leap dayWithinYear : Z) : Z :=
  if dayWithinYear <? 31 then 0
  else if dayWithinYear <? 59 + leap then 1
  else if dayWithinYear <? 90 + leap then 2
  else if dayWithinYear <? 120 + leap then 3
  else if dayWithinYear <? 151 + leap then 4
  else if dayWithinYear <? 181 + leap then 5
  else if dayWithinYear <? 212 + leap then 6
  else if dayWithinYear <? 243 + leap then 7
  else if dayWithinYear <? 273 + leap then 8
  else if dayWithinYear <? 304 + leap then 9
  else if dayWithinYear <? 334 + leap then 10
  else 11.

Definition YearFromTime (time : Z) : Z := YearFromDay (Day time).

Definition DayWithinYear (time : Z) : Z := Day time - DayFromYear (YearFromTime time).

(** Months count from 0, as in the source. *)
Definition MonthFromTime (time : Z) : Z :=
  MonthOfDay (leap_day (YearFromTime time)) (DayWithinYear time).

Definition DateFromTime (time : Z) : Z :=
  DayWithinYear time
  - MonthStart (leap_day (YearFromTime time)) (MonthFromTime time) + 1.

(** [date] may lie outside the month, and [month] outside the year, as
    [setDate] allows. *)
Definition MakeDay (year month date : Z) : Z :=
  let ym := year + month / 12 in
  let mn := month mod 12 in
  DayFromYear ym + MonthStart (leap_day ym) mn + date - 1.

Definition MakeDate (day time : Z) : Z := day * msPerDay + time.

(** A time value beyond 8.64e15 ms from the epoch is not a date. *)
Definition TimeClip (time : Z) : t :=
  if Z.abs time <=? 8640000000000000 then Some time else None.

Section LocalTime.
Context {P : Platform}.

(** The local time of an instant, and the instant of a local time. *)
Definition LocalTime (time : Z) : Z := time + LocalTZA time true.
Definition UTC (time : Z) : Z := time - LocalTZA time false.

Definition getFullYear (d : t) : option Z := YearFromTime ∘ LocalTime <$> d.
Definition getMonth (d : t) : option Z := MonthFromTime ∘ LocalTime <$> d.
Definition getDate (d : t) : option Z := DateFromTime ∘ LocalTime <$> d.

(** [d.setDate(date)], giving the new value of [d]. *)
Definition setDate (d : t) (date : option Z) : t :=
  match d, date with
  | Some time, Some dt =>
      let local := LocalTime time in
      let newDate :=
        MakeDate (MakeDay (YearFromTime local) (MonthFromTime local) dt)
                 (TimeWithinDay local) in
      TimeClip (UTC newDate)
  | _, _ => None
  end.

(** [new Date(s)] for a string [s] *)
Definition parse (s : string) : t := Date_parse s.

End LocalTime.

(** [a === b] on numbers: [NaN] equals nothing. *)
Definition strict_eq (a b : option Z) : bool :=
  match a, b with Some x, Some y => x =? y | _, _ => false end.

(** [a >= b] on dates: false as soon as one of them is invalid. *)
Definition ge (a b : t) : bool :=
  match a, b with Some x, Some y => y <=? x | _, _ => false end.

(** [a - b] on numbers, as [Array.prototype.sort] reads a comparator's
    result: [NaN] counts as [0]. *)
Definition sub_or_zero (a b : option Z) : Z :=
  match a, b with Some x, Some y => x - y | _, _ => 0 end.

(** [String(n)] for a number that is an integer or [NaN]. *)
Definition num_to_string (n : option Z) : string :=
  match n with Some z => JSString.of_int z | None => "NaN" end.

Definition digit_of (c : N) : option Z :=
  let n := Z.of_N c in
  if (48 <=? n) && (n <=? 57) then Some (n - 48) else None.

Fixpoint number_of (digits : list N) (acc : Z) : option Z :=
  match digits with
  | [] => Some acc
  | c :: rest =>
      match digit_of c with
      | Some d => number_of rest (10 * acc + d)
      | None => None
      end
  end.

Definition days_in_month (y m : Z) : Z :=
  if m =? 2 then (if is_leap y then 29 else 28)
  else if (m =? 4) || (m =? 6) || (m =? 9) || (m =? 11) then 30 else 31.

(** The time value of a string in the format [toISOString] writes,
    [YYYY-MM-DDTHH:mm:ss.sssZ] (the code units 45, 84, 58, 46 and 90 are
    the dash, [T], the colon, the dot and [Z]). *)
Definition parseISO (s : string) : t :=
  match JSString.to_list s with
  | [y1; y2; y3; y4; 45; m1; m2; 45; d1; d2; 84;
     h1; h2; 58; n1; n2; 58; s1; s2; 46; f1; f2; f3; 90]%N =>
      match number_of [y1; y2; y3; y4] 0, number_of [m1; m2] 0, number_of [d1; d2] 0,
            number_of [h1; h2] 0, number_of [n1; n2] 0, number_of [s1; s2] 0,
            number_of [f1; f2; f3] 0 with
      | Some y, Some m, Some d, Some h, Some mi, Some sec, Some ms =>
          if (1 <=? m) && (m <=? 12) && (1 <=? d) && (d <=? days_in_month y m)
             && (h <=? 23) && (mi <=? 59) && (sec <=? 59)
          then Some (MakeDate (MakeDay y (m - 1) d)
                              (((h * 60 + mi) * 60 + sec) * 1000 + ms))
          else None
      | _, _, _, _, _, _, _ => None
      end
  | _ => None
  end.

(** [d.getTime()] *)
Definition getTime (d : t) : option Z := d.

End JSDate.

(** ** Array primitives *)

Module JSArray.

(** [l.findIndex(p)]; [None] stands for the result [-1]. *)
Fixpoint findIndex {A} (p : A -> bool) (l : list A) : option nat :=
  match l with
  | [] => None
  | x :: l' => if p x then Some O else S <$> findIndex p l'
  end.

(** [l.map((x, index) => f x index)] *)
Fixpoint mapi_from {A B} (f : A -> nat -> B) (i : nat) (l : list A) : list B :=
  match l with
  | [] => []
  | x :: l' => f x i :: mapi_from f (S i) l'
  end.

Definition mapi {A B} (f : A -> nat -> B) (l : list A) : list B := mapi_from f O l.

(** [l.sort(compareFn)].  The sort of the language is stable, and for a
    comparator that is a consistent ordering every stable sort returns
    the same list; it is written here as an insertion sort.  An element
    moves behind the elements the comparator puts strictly before it
    ([compareFn x y > 0]) and stays in front of the others.  For a
    comparator that is no consistent ordering (here: when a date is
    invalid) the language leaves the order to the implementation, and
    only that the result is a rearrangement is common to all of them. *)
Section Sort.
Context {A : Type} (compareFn : A -> A -> Z).

Fixpoint insert (x : A) (l : list A) : list A :=
  match l with
  | [] => [x]
  | y :: l' => if 0 <? compareFn x y then y :: insert x l' else x :: l
  end.

Definition sort (l : list A) : list A := foldr insert [] l.
End Sort.

End JSArray.

(** ** Helpers of the session history *)

Definition toAgentMessages (history : list ChatMessage.t) : list AgentUGIMessage.t :=
  map (fun message =>
         {| AgentUGIMessage.id := ChatMessage.id message;
            AgentUGIMessage.role := ChatMessage.role message;
            AgentUGIMessage.content := [ChatMessage.content message] |})
      history.

Definition getDefaultSessionTitle (message : string) : string :=
  let trimmed := JSString.trim message in
  if negb (JSString.truthy trimmed) then "Untitled chat"
  else if (JSString.length trimmed <=? 48)%nat then trimmed
       else JSString.take 45 trimmed +:+ "…".

Definition upsertSession (sessions : list StoredSession.t) (session : StoredSession.t)
  : list StoredSession.t :=
  let index :=
    JSArray.findIndex
      (fun item => JSString.eqb (StoredSession.sessionId item) (StoredSession.sessionId session))
      sessions in
  match index with
  | None => (sessions ++ [session])%list
  | Some index => <[index := session]> sessions
  end.

Section Recency.
Context {P : Platform}.

(** The comparator of both sorts of the program:
    [new Date(b.updatedAt).getTime() - new Date(a.updatedAt).getTime()]. *)
Definition byUpdatedDescending (a b : StoredSession.t) : Z :=
  JSDate.sub_or_zero (JSDate.getTime (JSDate.parse (StoredSession.updatedAt b)))
                     (JSDate.getTime (JSDate.parse (StoredSession.updatedAt a))).

Definition sortSessionsByUpdated (sessions : list StoredSession.t) : list StoredSession.t :=
  JSArray.sort byUpdatedDescending sessions.

End Recency.

Section Bucketing.
Context {P : Platform}.

Definition formatDateKey (date : JSDate.t) : string :=
  JSDate.num_to_string (JSDate.getFullYear date) +:+ "-" +:+
  JSString.padStart2
    (JSDate.num_to_string ((fun m => m + 1) <$> JSDate.getMonth date)).

Definition isSameDay (a b : JSDate.t) : bool :=
  JSDate.strict_eq (JSDate.getFullYear a) (JSDate.getFullYear b) &&
  JSDate.strict_eq (JSDate.getMonth a) (JSDate.getMonth b) &&
  JSDate.strict_eq (JSDate.getDate a) (JSDate.getDate b).

(** [buckets.monthly[monthKey].push(session)], after the slot has been
    created when it was missing. *)
Definition push_monthly (monthKey : string) (session : StoredSession.t)
    (monthly : gmap string (list StoredSession.t)) : gmap string (list StoredSession.t) :=
  let monthly :=
    match monthly !! monthKey with
    | None => <[monthKey := []]> monthly
    | Some _ => monthly
    end in
  <[monthKey := (default [] (monthly !! monthKey) ++ [session])%list]> monthly.

(** The body of the [forEach] callback. *)
Definition bucketSession (now yesterday sevenDaysAgo : JSDate.t)
    (buckets : SessionHistoryBuckets.t) (session : StoredSession.t)
  : SessionHistoryBuckets.t :=
  let updatedAt := JSDate.parse (StoredSession.updatedAt session) in
  let '(SessionHistoryBuckets.mk today yesterday_ last7Days monthly) := buckets in
  if isSameDay updatedAt now then
    SessionHistoryBuckets.mk (today ++ [session]) yesterday_ last7Days monthly
  else if isSameDay updatedAt yesterday then
    SessionHistoryBuckets.mk today (yesterday_ ++ [session]) last7Days monthly
  else if JSDate.ge updatedAt sevenDaysAgo then
    SessionHistoryBuckets.mk today yesterday_ (last7Days ++ [session]) monthly
  else
    let monthKey := formatDateKey updatedAt in
    SessionHistoryBuckets.mk today yesterday_ last7Days
                             (push_monthly monthKey session monthly).

(** [bucketSessions]; [now] is the value of [new Date()]. *)
Definition bucketSessions (now : Z) (sessions : list StoredSession.t)
  : SessionHistoryBuckets.t :=
  let buckets := SessionHistoryBuckets.mk [] [] [] ∅ in
  let now_ : JSDate.t := Some now in
  let yesterday := JSDate.setDate now_ ((fun d => d - 1) <$> JSDate.getDate now_) in
  let sevenDaysAgo := JSDate.setDate now_ ((fun d => d - 7) <$> JSDate.getDate now_) in
  fold_left (bucketSession now_ yesterday sevenDaysAgo) sessions buckets.



(** The rule of the specification: the first of the four tests that
    holds names the bucket. *)
Inductive Bucket : Type :=
| Today | Yesterday | Last7Days | Monthly (key : string).

Definition bucketOf (now : Z) (session : StoredSession.t) : Bucket :=
  let now_ : JSDate.t := Some now in
  let yesterday := JSDate.setDate now_ ((fun d => d - 1) <$> JSDate.getDate now_) in
  let sevenDaysAgo := JSDate.setDate now_ ((fun d => d - 7) <$> JSDate.getDate now_) in
  let updatedAt := JSDate.parse (StoredSession.updatedAt session) in
  if isSameDay updatedAt now_ then Today
  else if isSameDay updatedAt yesterday then Yesterday
  else if JSDate.ge updatedAt sevenDaysAgo then Last7Days
  else Monthly (formatDateKey updatedAt).

#[global] Instance Bucket_eq_dec : EqDecision Bucket.
Proof. solve_decision. Defined.

(** The members of a bucket of a bucketing result. *)
Definition members (buckets : SessionHistoryBuckets.t) (b : Bucket) : list StoredSession.t :=
  match b with
  | Today => SessionHistoryBuckets.today buckets
  | Yesterday => SessionHistoryBuckets.yesterday buckets
  | Last7Days => SessionHistoryBuckets.last7Days buckets
  | Monthly key => default [] (SessionHistoryBuckets.monthly buckets !! key)
  end.

(** All the sessions of a bucketing result, bucket after bucket. *)
Definition allMembers (buckets : SessionHistoryBuckets.t) : list StoredSession.t :=
  (SessionHistoryBuckets.today buckets ++
   SessionHistoryBuckets.yesterday buckets ++
   SessionHistoryBuckets.last7Days buckets ++
   concat (map snd (map_to_list (SessionHistoryBuckets.monthly buckets))))%list.

End Bucketing.

Section Validity.
Context {P : Platform}.

(** The instant a session was last updated, and whether its [updatedAt]
    is a date at all. *)
Definition updatedTime (s : StoredSession.t) : Z :=
  default 0 (JSDate.getTime (JSDate.parse (StoredSession.updatedAt s))).

Definition validUpdatedAt (s : StoredSession.t) : Prop :=
  is_Some (JSDate.parse (StoredSession.updatedAt s)).

End Validity.
(** ** [JSON.stringify] and [JSON.parse]

    The two built-ins on the JSON values of the model.  Code units are
    written as numbers; the comment behind a test names the character. *)

Module JSON.

#[local] Open Scope N_scope.

(** The double quote. *)
Definition DQ : N := 34.

(** *** Writing *)

(** A hexadecimal digit, in lower case. *)
Definition hex_digit (n : N) : N := if n <? 10 then 48 + n else 87 + n.

(** The escape [\uXXXX] of a code unit. *)
Definition unicode_escape (c : N) : string :=
  "\u" +:+
  String (hex_digit (c / 4096))
    (String (hex_digit ((c / 256) mod 16))
       (String (hex_digit ((c / 16) mod 16))
          (String (hex_digit (c mod 16)) EmptyString))).

(** The escape of one code unit that is no surrogate. *)
Definition escape_unit (c : N) : string :=
  if c =? 34 then String 92 (String 34 EmptyString)   (* the double quote *)
  else if c =? 92 then "\\"
  else if c =? 8 then "\b"
  else if c =? 9 then "\t"
  else if c =? 10 then "\n"
  else if c =? 12 then "\f"
  else if c =? 13 then "\r"
  else if c <? 32 then unicode_escape c
  else String c EmptyString.

(** The two halves of a character outside the Basic Multilingual Plane. *)
Definition is_high (c : N) : bool := (55296 <=? c) && (c <=? 56319).
Definition is_low (c : N) : bool := (56320 <=? c) && (c <=? 57343).

(** The inside of a string literal: a surrogate pair is written as it is, a
    surrogate without its partner as an escape. *)
Fixpoint escape (s : string) : string :=
  match s with
  | EmptyString => EmptyString
  | String c s' =>
      if is_high c then
        match s' with
        | String d s'' =>
            if is_low d then String c (String d (escape s''))
            else unicode_escape c +:+ escape s'
        | EmptyString => unicode_escape c
        end
      else if is_low c then unicode_escape c +:+ escape s'
      else escape_unit c +:+ escape s'
  end.

Definition quote (s : string) : string :=
  String DQ (escape s +:+ String DQ EmptyString).

(** The text of a number; [NaN] and the infinities are written [null]. *)
Definition number (text : string) : string :=
  if JSString.eqb text "NaN" || JSString.eqb text "Infinity" ||
     JSString.eqb text "-Infinity"
  then "null" else text.

Fixpoint stringify (v : json) : string :=
  match v with
  | JNull => "null"
  | JBool true => "true"
  | JBool false => "false"
  | JNum text => number text
  | JStr s => quote s
  | JArr items => "[" +:+ JSString.join "," (map stringify items) +:+ "]"
  | JObj fields =>
      "{" +:+
      JSString.join ","
        (map (fun kv => quote (fst kv) +:+ ":" +:+ stringify (snd kv)) fields) +:+
      "}"
  end.

(** *** Reading *)

(** White space between the tokens: space, TAB, LF and CR. *)
Definition is_ws (c : N) : bool :=
  (c =? 32) || (c =? 9) || (c =? 10) || (c =? 13).

Fixpoint skip_ws (s : string) : string :=
  match s with
  | String c s' => if is_ws c then skip_ws s' else s
  | EmptyString => s
  end.

Definition hex_value (c : N) : option N :=
  if (48 <=? c) && (c <=? 57) then Some (c - 48)
  else if (97 <=? c) && (c <=? 102) then Some (c - 87)
  else if (65 <=? c) && (c <=? 70) then Some (c - 55)
  else None.

(** The code unit of the escape [\e] for [e] one of the double quote, the
    backslash, the slash, [b], [f], [n], [r] and [t]. *)
Definition simple_escape (e : N) : option N :=
  if e =? 34 then Some 34
  else if e =? 92 then Some 92
  else if e =? 47 then Some 47
  else if e =? 98 then Some 8
  else if e =? 102 then Some 12
  else if e =? 110 then Some 10
  else if e =? 114 then Some 13
  else if e =? 116 then Some 9
  else None.

Definition prepend (c : N) (r : option (string * string)) : option (string * string) :=
  match r with
  | Some (s, rest) => Some (String c s, rest)
  | None => None
  end.

(** The code units of a string literal after its opening quote, up to and
    including the closing quote.  An escape [\uXXXX] is one code unit. *)
Fixpoint parse_chars (s : string) : option (string * string) :=
  match s with
  | EmptyString => None
  | String c rest =>
      if c =? 34 then Some (EmptyString, rest)
      else if c =? 92 then
        match rest with
        | String e rest' =>
            if e =? 117 then                          (* u *)
              match rest' with
              | String h1 (String h2 (String h3 (String h4 rest''))) =>
                  match hex_value h1, hex_value h2, hex_value h3, hex_value h4 with
                  | Some x1, Some x2, Some x3, Some x4 =>
                      prepend (((x1 * 16 + x2) * 16 + x3) * 16 + x4) (parse_chars rest'')
                  | _, _, _, _ => None
                  end
              | _ => None
              end
            else
              match simple_escape e with
              | Some c' => prepend c' (parse_chars rest')
              | None => None
              end
        | EmptyString => None
        end
      else if c <? 32 then None
      else prepend c (parse_chars rest)
  end.

Definition is_digit (c : N) : bool := (48 <=? c) && (c <=? 57).

(** The digits a text starts with, and what follows them. *)
Fixpoint span_digits (s : string) : string * string :=
  match s with
  | String c s' =>
      if is_digit c then (String c (span_digits s').1, (span_digits s').2)
      else (EmptyString, s)
  | EmptyString => (EmptyString, EmptyString)
  end.

(** One digit or more. *)
Definition scan_digits (s : string) : option (string * string) :=
  match span_digits s with
  | (EmptyString, _) => None
  | found => Some found
  end.

(** The integer part: a lone [0], or digits. *)
Definition scan_int (s : string) : option (string * string) :=
  match s with
  | String c rest => if c =? 48 then Some ("0"%js, rest) else scan_digits s
  | EmptyString => None
  end.

(** The fraction, if there is one: a dot and digits. *)
Definition scan_frac (s : string) : option (string * string) :=
  match s with
  | String c rest =>
      if c =? 46 then                                  (* the dot *)
        match scan_digits rest with
        | Some (ds, rest') => Some (String c ds, rest')
        | None => None
        end
      else Some (EmptyString, s)
  | EmptyString => Some (EmptyString, s)
  end.

(** The sign of an exponent, if there is one. *)
Definition scan_sign (s : string) : string * string :=
  match s with
  | String c rest =>
      if (c =? 43) || (c =? 45) then (String c EmptyString, rest) else (EmptyString, s)
  | EmptyString => (EmptyString, s)
  end.

(** The exponent, if there is one: [e] or [E], a sign or none, digits. *)
Definition scan_exp (s : string) : option (string * string) :=
  match s with
  | String c rest =>
      if (c =? 101) || (c =? 69) then
        match scan_digits (scan_sign rest).2 with
        | Some (ds, rest') => Some (String c ((scan_sign rest).1 +:+ ds), rest')
        | None => None
        end
      else Some (EmptyString, s)
  | EmptyString => Some (EmptyString, s)
  end.

(** The minus sign of a number, if there is one. *)
Definition scan_minus (s : string) : string * string :=
  match s with
  | String c rest => if c =? 45 then (String c EmptyString, rest) else (EmptyString, s)
  | EmptyString => (EmptyString, s)
  end.

(** The text of the number a text starts with, by the grammar of JSON,
    and what follows it. *)
Definition scan_number (s : string) : option (string * string) :=
  match scan_int (scan_minus s).2 with
  | Some (i, s1) =>
      match scan_frac s1 with
      | Some (f, s2) =>
          match scan_exp s2 with
          | Some (e, s3) => Some ((scan_minus s).1 +:+ i +:+ f +:+ e, s3)
          | None => None
          end
      | None => None
      end
  | None => None
  end.

(** The name of an array index: the decimal text, without a leading zero,
    of a whole number below [2^32 - 1]. *)
Definition index_of (k : string) : option N :=
  match span_digits k with
  | (String c ds, EmptyString) =>
      let n := Z.to_N (default 0%Z (JSDate.number_of (JSString.to_list k) 0%Z)) in
      if (negb (c =? 48) || JSString.eqb ds EmptyString) && (n <? 4294967295)
      then Some n else None
  | _ => None
  end.

(** A new property whose name is an array index [n] goes in front of the
    properties whose name is not one and of the indices above [n]. *)
Fixpoint insert_index (n : N) (k : string) (v : json) (fields : list (string * json))
  : list (string * json) :=
  match fields with
  | [] => [(k, v)]
  | (k', v') :: rest =>
      match index_of k' with
      | Some n' => if n' <? n then (k', v') :: insert_index n k v rest else (k, v) :: fields
      | None => (k, v) :: fields
      end
  end.

(** The new value of a property that exists, in its place. *)
Fixpoint replace (k : string) (v : json) (fields : list (string * json))
  : list (string * json) :=
  match fields with
  | [] => []
  | (k', v') :: rest =>
      if JSString.eqb k k' then (k', v) :: rest else (k', v') :: replace k v rest
  end.

(** The definition of the property [k] of an object under construction:
    the properties are kept in the order in which the language enumerates
    them, the array indices in ascending order and then the other names in
    the order of their creation. *)
Definition define (k : string) (v : json) (fields : list (string * json))
  : list (string * json) :=
  match JS.assoc k fields with
  | Some _ => replace k v fields
  | None =>
      match index_of k with
      | Some n => insert_index n k v fields
      | None => (fields ++ [(k, v)])%list
      end
  end.

Definition build (members : list (string * json)) : list (string * json) :=
  fold_left (fun fields kv => define (fst kv) (snd kv) fields) members [].

Section Parse.
Context {P : Platform}.

Definition parse_number (s : string) : option (json * string) :=
  match scan_number s with
  | Some (text, rest) => Some (JNum (numberText text), rest)
  | None => None
  end.

Definition keyword (tail : string) (v : json) (rest : string) : option (json * string) :=
  match JSString.strip_prefix tail rest with
  | Some rest' => Some (v, rest')
  | None => None
  end.

Fixpoint parse_value (fuel : nat) (s : string) : option (json * string) :=
  match fuel with
  | O => None
  | S fuel =>
      match skip_ws s with
      | EmptyString => None
      | String c rest =>
          if c =? 110 then keyword "ull" JNull rest                 (* n *)
          else if c =? 116 then keyword "rue" (JBool true) rest     (* t *)
          else if c =? 102 then keyword "alse" (JBool false) rest   (* f *)
          else if c =? 34 then                                      (* the double quote *)
            match parse_chars rest with
            | Some (str, rest) => Some (JStr str, rest)
            | None => None
            end
          else if c =? 91 then                                      (* [ *)
            match skip_ws rest with
            | EmptyString => None
            | String d rest' =>
                if d =? 93 then Some (JArr [], rest')               (* ] *)
                else
                  match parse_elements fuel rest with
                  | Some (items, rest) => Some (JArr items, rest)
                  | None => None
                  end
            end
          else if c =? 123 then                                     (* { *)
            match skip_ws rest with
            | EmptyString => None
            | String d rest' =>
                if d =? 125 then Some (JObj [], rest')              (* } *)
                else
                  match parse_members fuel rest with
                  | Some (members, rest) => Some (JObj (build members), rest)
                  | None => None
                  end
            end
          else parse_number (String c rest)
      end
  end
with parse_elements (fuel : nat) (s : string) : option (list json * string) :=
  match fuel with
  | O => None
  | S fuel =>
      match parse_value fuel s with
      | Some (v, rest) =>
          match skip_ws rest with
          | EmptyString => None
          | String d rest =>
              if d =? 44 then                                       (* , *)
                match parse_elements fuel rest with
                | Some (vs, rest) => Some (v :: vs, rest)
                | None => None
                end
              else if d =? 93 then Some ([v], rest)                 (* ] *)
              else None
          end
      | None => None
      end
  end
with parse_members (fuel : nat) (s : string) : option (list (string * json) * string) :=
  match fuel with
  | O => None
  | S fuel =>
      match skip_ws s with
      | EmptyString => None
      | String q rest =>
          if q =? 34 then                                           (* the double quote *)
            match parse_chars rest with
            | Some (key, rest) =>
                match skip_ws rest with
                | EmptyString => None
                | String d rest =>
                    if d =? 58 then                                 (* : *)
                      match parse_value fuel rest with
                      | Some (v, rest) =>
                          match skip_ws rest with
                          | EmptyString => None
                          | String d rest =>
                              if d =? 44 then                       (* , *)
                                match parse_members fuel rest with
                                | Some (kvs, rest) => Some ((key, v) :: kvs, rest)
                                | None => None
                                end
                              else if d =? 125 then Some ([(key, v)], rest)   (* } *)
                              else None
                          end
                      | None => None
                      end
                    else None
                end
            | None => None
            end
          else None
      end
  end.

(** [JSON.parse(text)]; [None] when it throws a [SyntaxError]. *)
Definition parse (text : string) : option json :=
  match parse_value (JSString.length text) text with
  | Some (v, rest) =>
      match skip_ws rest with
      | EmptyString => Some v
      | _ => None
      end
  | None => None
  end.

End Parse.

(** What may follow a value: the end of the text or a closing or separating
    character. *)
Definition delimited (rest : string) : Prop :=
  match rest with
  | EmptyString => True
  | String c _ => c = 44 \/ c = 93 \/ c = 125
  end.

(** What stops the scanner of numbers: the end of the text, or a code unit
    that no number holds. *)
Definition halts (rest : string) : Prop :=
  match rest with
  | EmptyString => True
  | String c _ =>
      is_digit c = false /\ c <> 43 /\ c <> 45 /\ c <> 46 /\ c <> 69 /\ c <> 101
  end.

(** The code units a value can start with: a digit, the minus sign, [n],
    [t], [f], the double quote, [[] and [{]. *)
Definition value_start (c : N) : bool :=
  is_digit c || (c =? 45) || (c =? 110) || (c =? 116) || (c =? 102) ||
  (c =? 34) || (c =? 91) || (c =? 123).

(** *** Values that are their own parse *)

(** The text of a number, as the grammar of JSON has it. *)
Definition is_number (text : string) : bool :=
  match scan_number text with
  | Some (_, EmptyString) => true
  | _ => false
  end.

(** Property names in the order of enumeration: the array indices first,
    in ascending order. *)
Definition may_follow (k k' : string) : bool :=
  match index_of k, index_of k' with
  | Some n, Some n' => n <? n'
  | None, Some _ => false
  | _, None => true
  end.

Fixpoint ordered (keys : list string) : bool :=
  match keys with
  | [] => true
  | k :: rest => forallb (may_follow k) rest && ordered rest
  end.

Section Valid.
Context {P : Platform}.

(** The values the language can hold and [JSON.stringify] writes without
    loss: a number is finite and carries the text the language prints it
    with, and an object has its properties in the order of enumeration, no
    two of one name. *)
Fixpoint wf (v : json) : bool :=
  match v with
  | JNum text => is_number text && JSString.eqb (numberText text) text
  | JArr items => forallb wf items
  | JObj fields =>
      bool_decide (NoDup (map fst fields)) && ordered (map fst fields) &&
      forallb (fun kv => wf (snd kv)) fields
  | _ => true
  end.

End Valid.

(** The recursion depth the parser needs on the text of a value. *)
Fixpoint depth (v : json) : nat :=
  match v with
  | JArr items => S (foldr (fun x acc => S (Nat.max (depth x) acc)) O items)
  | JObj fields => S (foldr (fun kv acc => S (Nat.max (depth (snd kv)) acc)) O fields)
  | _ => 1
  end.

Section Back.
Context {P : Platform}.

(** The parser reads the text of [v] back, whatever follows it. *)
Definition parses_back (v : json) : Prop :=
  forall (fuel : nat) (rest : string),
    (depth v <= fuel)%nat -> delimited rest ->
    parse_value fuel (stringify v +:+ rest) = Some (v, rest).

End Back.

End JSON.
(** ** The browser: session storage and console *)

Inductive outcome (A : Type) : Type :=
| Return (a : A)
| Throw.
Arguments Return {A} a.
Arguments Throw {A}.

Module Browser.

Record t : Type := mk {
  (** [typeof window !== "undefined"] *)
  hasWindow : bool;
  (** [window.sessionStorage] can be used; otherwise every access to it
      raises. *)
  storageReachable : bool;
  (** The longest value [setItem] accepts, when there is a limit; a longer
      one raises a quota error. *)
  quota : option nat;
  (** The contents of the session storage. *)
  items : gmap string string;
  (** What [console.warn] and [console.error] have printed, oldest
      first. *)
  console : list string
}.

Definition with_items (b : t) (items' : gmap string string) : t :=
  mk (hasWindow b) (storageReachable b) (quota b) items' (console b).

Definition log (line : string) (b : t) : t :=
  mk (hasWindow b) (storageReachable b) (quota b) (items b) (console b ++ [line]).

Definition within_quota (b : t) (value : string) : bool :=
  match quota b with
  | Some limit => (JSString.length value <=? limit)%nat
  | None => true
  end.

Definition getItem (b : t) (key : string) : outcome (option string) :=
  if storageReachable b then Return (items b !! key) else Throw.

Definition setItem (b : t) (key value : string) : outcome t :=
  if storageReachable b && within_quota b value
  then Return (with_items b (<[key := value]> (items b)))
  else Throw.

Definition removeItem (b : t) (key : string) : outcome t :=
  if storageReachable b then Return (with_items b (delete key (items b))) else Throw.

End Browser.

(** ** The session store *)

Definition optional_field (name : string) (value : option json) : list (string * json) :=
  match value with
  | Some v => [(name, v)]
  | None => []
  end.

(** The JavaScript object a [StoredMessage] is; a field that is
    [undefined] is no property of it once serialised. *)
Definition StoredMessage_json (m : StoredMessage.t) : json :=
  JObj ([ ("id", JStr (StoredMessage.id m));
          ("role", JStr (Role_to_string (StoredMessage.role m)));
          ("content", JStr (StoredMessage.content m)) ] ++
        optional_field "metadata" (StoredMessage.metadata m) ++
        optional_field "serviceGroups" (JArr <$> StoredMessage.serviceGroups m) ++
        optional_field "nextActions" (StoredMessage.nextActions m) ++
        optional_field "needsIdentified" (StoredMessage.needsIdentified m) ++
        [ ("createdAt", JStr (StoredMessage.createdAt m)) ]).

Definition StoredSession_json (s : StoredSession.t) : json :=
  JObj [ ("sessionId", JStr (StoredSession.sessionId s));
         ("title", JStr (StoredSession.title s));
         ("messages", JArr (map StoredMessage_json (StoredSession.messages s)));
         ("createdAt", JStr (StoredSession.createdAt s));
         ("updatedAt", JStr (StoredSession.updatedAt s)) ].

(** The cast [parsed as StoredSession[]] read as a view: the message, and
    the session, that a JSON value is when it has the fields of one. *)
Definition Role_of_string (s : string) : option Role :=
  if JSString.eqb s "user" then Some user
  else if JSString.eqb s "assistant" then Some assistant
  else if JSString.eqb s "system" then Some system
  else None.

Definition get_string (name : string) (v : json) : option string :=
  match JS.get name v with
  | Some (JStr s) => Some s
  | _ => None
  end.

Definition asStoredMessage (v : json) : option StoredMessage.t :=
  id ← get_string "id" v;
  role ← get_string "role" v ≫= Role_of_string;
  content ← get_string "content" v;
  createdAt ← get_string "createdAt" v;
  serviceGroups ←
    match JS.get "serviceGroups" v with
    | None => Some None
    | Some (JArr groups) => Some (Some groups)
    | Some _ => None
    end;
  Some (StoredMessage.mk id role content (JS.get "metadata" v) serviceGroups
          (JS.get "nextActions" v) (JS.get "needsIdentified" v) createdAt).

Definition asStoredSession (v : json) : option StoredSession.t :=
  sessionId ← get_string "sessionId" v;
  title ← get_string "title" v;
  messages ←
    match JS.get "messages" v with
    | Some (JArr items) => mapM asStoredMessage items
    | _ => None
    end;
  createdAt ← get_string "createdAt" v;
  updatedAt ← get_string "updatedAt" v;
  Some (StoredSession.mk sessionId title messages createdAt updatedAt).

Section Store.
Context {P : Platform}.

(** A message, and a session, whose free-form parts are values that
    [JSON.stringify] writes without loss: the valid ones. *)
Definition optional_wf (value : option json) : bool :=
  match value with Some v => JSON.wf v | None => true end.

Definition StoredMessage_wf (m : StoredMessage.t) : bool :=
  optional_wf (StoredMessage.metadata m) &&
  optional_wf (JArr <$> StoredMessage.serviceGroups m) &&
  optional_wf (StoredMessage.nextActions m) &&
  optional_wf (StoredMessage.needsIdentified m).

Definition StoredSession_wf (s : StoredSession.t) : bool :=
  forallb StoredMessage_wf (StoredSession.messages s).

(** [readStoredSessions]: the array found in the slot, as it was parsed
    (the source casts it to [StoredSession[]] without looking at its
    elements), and the browser with what has been logged. *)
Definition readStoredSessions (b : Browser.t) : list json * Browser.t :=
  if negb (Browser.hasWindow b) then ([], b)
  else
    match Browser.getItem b LOCAL_STORAGE_KEY with
    | Throw => ([], Browser.log "Failed to read Street Bot sessions" b)
    | Return None => ([], b)
    | Return (Some raw) =>
        if negb (JSString.truthy raw) then ([], b)
        else
          match JSON.parse raw with
          | None => ([], Browser.log "Failed to read Street Bot sessions" b)
          | Some (JArr parsed) => (parsed, b)
          | Some _ => ([], b)
          end
    end.

Definition writeStoredSessions (next : list StoredSession.t) (b : Browser.t) : Browser.t :=
  if negb (Browser.hasWindow b) then b
  else
    match next with
    | [] =>
        match Browser.removeItem b LOCAL_STORAGE_KEY with
        | Return b' => b'
        | Throw => Browser.log "Failed to persist Street Bot sessions" b
        end
    | _ =>
        match Browser.setItem b LOCAL_STORAGE_KEY
                (JSON.stringify (JArr (map StoredSession_json next))) with
        | Return b' => b'
        | Throw => Browser.log "Failed to persist Street Bot sessions" b
        end
    end.

End Store.

(** Whether a JSON value has the fields of a [StoredSession]. *)
Module SessionShape.

Definition is_string_field (name : string) (v : json) : bool :=
  match JS.get name v with Some (JStr _) => true | _ => false end.

Definition is_message (v : json) : bool :=
  is_string_field "id" v && is_string_field "role" v &&
  is_string_field "content" v && is_string_field "createdAt" v.

Definition is_session (v : json) : bool :=
  is_string_field "sessionId" v && is_string_field "title" v &&
  is_string_field "createdAt" v && is_string_field "updatedAt" v &&
  match JS.get "messages" v with
  | Some (JArr ms) => forallb is_message ms
  | _ => false
  end.

Section Text.
Context {P : Platform}.

(** The text parses as a sequence of Sessions. *)
Definition parses_as_sessions (raw : string) : bool :=
  match JSON.parse raw with
  | Some (JArr l) => forallb is_session l
  | _ => false
  end.

End Text.

End SessionShape.

(** ** The chat controller

    The state of [Home] that the submit handler reads and writes.  The
    handler runs in two stretches: from the submit event to the [await] of
    the remote call ([handleSubmit]), and from the outcome of the call to
    the end ([handleResponse]).  Between the two the state may have been
    changed by other events, so the second stretch starts from the state
    it finds; what it remembers of the first is in [Pending]. *)

Module Home.

Record state : Type := mkState {
  messages : list ChatMessage.t;
  sessionId : option string;
  storedSessions : list StoredSession.t;
  input : string
}.

Definition setMessages (f : list ChatMessage.t -> list ChatMessage.t) (st : state) : state :=
  mkState (f (messages st)) (sessionId st) (storedSessions st) (input st).

Definition setSessionId (id : option string) (st : state) : state :=
  mkState (messages st) id (storedSessions st) (input st).

Definition setInput (text : string) (st : state) : state :=
  mkState (messages st) (sessionId st) (storedSessions st) text.

(** [setStoredSessions(updater)]; the updaters of the handler also write
    to the session storage. *)
Definition setStoredSessions
    (updater : list StoredSession.t -> Browser.t -> list StoredSession.t * Browser.t)
    (w : state * Browser.t) : state * Browser.t :=
  let '(prev, b) := updater (storedSessions w.1) w.2 in
  (mkState (messages w.1) (sessionId w.1) prev (input w.1), b).

(** The request [fetch] sends: the URL and the [runConfig] body. *)
Record request : Type := mkRequest {
  url : string;
  body_messages : list AgentUGIMessage.t;
  body_sessionId : option string
}.

(** What the handler keeps across the [await]. *)
Record pending : Type := mkPending {
  userMessage : ChatMessage.t;
  loadingMessageId : string;
  (** [messages] and [sessionId] of the render the handler closes over *)
  seenMessages : list ChatMessage.t;
  seenSessionId : option string;
  sent : request
}.

(** How the remote call ends, as far as the handler tells the ends
    apart. *)
Inductive fetched : Type :=
| NetworkError                          (** [fetch] rejects *)
| HttpError (status : Z) (text : string) (** [response.ok] is false *)
| MalformedBody                         (** [response.json()] rejects *)
| IllShapedPayload (sessionId : option string)
    (** the body is JSON but reading it raises a [TypeError] (it is
        [null], its [newMessages] is no array, or an item of
        [newMessages] is [null] or no object); [sessionId] is the field
        the handler has read by then *)
| Payload (payload : RunAgentResponsePayload.t).

(** The ends that take the handler to its [catch] block. *)
Definition failed (r : fetched) : bool :=
  match r with Payload _ => false | _ => true end.



(** An item of [newMessages] as the callback of [map] reads it; [None]
    when the callback raises: on [null] at [message.metadata], and on a
    value that is no object at ["content" in message]. *)
Definition readItem (message : json) : option AgentUGIResponseMessage.t :=
  match message with
  | JObj _ | JArr _ =>
      Some (AgentUGIResponseMessage.mk (JS.get "role" message) (JS.get "content" message)
                                       (JS.get "metadata" message))
  | JNull | JBool _ | JNum _ | JStr _ => None
  end.

(** [payload.sessionId] as far as the handler tells values apart: a
    string, or a value that counts as none (missing, [null], [false],
    [0], [NaN]).  Another value is no identifier the types of the
    program know ([None]): the model does not follow the handler
    there. *)
Definition readSessionId (body : json) : option (option string) :=
  match JS.get "sessionId" body with
  | None => Some None
  | Some (JStr s) => Some (Some s)
  | Some v => if JS.falsy v then Some None else None
  end.

(** The body of a response as the handler reads it: [payload.sessionId]
    first, which raises on [null], then [payload?.newMessages ?? []] and
    its [map], which raises on a value that is no array. *)
Definition decode (body : json) : option fetched :=
  match body with
  | JNull => Some (IllShapedPayload None)
  | _ =>
      maybeSessionId ← readSessionId body;
      Some match JS.get "newMessages" body with
           | None | Some JNull =>
               Payload (RunAgentResponsePayload.mk None maybeSessionId)
           | Some (JArr items) =>
               match mapM readItem items with
               | Some newMessages =>
                   Payload (RunAgentResponsePayload.mk (Some newMessages) maybeSessionId)
               | None => IllShapedPayload maybeSessionId
               end
           | Some _ => IllShapedPayload maybeSessionId
           end
  end.

(** A string or [null], tested as a condition. *)
Definition truthy (s : option string) : bool :=
  match s with Some s => JSString.truthy s | None => false end.

Definition plainMessage (id : string) (role : Role) (content : string)
    (variant : option Variant.t) : ChatMessage.t :=
  ChatMessage.mk id role content None variant None None None.

Definition missingAgentText : string :=
  "Street Bot isn't connected to an agent yet. Set NEXT_PUBLIC_AGENT_URL and reload to chat.".

Definition unreachableText : string :=
  "We couldn't reach the Street Bot service. Check your agent URL or try again.".


(** The shape the specification gives to the payload of a response:
    [{ newMessages: sequence of {role, content, metadata?},
       sessionId?: string }]. *)
Module PayloadShape.

Definition is_message (v : json) : bool :=
  match JS.get "role" v, JS.get "content" v with
  | Some (JStr _), Some _ => true
  | _, _ => false
  end.


End PayloadShape.

Section Handler.
Context {P : Platform}.


(** The updater of the first [setStoredSessions]: the user message joins
    the session of the conversation, when the store has one. *)
Definition persistUserMessage (currentSessionId : string)
    (storedUserMessage : StoredMessage.t)
    (prev : list StoredSession.t) (b : Browser.t) : list StoredSession.t * Browser.t :=
  match List.find (fun session => JSString.eqb (StoredSession.sessionId session) currentSessionId)
                  prev with
  | None => (prev, b)
  | Some existing =>
      if existsb (fun message =>
                    JSString.eqb (StoredMessage.id message) (StoredMessage.id storedUserMessage))
                 (StoredSession.messages existing)
      then (prev, b)
      else
        let updatedSession :=
          StoredSession.mk (StoredSession.sessionId existing) (StoredSession.title existing)
            (StoredSession.messages existing ++ [storedUserMessage])
            (StoredSession.createdAt existing)
            (StoredMessage.createdAt storedUserMessage) in
        let nextSessions :=
          sortSessionsByUpdated
            (map (fun session =>
                    if JSString.eqb (StoredSession.sessionId session) currentSessionId
                    then updatedSession else session)
                 prev) in
        (nextSessions, writeStoredSessions nextSessions b)
  end.

(** [if (currentSessionId) { setStoredSessions(...) }] *)
Definition persistIfSession (currentSessionId : option string)
    (storedUserMessage : StoredMessage.t) (w : state * Browser.t) : state * Browser.t :=
  match currentSessionId with
  | Some currentSessionId =>
      if JSString.truthy currentSessionId
      then setStoredSessions (persistUserMessage currentSessionId storedUserMessage) w
      else w
  | None => w
  end.

(** [handleSubmit] up to the remote call.  [agent] is the URL of the
    agent, when one is configured; [uuid] is the value of
    [crypto.randomUUID()] and [now] that of [new Date().toISOString()]. *)
Definition handleSubmit (agent : option string) (uuid now : string)
    (st : state) (b : Browser.t) : state * Browser.t * option pending :=
  if negb (JSString.truthy (JSString.trim (input st))) then (st, b, None)
  else
    let userMessage := plainMessage uuid user (JSString.trim (input st)) None in
    let storedUserMessage :=
      StoredMessage.mk (ChatMessage.id userMessage) user (ChatMessage.content userMessage)
                       None None None None now in
    let nextMessages := messages st ++ [userMessage] in
    let w := (setInput EmptyString (setMessages (fun _ => nextMessages) st), b) in
    let loadingMessageId := ChatMessage.id userMessage +:+ "-loading" in
    let dynamicLoadingMessage := getLoadingMessage (ChatMessage.content userMessage) in
    let w :=
      (setMessages
         (fun prev =>
            prev ++ [plainMessage loadingMessageId assistant dynamicLoadingMessage
                                  (Some Variant.callout)])
         w.1, w.2) in
    let w := persistIfSession (sessionId st) storedUserMessage w in
    match agent with
    | None =>
        (setMessages
           (fun prev =>
              prev ++ [plainMessage (ChatMessage.id userMessage +:+ "-missing-agent") system
                                    missingAgentText (Some Variant.callout)])
           w.1, w.2, None)
    | Some agent_url =>
        let runConfig :=
          mkRequest agent_url (toAgentMessages nextMessages)
                    (if truthy (sessionId st) then sessionId st else None) in
        (w.1, w.2,
         Some (mkPending userMessage loadingMessageId (messages st) (sessionId st) runConfig))
    end.

(** The test of [prev.filter((message) => message.id !== loadingMessageId)]. *)
Definition keepExcept (loadingMessageId : string) (message : ChatMessage.t) : bool :=
  negb (JSString.eqb (ChatMessage.id message) loadingMessageId).

(** [v ?? d] on a value that may be missing or [null]. *)
Definition nullish_or (v : option json) (d : json) : json :=
  match v with
  | None | Some JNull => d
  | Some v => v
  end.

(** [v?.name] *)
Definition optional_get (name : string) (v : option json) : option json :=
  match v with
  | None | Some JNull => None
  | Some v => JS.get name v
  end.

(** [v === text] for a value that may be missing. *)
Definition is_text (v : option json) (text : string) : bool :=
  match v with
  | Some (JStr s) => JSString.eqb s text
  | _ => false
  end.

(** The callback of [newMessages.map]. *)
Definition toAssistantMessage (userMessage : ChatMessage.t)
    (message : AgentUGIResponseMessage.t) (index : nat) : ChatMessage.t :=
  let metadata := AgentUGIResponseMessage.metadata message in
  let rawServiceGroups := optional_get "service_lookup" (optional_get "tools" metadata) in
  let serviceGroups :=
    match rawServiceGroups with
    | Some (JArr groups) => groups
    | _ => []
    end in
  let role :=
    if is_text (AgentUGIResponseMessage.role message) "user" then user
    else if is_text (AgentUGIResponseMessage.role message) "assistant" then assistant
    else assistant in
  ChatMessage.mk
    (ChatMessage.id userMessage +:+ "-assistant-" +:+ JSString.of_int (Z.of_nat index))
    role
    (match AgentUGIResponseMessage.content message with
     | Some content => extractText content
     | None => EmptyString
     end)
    metadata
    (if (0 <? length serviceGroups)%nat then Some Variant.callout else None)
    (Some serviceGroups)
    (Some (nullish_or (optional_get "nextActions" metadata) (JArr [])))
    (Some (nullish_or (optional_get "needsIdentified" metadata) (JArr []))).

Definition toStoredMessage (now : string) (assistantMessage : ChatMessage.t)
  : StoredMessage.t :=
  StoredMessage.mk (ChatMessage.id assistantMessage) (ChatMessage.role assistantMessage)
    (ChatMessage.content assistantMessage) (ChatMessage.metadata assistantMessage)
    (ChatMessage.serviceGroups assistantMessage) (ChatMessage.nextActions assistantMessage)
    (ChatMessage.needsIdentified assistantMessage) now.

(** The updater of the second [setStoredSessions]. *)
Definition mergeResponse (p : pending) (maybeSessionId : option string)
    (assistantMessages : list ChatMessage.t) (now : string)
    (prev : list StoredSession.t) (b : Browser.t) : list StoredSession.t * Browser.t :=
  match maybeSessionId with
  | None => (prev, b)
  | Some newId =>
      if negb (JSString.truthy newId) then (prev, b)
      else
        let existing :=
          List.find (fun session => JSString.eqb (StoredSession.sessionId session) newId) prev in
        let storedUserMessage :=
          StoredMessage.mk (ChatMessage.id (userMessage p)) user
                           (ChatMessage.content (userMessage p)) None None None None now in
        let firstUserContent :=
          match List.find (fun msg => Role_eqb (ChatMessage.role msg) user) (seenMessages p) with
          | Some msg => ChatMessage.content msg
          | None => ChatMessage.content (userMessage p)
          end in
        let nextSession :=
          StoredSession.mk newId
            (match existing with
             | Some e => StoredSession.title e
             | None => getDefaultSessionTitle firstUserContent
             end)
            (match existing with Some e => StoredSession.messages e | None => [] end ++
             [storedUserMessage] ++ map (toStoredMessage now) assistantMessages)
            (match existing with Some e => StoredSession.createdAt e | None => now end)
            now in
        let nextSessions :=
          JSArray.sort byUpdatedDescending (upsertSession prev nextSession) in
        (nextSessions, writeStoredSessions nextSessions b)
  end.

(** The [catch] block. *)
Definition requestFailed (p : pending) (st : state) (b : Browser.t) : state * Browser.t :=
  let b := Browser.log "Street Bot request failed" b in
  (setMessages
     (fun prev =>
        let withoutLoading := List.filter (keepExcept (loadingMessageId p)) prev in
        withoutLoading ++
        [plainMessage (ChatMessage.id (userMessage p) +:+ "-error") system
                      unreachableText (Some Variant.callout)])
     st, b).

(** [handleSubmit] from the outcome of the remote call on; [now] is the
    value of [new Date().toISOString()] in the store updater. *)
Definition handleResponse (p : pending) (r : fetched) (now : string)
    (st : state) (b : Browser.t) : state * Browser.t :=
  match r with
  | Payload payload =>
      let maybeSessionId := RunAgentResponsePayload.sessionId payload in
      let st := if truthy maybeSessionId then setSessionId maybeSessionId st else st in
      let assistantMessages :=
        JSArray.mapi (toAssistantMessage (userMessage p))
                     (default [] (RunAgentResponsePayload.newMessages payload)) in
      let st :=
        setMessages
          (fun prev =>
             let withoutLoading := List.filter (keepExcept (loadingMessageId p)) prev in
             match assistantMessages with
             | [] => withoutLoading
             | _ => withoutLoading ++ assistantMessages
             end)
          st in
      setStoredSessions (mergeResponse p maybeSessionId assistantMessages now) (st, b)
  | IllShapedPayload maybeSessionId =>
      let st := if truthy maybeSessionId then setSessionId maybeSessionId st else st in
      requestFailed p st b
  | NetworkError | HttpError _ _ | MalformedBody => requestFailed p st b
  end.

End Handler.

Definition handleNewChat (st : state) : state :=
  setInput EmptyString (setSessionId None (setMessages (fun _ => []) st)).


End Home.

(** ** The sidebar and the selection of a session

    The state of [Home] beside the conversation: whether a session has
    been opened since the page was loaded, and the text of the sidebar
    search. *)

Definition HISTORY_ENTRY_ICON_PATH : string := "/streetbot/history-bubble.svg".

Inductive HistoryEntryState : Type := active | disabled.

(** [HistoryEntry]; [onClick] stands for [() => handleSelectSession(id)]
    and holds that [id]. *)
Module HistoryEntry.
Record t : Type := mk {
  id : string;
  label : string;
  icon : string;
  state : option HistoryEntryState;
  actions : list string;
  onClick : string
}.
End HistoryEntry.

Module Page.

Record t : Type := mk {
  home : Home.state;
  hasInitializedSession : bool;
  sidebarSearch : string
}.

(** The callback of [session.messages.map] in [handleSelectSession]: the
    message on screen of a stored message; [variant] is not among the
    fields copied. *)
Definition toChatMessage (message : StoredMessage.t) : ChatMessage.t :=
  ChatMessage.mk (StoredMessage.id message) (StoredMessage.role message)
    (StoredMessage.content message) (StoredMessage.metadata message) None
    (StoredMessage.serviceGroups message) (StoredMessage.nextActions message)
    (StoredMessage.needsIdentified message).

(** A message on screen without its [variant]. *)
Definition withoutVariant (message : ChatMessage.t) : ChatMessage.t :=
  ChatMessage.mk (ChatMessage.id message) (ChatMessage.role message)
    (ChatMessage.content message) (ChatMessage.metadata message) None
    (ChatMessage.serviceGroups message) (ChatMessage.nextActions message)
    (ChatMessage.needsIdentified message).

Definition handleSelectSession (id : string) (p : t) : t :=
  match List.find (fun item => JSString.eqb (StoredSession.sessionId item) id)
                  (Home.storedSessions (home p)) with
  | None => p
  | Some session =>
      mk (Home.mkState (map toChatMessage (StoredSession.messages session))
                       (Some (StoredSession.sessionId session))
                       (Home.storedSessions (home p))
                       EmptyString)
         true (sidebarSearch p)
  end.

(** The effect that opens the latest session when nothing is open. *)
Definition selectLatest (p : t) : t :=
  if hasInitializedSession p || Home.truthy (Home.sessionId (home p)) ||
     (0 <? length (Home.messages (home p)))%nat ||
     (length (Home.storedSessions (home p)) =? 0)%nat
  then p
  else
    match Home.storedSessions (home p) with
    | [] => p
    | latest :: _ =>
        handleSelectSession (StoredSession.sessionId latest)
                            (mk (home p) true (sidebarSearch p))
    end.

Definition handleNewChat (p : t) : t :=
  mk (Home.handleNewChat (home p)) (hasInitializedSession p) (sidebarSearch p).

Section Start.
Context {P : Platform}.

(** The effect that runs once after the first render:
    [setStoredSessions(sortSessionsByUpdated(readStoredSessions()))].
    [parsed] is the array that [readStoredSessions] returned, seen through
    the type [StoredSession[]] to which the source casts it; the setter
    is the plain one of the state and writes nothing. *)
Definition loadStoredSessions (parsed : list StoredSession.t) (p : t) : t :=
  mk (Home.mkState (Home.messages (home p)) (Home.sessionId (home p))
                   (sortSessionsByUpdated parsed) (Home.input (home p)))
     (hasInitializedSession p) (sidebarSearch p).

End Start.

(** The page as [useState] creates it. *)
Definition initial : t := mk (Home.mkState [] None [] EmptyString) false EmptyString.

(** [handleExampleClick] *)
Definition handleExampleClick (example : string) (p : t) : t :=
  mk (Home.setInput example (home p)) (hasInitializedSession p) (sidebarSearch p).

(** The text shown in the empty input box. *)
Definition placeholder (messages : list ChatMessage.t) : string :=
  match last messages with
  | None => "Ask Street Bot to find resource information, draft messages, or plan outreach."
  | Some lastMessage =>
      if Role_eqb (ChatMessage.role lastMessage) assistant
      then "What would you like to ask next?"
      else "Type your follow-up for Street Bot"
  end.

(** The key of a message in the list of the conversation:
    [`${message.id}-${index}`]. *)
Definition messageKey (message : ChatMessage.t) (index : nat) : string :=
  ChatMessage.id message +:+ "-" +:+ JSString.of_int (Z.of_nat index).

Definition messageKeys (messages : list ChatMessage.t) : list string :=
  JSArray.mapi messageKey messages.

End Page.

(** *** The history shown in the sidebar *)

Module Sidebar.

Record view : Type := mkView {
  searchResults : list HistoryEntry.t;
  historyEntriesToday : list HistoryEntry.t;
  historyEntriesYesterday : list HistoryEntry.t;
  historyGroups : list string
}.

Definition mapSessionToEntry (sessionId : option string) (session : StoredSession.t)
  : HistoryEntry.t :=
  HistoryEntry.mk (StoredSession.sessionId session) (StoredSession.title session)
    HISTORY_ENTRY_ICON_PATH
    (match sessionId with
     | Some current =>
         if JSString.eqb (StoredSession.sessionId session) current then Some active else None
     | None => None
     end)
    [] (StoredSession.sessionId session).

(** The comparator [([keyA], [keyB]) => (keyA > keyB ? -1 : 1)]. *)
Definition byMonthDescending (a b : string * list StoredSession.t) : Z :=
  if JSString.ltb (fst b) (fst a) then -1 else 1.

Definition groupLabel (group : string * list StoredSession.t) : string :=
  fst group +:+ " (" +:+ JSString.of_int (Z.of_nat (length (snd group))) +:+ ")".

(** The months of the archive in the order in which they are listed:
    [Object.entries(buckets.monthly).sort(...)].  The entries have
    distinct keys, on which the comparator is a strict total order, so
    the sorted list is the same from whatever order of the entries the
    sort starts; [map_to_list] gives one. *)
Definition archiveMonths (monthly : gmap string (list StoredSession.t))
  : list (string * list StoredSession.t) :=
  JSArray.sort byMonthDescending (map_to_list monthly).

Section History.
Context {P : Platform}.

(** The effect that fills the sidebar; [now] is the value of [new Date()]
    in [bucketSessions]. *)
Definition history (now : Z) (storedSessions : list StoredSession.t)
    (sessionId : option string) (sidebarSearch : string) : view :=
  let normalizedSearch := toLowerCase (JSString.trim sidebarSearch) in
  let buckets := bucketSessions now storedSessions in
  if JSString.truthy normalizedSearch then
    let filteredSessions :=
      List.filter
        (fun session =>
           JSString.includes (toLowerCase (StoredSession.title session))
                             normalizedSearch)
        storedSessions in
    mkView (map (mapSessionToEntry sessionId) filteredSessions) [] [] []
  else
    let archiveNames :=
      map groupLabel (archiveMonths (SessionHistoryBuckets.monthly buckets)) in
    let archiveNames :=
      if (0 <? length (SessionHistoryBuckets.last7Days buckets))%nat
      then ("Previous 7 days (" +:+
            JSString.of_int (Z.of_nat (length (SessionHistoryBuckets.last7Days buckets))) +:+
            ")") :: archiveNames
      else archiveNames in
    mkView []
           (map (mapSessionToEntry sessionId) (SessionHistoryBuckets.today buckets))
           (map (mapSessionToEntry sessionId) (SessionHistoryBuckets.yesterday buckets))
           archiveNames.

End History.

(** What the sidebar shows under the search box: the notice that nothing
    matches, the search results, or the groups by date. *)
Inductive section : Type :=
| NoMatchesNotice
| SearchResultsSection
| TodaySection
| YesterdaySection
| ArchiveSection.

Definition sections (sidebarSearch : string) (v : view) : list section :=
  (if JSString.truthy sidebarSearch && negb (0 <? length (searchResults v))%nat
   then [NoMatchesNotice] else []) ++
  (if (0 <? length (searchResults v))%nat then [SearchResultsSection]
   else
     (if (0 <? length (historyEntriesToday v))%nat then [TodaySection] else []) ++
     (if (0 <? length (historyEntriesYesterday v))%nat then [YesterdaySection] else []) ++
     (if (0 <? length (historyGroups v))%nat then [ArchiveSection] else [])).

End Sidebar.

(** *** The persisted slot as a mirror of the stored sessions *)

(** A browser whose session storage takes every write. *)
Definition storageWorks (b : Browser.t) : Prop :=
  Browser.hasWindow b = true /\ Browser.storageReachable b = true /\ Browser.quota b = None.

(** The slot holds the text of the stored sessions, and nothing when there
    are none. *)
Definition slotMirrors (sessions : list StoredSession.t) (b : Browser.t) : Prop :=
  Browser.items b !! LOCAL_STORAGE_KEY =
  match sessions with
  | [] => None
  | _ => Some (JSON.stringify (JArr (map StoredSession_json sessions)))
  end.

Section Kept.
Context {P : Platform}.

(** The stored sessions as the sidebar and the selection expect them: no
    session id twice, every [updatedAt] a date, most recently updated
    first. *)
Definition wellKept (sessions : list StoredSession.t) : Prop :=
  NoDup (map StoredSession.sessionId sessions) /\
  Forall validUpdatedAt sessions /\
  StronglySorted (fun x y => updatedTime y <= updatedTime x) sessions.

End Kept.

(** ** The agent of the page ([providers/agui-provider.tsx]) *)

Module AguiProvider.

(** What [new URL(window.location.href)] gives. *)
Record location : Type := mkLocation {
  protocol : string;
  hostname : string;
  port : string;
  origin : string
}.

(** There is no window, or there is one whose address parses or does not
    ([new URL] raises). *)
Inductive window : Type :=
| NoWindow
| Window (current : option location).

(** [base.replace] of [/\/$/] by the empty string: one slash at the end is
    dropped. *)
Fixpoint dropTrailingSlash (s : string) : string :=
  match s with
  | EmptyString => EmptyString
  | String c EmptyString => if (c =? 47)%N then EmptyString else s
  | String c s' => String c (dropTrailingSlash s')
  end.

(** [agentUrl]; [env] is [process.env.NEXT_PUBLIC_AGENT_URL]. *)
Definition agentUrl (env : option string) (w : window) : option string :=
  let envUrl := JSString.trim <$> env in
  if Home.truthy envUrl then envUrl
  else
    match w with
    | NoWindow => None
    | Window None => None
    | Window (Some current) =>
        let isDevPort := JSString.eqb (port current) "3000" in
        let base :=
          if isDevPort
          then protocol current +:+ "//" +:+ hostname current +:+ ":8000"
          else origin current in
        Some (dropTrailingSlash base +:+ "/agui/run-agent")
    end.

(** [agent]: the URL of the [HttpAgent], or [None] for [null]. *)
Definition agent (env : option string) (w : window) : option string :=
  let url := agentUrl env w in
  if negb (Home.truthy url) then None else url.

End AguiProvider.

(** ** The scraper ([scripts/scrapeXd.js]) *)

Module ScrapeXd.

(** [/^https?:\/\//i.test(url)]: a pattern of ASCII letters that ignores
    case matches the letters A to Z as their small forms and no character
    beyond ASCII. *)
Definition hasScheme (url : string) : bool :=
  JSString.prefix "http://" (JSString.ascii_lower url) ||
  JSString.prefix "https://" (JSString.ascii_lower url).

Definition normalizeUrl (url : string) : string :=
  if negb (hasScheme url) then "https://" +:+ url else url.

(** A component of the manifest; its [id] and [path] are strings when
    they are there. *)
Record component : Type := mkComponent {
  id : option string;
  path : option string
}.

Record artboard : Type := mkArtboard {
  components : option (list component)
}.

Record manifest : Type := mkManifest {
  globalResources : option component;
  interactions : option component;
  artboards : option (list artboard);
  resources : option (list component)
}.

(** The [queue] and the [seen] set of the page script. *)
Record pending : Type := mkPending {
  queue : list (string * string);
  seen : gset string
}.

Definition key (entry : string * string) : string := fst entry +:+ "|" +:+ snd entry.

Definition enqueue (componentId componentPath : option string) (q : pending) : pending :=
  match componentId, componentPath with
  | Some i, Some p =>
      if negb (JSString.truthy i) || negb (JSString.truthy p) then q
      else if bool_decide (key (i, p) ∈ seen q) then q
      else mkPending (queue q ++ [(i, p)]) ({[ key (i, p) ]} ∪ seen q)
  | _, _ => q
  end.

Definition enqueueComponent (q : pending) (c : component) : pending :=
  enqueue (id c) (path c) q.

Definition enqueueArtboard (q : pending) (a : artboard) : pending :=
  fold_left enqueueComponent (default [] (components a)) q.

(** The queue the page script has built when it starts to download. *)
Definition collect (m : manifest) : pending :=
  let q := mkPending [] ∅ in
  let q := match globalResources m with Some c => enqueueComponent q c | None => q end in
  let q := match interactions m with Some c => enqueueComponent q c | None => q end in
  let q := fold_left enqueueArtboard (default [] (artboards m)) q in
  fold_left enqueueComponent (default [] (resources m)) q.

(** The components the script looks at, in the order in which it does. *)
Definition mentioned (m : manifest) : list component :=
  match globalResources m with Some c => [c] | None => [] end ++
  match interactions m with Some c => [c] | None => [] end ++
  concat (map (fun a => default [] (components a)) (default [] (artboards m))) ++
  default [] (resources m).

Definition usable (c : component) : bool :=
  match id c, path c with
  | Some i, Some p => JSString.truthy i && JSString.truthy p
  | _, _ => false
  end.

Definition entry (c : component) : string * string :=
  (default EmptyString (id c), default EmptyString (path c)).

End ScrapeXd.

(** ** The examples *)

(** The lower-casing of the platforms of the examples keeps a text that is
    not empty from becoming empty. *)
Lemma ascii_lower_nonempty (s : string) :
  JSString.ascii_lower s = EmptyString -> s = EmptyString.
Proof. by destruct s. Qed.

Module Example.

(** A platform for the examples, whose texts are ASCII and whose numbers
    are written the way the language prints them: the letters A to Z are
    made small, a date is read from the format of [toISOString], the
    local time zone is UTC and the text of a number is kept. *)
Definition platform : Platform :=
  {| toLowerCase := JSString.ascii_lower;
     toLowerCase_ascii := fun s _ => eq_refl;
     toLowerCase_nonempty := ascii_lower_nonempty;
     Date_parse := JSDate.parseISO;
     LocalTZA := fun _ _ => 0;
     numberText := fun text => text |}.


(** A platform that also makes the capital letters of Latin-1 small
    (U+00C0 to U+00DE without the multiplication sign), as
    [toLowerCase] does. *)
Definition latin1_lower_unit (c : N) : N :=
  if ((65 <=? c) && (c <=? 90) || (192 <=? c) && (c <=? 222) && negb (c =? 215))%N
  then (c + 32)%N else c.

Fixpoint latin1_lower (s : string) : string :=
  match s with
  | EmptyString => EmptyString
  | String c s' => String (latin1_lower_unit c) (latin1_lower s')
  end.

Lemma latin1_lower_ascii (s : string) :
  JSString.is_ascii s = true -> latin1_lower s = JSString.ascii_lower s.
Proof.
  induction s as [|c s IH]; [done|].
  cbn [JSString.is_ascii latin1_lower JSString.ascii_lower].
  intros [Hc Hs]%andb_prop. rewrite (IH Hs). f_equal.
  unfold latin1_lower_unit, JSString.ascii_lower_unit.
  apply N.ltb_lt in Hc.
  destruct (65 <=? c)%N, (c <=? 90)%N, (192 <=? c)%N eqn:H192; try done.
  all: apply N.leb_le in H192; lia.
Qed.

Lemma latin1_lower_nonempty (s : string) : latin1_lower s = EmptyString -> s = EmptyString.
Proof. by destruct s. Qed.

Definition latin1 : Platform :=
  {| toLowerCase := latin1_lower;
     toLowerCase_ascii := latin1_lower_ascii;
     toLowerCase_nonempty := latin1_lower_nonempty;
     Date_parse := JSDate.parseISO;
     LocalTZA := fun _ _ => 0;
     numberText := fun text => text |}.

#[local] Existing Instance platform.

Definition session0 : StoredSession.t :=
StoredSession.mk "abc" "Where can I sleep tonight?"
  [StoredMessage.mk "m0" user "Where can I sleep tonight?" None None None None
                    "2024-03-04T09:00:00.000Z"]
  "2024-03-04T09:00:00.000Z" "2024-03-04T09:00:00.000Z".

Definition state0 : Home.state :=
Home.mkState [Home.plainMessage "m0" user "Where can I sleep tonight?" None]
             (Some "abc") [session0] "I need food".

Definition browser0 : Browser.t := Browser.mk true true None ∅ [].

Definition agent_url : string := "http://localhost:8000/agui/run-agent".

(** A successful response that continues the session of the conversation. *)
Definition reply : RunAgentResponsePayload.t :=
  RunAgentResponsePayload.mk
    (Some [AgentUGIResponseMessage.mk (Some (JStr "assistant"))
             (Some (JArr [ContentShape.text_part "The food bank on Main Street is open."]))
             None])
    (Some "abc").

(** The store after the turn: "I need food" is submitted in the
    conversation of session [abc] and [reply] arrives. *)
Definition store_after_turn : list StoredSession.t :=
  match Home.handleSubmit (Some agent_url) "u1" "2024-03-05T12:00:00.000Z" state0 browser0 with
  | (st1, b1, Some p) =>
      Home.storedSessions
        (Home.handleResponse p (Home.Payload reply) "2024-03-05T12:00:02.000Z" st1 b1).1
  | _ => []
  end.

(** Sessions last updated around the boundaries of the buckets, for a
    reader at noon UTC of 5 March 2024 in the UTC time zone. *)
Definition noon : Z := 1709640000000.

Definition updated (id at_ : string) : StoredSession.t :=
  StoredSession.mk id id [] at_ at_.

Definition history : list StoredSession.t :=
  [ updated "midnight today" "2024-03-05T00:00:00.000Z";
    updated "end of yesterday" "2024-03-04T23:59:59.999Z";
    updated "midnight yesterday" "2024-03-04T00:00:00.000Z";
    updated "seven days ago" "2024-02-27T12:00:00.000Z";
    updated "just before" "2024-02-27T11:59:59.999Z";
    updated "no date" "yesterday";
    updated "last year" "2023-12-31T23:59:59.999Z" ].

(** The sessions of [history] whose [updatedAt] is a date. *)
Definition history_dated : list StoredSession.t :=
  [ updated "just before" "2024-02-27T11:59:59.999Z";
    updated "midnight today" "2024-03-05T00:00:00.000Z";
    updated "midnight yesterday" "2024-03-04T00:00:00.000Z";
    updated "end of yesterday" "2024-03-04T23:59:59.999Z" ].

End Example.


(** * Properties *)

(** ** Strings *)

Lemma string_eqb_refl (s : string) : JSString.eqb s s = true.
Proof. induction s as [|c s IH]; simpl; [done|]. by rewrite N.eqb_refl. Qed.

Lemma string_eqb_eq (a b : string) : JSString.eqb a b = true <-> a = b.
Proof.
  split; [|intros ->; apply string_eqb_refl].
  revert b. induction a as [|x a IH]; intros [|y b]; simpl; try done.
  intros [Hx Hab]%andb_true_iff. apply N.eqb_eq in Hx. by rewrite Hx, (IH b Hab).
Qed.

Lemma string_eqb_neq (a b : string) : JSString.eqb a b = false <-> a <> b.
Proof.
  rewrite <- string_eqb_eq. destruct (JSString.eqb a b); split; congruence.
Qed.

Lemma string_eqb_spec (a b : string) : reflect (a = b) (JSString.eqb a b).
Proof.
  destruct (JSString.eqb a b) eqn:H; constructor.
  - by apply string_eqb_eq.
  - by apply string_eqb_neq.
Qed.

Lemma string_eqb_sym (a b : string) : JSString.eqb a b = JSString.eqb b a.
Proof.
  destruct (string_eqb_spec a b) as [->|Hne]; [by rewrite string_eqb_refl|].
  symmetry. apply string_eqb_neq. congruence.
Qed.

Lemma append_assoc (a b c : string) : (a +:+ b) +:+ c = a +:+ (b +:+ c).
Proof. induction a as [|x a IH]; simpl; [done|]. by rewrite IH. Qed.

Lemma append_nil_r (a : string) : a +:+ EmptyString = a.
Proof. induction a as [|x a IH]; simpl; [done|]. by rewrite IH. Qed.

Lemma length_append (a b : string) :
  JSString.length (a +:+ b) = (JSString.length a + JSString.length b)%nat.
Proof. induction a as [|x a IH]; simpl; [done|]. by rewrite IH. Qed.

Lemma append_inj_r (u s t : string) : u +:+ s = u +:+ t -> s = t.
Proof. induction u as [|c u IH]; simpl; [done|]. intros [= H]. by apply IH. Qed.


Lemma append_nonempty_neq (u s : string) :
  s <> EmptyString -> JSString.eqb u (u +:+ s) = false.
Proof.
  intros Hs. induction u as [|c u IH]; simpl.
  - by destruct s.
  - by rewrite N.eqb_refl.
Qed.

(** *** The order of texts *)

Lemma compare_refl (a : string) : JSString.compare a a = Eq.
Proof. induction a as [|x a IH]; simpl; [done|]. by rewrite N.compare_refl. Qed.

Lemma compare_eq (a b : string) : JSString.compare a b = Eq -> a = b.
Proof.
  revert b. induction a as [|x a IH]; intros [|y b]; simpl; try done.
  destruct (x ?= y)%N eqn:Hxy; try done.
  apply N.compare_eq in Hxy as ->. intros H. by rewrite (IH b H).
Qed.

Lemma compare_antisym (a b : string) :
  JSString.compare b a = CompOpp (JSString.compare a b).
Proof.
  revert b. induction a as [|x a IH]; intros [|y b]; simpl; try done.
  rewrite (N.compare_antisym x y). destruct (x ?= y)%N; simpl; [apply IH|done|done].
Qed.

Lemma compare_trans (a b c : string) :
  JSString.compare a b = Lt -> JSString.compare b c = Lt -> JSString.compare a c = Lt.
Proof.
  revert b c. induction a as [|x a IH]; intros [|y b] [|z c]; simpl; try done.
  destruct (x ?= y)%N eqn:Hxy; try done; destruct (y ?= z)%N eqn:Hyz; try done.
  - apply N.compare_eq in Hxy as ->. rewrite Hyz. apply IH.
  - apply N.compare_eq in Hxy as ->. by rewrite Hyz.
  - apply N.compare_eq in Hyz as <-. by rewrite Hxy.
  - intros _ _. rewrite N.compare_lt_iff in Hxy, Hyz.
    assert ((x ?= z)%N = Lt) as -> by (rewrite N.compare_lt_iff; lia). done.
Qed.

Lemma ltb_irrefl (a : string) : JSString.ltb a a = false.
Proof. unfold JSString.ltb. by rewrite compare_refl. Qed.

Lemma ltb_trans (a b c : string) :
  JSString.ltb a b = true -> JSString.ltb b c = true -> JSString.ltb a c = true.
Proof.
  unfold JSString.ltb.
  destruct (JSString.compare a b) eqn:Hab; try done.
  destruct (JSString.compare b c) eqn:Hbc; try done.
  by rewrite (compare_trans a b c Hab Hbc).
Qed.

Lemma ltb_total (a b : string) :
  a <> b -> JSString.ltb a b = true \/ JSString.ltb b a = true.
Proof.
  intros Hne. unfold JSString.ltb. rewrite (compare_antisym a b).
  destruct (JSString.compare a b) eqn:Hab; simpl; auto.
  by apply compare_eq in Hab.
Qed.

Lemma ltb_asym (a b : string) : JSString.ltb a b = true -> JSString.ltb b a = false.
Proof.
  unfold JSString.ltb. rewrite (compare_antisym a b).
  by destruct (JSString.compare a b).
Qed.

(** *** White space *)

Lemma trimStart_blank (s : string) :
  JSString.blank s = true -> JSString.trimStart s = EmptyString.
Proof.
  induction s as [|c s IH]; simpl; [done|].
  intros [Hc Hs]%andb_true_iff. rewrite Hc. by apply IH.
Qed.

Lemma trim_blank (s : string) : JSString.blank s = true -> JSString.trim s = EmptyString.
Proof. intros H. unfold JSString.trim. by rewrite trimStart_blank. Qed.

Lemma trimStart_not_blank (s : string) :
  JSString.blank s = false ->
  exists c r, JSString.trimStart s = String c r /\ JSString.is_space c = false.
Proof.
  induction s as [|c s IH]; simpl; [done|].
  destruct (JSString.is_space c) eqn:Hc; simpl; [exact IH|].
  intros _. by exists c, s.
Qed.

Lemma trimEnd_keeps_head (c : N) (r : string) :
  JSString.is_space c = false -> exists r', JSString.trimEnd (String c r) = String c r'.
Proof.
  intros Hc. simpl. rewrite Hc. destruct (JSString.trimEnd r); eauto.
Qed.

Lemma trim_not_blank (s : string) :
  JSString.blank s = false -> JSString.truthy (JSString.trim s) = true.
Proof.
  intros (c & r & Hs & Hc)%trimStart_not_blank. unfold JSString.trim. rewrite Hs.
  destruct (trimEnd_keeps_head c r Hc) as [r' ->]. done.
Qed.

Lemma trim_empty_iff_blank (s : string) :
  JSString.trim s = EmptyString <-> JSString.blank s = true.
Proof.
  split; [|apply trim_blank].
  intros Htrim. destruct (JSString.blank s) eqn:Hb; [done|].
  apply trim_not_blank in Hb. by rewrite Htrim in Hb.
Qed.

(** *** Decimal digits *)

Lemma digit_char_range (d : Z) :
  0 <= d < 10 -> (48 <= JSString.digit_char d <= 57)%N /\
                 Z.of_N (JSString.digit_char d) = 48 + d.
Proof. intros Hd. unfold JSString.digit_char. lia. Qed.

Lemma digits_fuel_append (fuel : nat) (n : Z) (acc rest : string) :
  JSString.digits_fuel fuel n acc +:+ rest = JSString.digits_fuel fuel n (acc +:+ rest).
Proof.
  revert n acc. induction fuel as [|fuel IH]; intros n acc; simpl; [done|].
  destruct (n <? 10); [done|]. by rewrite IH.
Qed.

Lemma digits_bound (n : Z) : 0 <= n -> n < 10 ^ Z.of_nat (S (Z.to_nat (Z.log2 n))).
Proof.
  intros Hn. destruct (decide (n = 0)) as [->|Hne]; [done|].
  pose proof (Z.log2_nonneg n) as Hlog.
  assert (Hspec : n < 2 ^ Z.succ (Z.log2 n)) by (apply Z.log2_spec; lia).
  rewrite Nat2Z.inj_succ, Z2Nat.id by done.
  eapply Z.lt_le_trans; [exact Hspec|].
  apply Z.pow_le_mono_l. lia.
Qed.

Lemma digit_of_digit_char (d : Z) :
  0 <= d < 10 -> JSDate.digit_of (JSString.digit_char d) = Some d.
Proof.
  intros Hd. unfold JSDate.digit_of.
  destruct (digit_char_range d Hd) as [Hrange Hvalue]. rewrite Hvalue.
  assert (Htest : (48 <=? 48 + d) && (48 + d <=? 57) = true)
    by (apply andb_true_iff; split; apply Z.leb_le; lia).
  rewrite Htest. f_equal. lia.
Qed.

Lemma number_of_digits_fuel (fuel : nat) (n : Z) (acc : string) :
  0 <= n < 10 ^ Z.of_nat fuel ->
  JSDate.number_of (JSString.to_list (JSString.digits_fuel fuel n acc)) 0 =
  JSDate.number_of (JSString.to_list acc) n.
Proof.
  revert n acc. induction fuel as [|fuel IH]; intros n acc Hn.
  - simpl in *. by replace n with 0 by lia.
  - rewrite Nat2Z.inj_succ, Z.pow_succ_r in Hn by lia. simpl.
    destruct (n <? 10) eqn:Hlt.
    + apply Z.ltb_lt in Hlt. rewrite Z.mod_small by lia.
      simpl. rewrite digit_of_digit_char by lia. f_equal.
    + apply Z.ltb_ge in Hlt. rewrite IH.
      * simpl. rewrite digit_of_digit_char by (apply Z.mod_pos_bound; lia).
        f_equal. pose proof (Z.div_mod n 10). lia.
      * split; [apply Z.div_pos; lia|]. apply Z.div_lt_upper_bound; lia.
Qed.

Lemma number_of_digits (n : Z) :
  0 <= n -> JSDate.number_of (JSString.to_list (JSString.digits n)) 0 = Some n.
Proof.
  intros Hn. unfold JSString.digits. rewrite number_of_digits_fuel; [done|].
  split; [done|]. by apply digits_bound.
Qed.

Lemma digits_fuel_head (fuel : nat) (n : Z) (acc : string) :
  0 < n < 10 ^ Z.of_nat fuel ->
  exists c r, JSString.digits_fuel fuel n acc = String c r /\ (49 <= c <= 57)%N.
Proof.
  revert n acc. induction fuel as [|fuel IH]; intros n acc Hn.
  - simpl in Hn. lia.
  - rewrite Nat2Z.inj_succ, Z.pow_succ_r in Hn by lia. simpl.
    destruct (n <? 10) eqn:Hlt.
    + apply Z.ltb_lt in Hlt. rewrite Z.mod_small by lia.
      eexists _, _. split; [done|]. unfold JSString.digit_char. lia.
    + apply Z.ltb_ge in Hlt. apply IH.
      split; [apply Z.div_str_pos; lia|]. apply Z.div_lt_upper_bound; lia.
Qed.

(** The text of a natural number starts with a digit, and with none but
    [0] itself with the digit [0]. *)
Lemma digits_head (n : Z) :
  0 <= n -> exists c r, JSString.digits n = String c r /\ (48 <= c <= 57)%N.
Proof.
  intros Hn. destruct (decide (n = 0)) as [->|Hne]; [by eexists _, _|].
  destruct (digits_fuel_head (S (Z.to_nat (Z.log2 n))) n EmptyString) as (c & r & Hc & Hd).
  { split; [lia|]. by apply digits_bound. }
  exists c, r. split; [done|lia].
Qed.

Lemma digits_inj (a b : Z) :
  0 <= a -> 0 <= b -> JSString.digits a = JSString.digits b -> a = b.
Proof.
  intros Ha Hb Heq. pose proof (number_of_digits a Ha) as Hna.
  rewrite Heq, (number_of_digits b Hb) in Hna. congruence.
Qed.

Lemma of_int_head (n : Z) :
  exists c r, JSString.of_int n = String c r /\
              (if n <? 0 then c = 45%N else (48 <= c <= 57)%N).
Proof.
  unfold JSString.of_int. destruct (n <? 0) eqn:Hneg; [by eexists _, _|].
  apply Z.ltb_ge in Hneg. apply digits_head, Hneg.
Qed.

Lemma of_int_inj (a b : Z) : JSString.of_int a = JSString.of_int b -> a = b.
Proof.
  intros Heq.
  destruct (of_int_head a) as (ca & ra & Ha & Hca).
  destruct (of_int_head b) as (cb & rb & Hb & Hcb).
  assert (Hhead : ca = cb) by congruence.
  unfold JSString.of_int in Heq.
  destruct (Z.ltb_spec a 0) as [Hsa|Hsa], (Z.ltb_spec b 0) as [Hsb|Hsb]; try lia.
  - injection Heq as Heq. apply digits_inj in Heq; lia.
  - by apply digits_inj.
Qed.

(** ** Properties of the loading placeholder *)

Section LoadingProperties.
Context {P : Platform}.

Lemma getLoadingMessage_select (text : string) :
  getLoadingMessage text = LoadingSpec.select text.
Proof.
  unfold getLoadingMessage, LoadingSpec.select, LoadingSpec.groups. simpl List.find.
  unfold LoadingSpec.matches; simpl existsb.
  rewrite !orb_false_r, !orb_assoc.
  repeat match goal with
         | |- context [if ?b then _ else _] => destruct b; [reflexivity|]
         end.
  reflexivity.
Qed.

Lemma matches_lower (a b : string) (g : LoadingSpec.group) :
  toLowerCase a = toLowerCase b -> LoadingSpec.matches a g = LoadingSpec.matches b g.
Proof. intros Hab. unfold LoadingSpec.matches. by rewrite Hab. Qed.

Lemma find_matches_lower (a b : string) :
  toLowerCase a = toLowerCase b ->
  List.find (LoadingSpec.matches a) LoadingSpec.groups =
  List.find (LoadingSpec.matches b) LoadingSpec.groups.
Proof.
  intros Hab. induction LoadingSpec.groups as [|g gs IH]; simpl; [reflexivity|].
  by rewrite (matches_lower a b g Hab), IH.
Qed.

Lemma toLowerCase_food : toLowerCase "I need food" = "i need food".
Proof. by rewrite toLowerCase_ascii. Qed.

Lemma getLoadingMessage_food :
  getLoadingMessage "I need food" = "Finding food resources in your area…".
Proof. unfold getLoadingMessage. rewrite toLowerCase_food. reflexivity. Qed.

(** C9. The placeholder text is a function of the submitted text alone: it
    is the message of the first keyword group, in the fixed priority order
    housing, food, medical, employment, legal, mental health,
    transportation, generic help, near me, one of whose keywords occurs in
    the lower-cased text; without a match it is the generic message at
    index [length text mod 4] of four, the length being that of the text
    as submitted, in UTF-16 code units.  Case is ignored: the group found
    is the same for two texts with the same lower-cased form, so is the
    placeholder when the two are of one length, and in a text of ASCII
    characters the letters A to Z count as their small forms.  "I need
    food" gets a placeholder that contains "food", and that text is the
    content of the placeholder which the submit handler appends. *)
Theorem C9_loading_message_selection :
  (forall text, getLoadingMessage text = LoadingSpec.select text) /\
  map LoadingSpec.topic LoadingSpec.groups =
    ["housing"; "food"; "medical"; "employment"; "legal"; "mental health";
     "transportation"; "generic help"; "near me"] /\
  length LoadingSpec.generic = 4%nat /\
  (forall text g,
      List.find (LoadingSpec.matches text) LoadingSpec.groups = Some g ->
      getLoadingMessage text = LoadingSpec.message g /\
      existsb (JSString.includes (toLowerCase text)) (LoadingSpec.keywords g) = true) /\
  (forall text,
      List.find (LoadingSpec.matches text) LoadingSpec.groups = None ->
      getLoadingMessage text =
        nth (JSString.length text mod 4) LoadingSpec.generic EmptyString /\
      (JSString.length text mod 4 < 4)%nat) /\
  (forall a b,
      toLowerCase a = toLowerCase b ->
      List.find (LoadingSpec.matches a) LoadingSpec.groups =
        List.find (LoadingSpec.matches b) LoadingSpec.groups /\
      (JSString.length a = JSString.length b -> getLoadingMessage a = getLoadingMessage b)) /\
  (forall text g,
      JSString.is_ascii text = true ->
      LoadingSpec.matches text g =
        existsb (JSString.includes (JSString.ascii_lower text)) (LoadingSpec.keywords g)) /\
  getLoadingMessage "I need food" = "Finding food resources in your area…" /\
  JSString.includes (getLoadingMessage "I need food") "food" = true /\
  map ChatMessage.content
      (Home.messages
         (Home.handleSubmit (Some Example.agent_url) "u1" "2024-03-05T12:00:00.000Z"
                            (Home.mkState [] None [] "I need food") Example.browser0).1.1)
    = ["I need food"; "Finding food resources in your area…"].
Proof.
  split; [exact getLoadingMessage_select|].
  split; [reflexivity|]. split; [reflexivity|].
  split.
  { intros text g Hg. rewrite getLoadingMessage_select. unfold LoadingSpec.select.
    rewrite Hg. split; [done|]. by apply find_some in Hg as [_ Hg]. }
  split.
  { intros text Hnone. rewrite getLoadingMessage_select. unfold LoadingSpec.select.
    rewrite Hnone. split; [done|]. apply Nat.mod_upper_bound. done. }
  split.
  { intros a b Hab. split; [by apply find_matches_lower|].
    intros Hlen. rewrite !getLoadingMessage_select. unfold LoadingSpec.select.
    by rewrite (find_matches_lower a b Hab), Hlen. }
  split.
  { intros text g Hascii. unfold LoadingSpec.matches. by rewrite toLowerCase_ascii. }
  split; [exact getLoadingMessage_food|].
  split; [by rewrite getLoadingMessage_food|].
  unfold Home.handleSubmit.
  change (JSString.trim (Home.input (Home.mkState [] None [] "I need food")))
    with "I need food"%js.
  cbn -[getLoadingMessage]. by rewrite getLoadingMessage_food.
Qed.

End LoadingProperties.

Section LoadingExamples.
#[local] Existing Instance Example.platform.

(** On the platform of the examples: two texts that differ in the case of
    their letters, and a text of one character beyond ASCII, whose length
    is one code unit. *)
Lemma C9_loading_message_selection_witness :
  getLoadingMessage "I NEED Food" = getLoadingMessage "i need food" /\
  getLoadingMessage "é" = "Looking up available resources…".
Proof.
  destruct (@C9_loading_message_selection Example.platform)
    as (_ & _ & _ & _ & Hnone & Hcase & _).
  split.
  - apply Hcase; reflexivity.
  - apply (Hnone "é"). reflexivity.
Defined.

End LoadingExamples.

(** ** Properties of the text extraction *)

Lemma join_text_parts (texts : list string) :
  map partText (map ContentShape.text_part texts) = texts.
Proof. induction texts as [|t ts IH]; simpl; [reflexivity|]. by rewrite IH. Qed.

Lemma join_leaves (texts : list string) :
  map childText (map ContentShape.leaf texts) = texts.
Proof. induction texts as [|t ts IH]; simpl; [reflexivity|]. by rewrite IH. Qed.

Lemma partText_unrecognised_scalar (part : json) :
  JS.is_object part = false -> partText part = EmptyString.
Proof. unfold partText. intros ->. reflexivity. Qed.

(** C8 as the specification states it fails: a sequence of two numbers is
    none of the three shapes, and its text is a line feed, not the empty
    string. *)
Lemma C8_other_shape_counterexample :
  ~ (forall content : json,
        ContentShape.recognised content = false -> extractText content = EmptyString).
Proof.
  intros H. specialize (H (JArr [JNum "1"; JNum "2"]) eq_refl).
  vm_compute in H. discriminate H.
Qed.

(** C8, amended.  [extractText] is total (it returns a string on every
    value).  A string is returned as it is; a sequence of
    [{type: "text", text}] parts gives their texts joined by line feeds; a
    node with [children] leaf text nodes gives the concatenation of their
    texts; a value that is neither a string nor a sequence gives the empty
    string.  In a sequence every part is handled on its own and the texts
    of the parts are joined by line feeds: a part with a string [text]
    gives it whatever its [type], and a part of no recognised shape gives
    the empty string, so that a sequence of [n] parts that are not objects
    gives [n - 1] line feeds. *)
Theorem C8_extractText_shapes :
  (forall s, extractText (JStr s) = s) /\
  (forall texts,
      extractText (JArr (map ContentShape.text_part texts)) = JSString.join JS.LF texts) /\
  (forall texts,
      extractText (JArr [ContentShape.children_part texts]) =
      JSString.join EmptyString texts) /\
  (forall content,
      match content with JStr _ | JArr _ => False | _ => True end ->
      extractText content = EmptyString) /\
  (forall parts,
      extractText (JArr parts) = JSString.join JS.LF (map partText parts)) /\
  (forall part,
      JS.is_object part = false -> partText part = EmptyString) /\
  (forall fields,
      JS.assoc "text" fields = None -> JS.assoc "children" fields = None ->
      partText (JObj fields) = EmptyString) /\
  (forall items, partText (JArr items) = EmptyString) /\
  (forall fields text,
      JS.assoc "text" fields = Some (JStr text) -> partText (JObj fields) = text) /\
  (forall parts,
      Forall (fun part => JS.is_object part = false) parts ->
      extractText (JArr parts) = JSString.join JS.LF (map (fun _ => EmptyString) parts)).
Proof.
  split; [intros [|c s]; reflexivity|].
  split; [intros texts; unfold extractText; simpl; by rewrite join_text_parts|].
  split.
  { intros texts. unfold extractText, ContentShape.children_part, partText; simpl.
    by rewrite join_leaves. }
  split.
  { intros [| [] | n | s | l | f] H; try contradiction; try reflexivity.
    unfold extractText; simpl. by destruct (_ || _). }
  split; [reflexivity|].
  split; [exact partText_unrecognised_scalar|].
  split; [intros fields Ht Hc; unfold partText; simpl; by rewrite Ht, Hc|].
  split; [reflexivity|].
  split; [intros fields text Ht; unfold partText; simpl; by rewrite Ht|].
  intros parts Hparts. unfold extractText; simpl. f_equal.
  induction Hparts as [|part parts Hpart _ IH]; simpl; [done|].
  by rewrite (partText_unrecognised_scalar part Hpart), IH.
Qed.

Lemma C8_extractText_shapes_witness :
  extractText (JNum "7") = EmptyString /\
  partText (JBool true) = EmptyString /\
  partText (JObj [("type", JStr "image")]) = EmptyString.
Proof.
  destruct C8_extractText_shapes as (_ & _ & _ & H4 & _ & H6 & H7 & _ & _ & _).
  split; [apply H4; exact I|].
  split; [apply H6; reflexivity|].
  apply H7; reflexivity.
Defined.


(** ** Properties of the calendar *)

Lemma MonthOfDay_range (leap d : Z) : 0 <= JSDate.MonthOfDay leap d <= 11.
Proof.
  unfold JSDate.MonthOfDay.
  repeat match goal with |- context [if ?c then _ else _] => destruct c end; lia.
Qed.

Lemma MonthFromTime_range (t : Z) : 0 <= JSDate.MonthFromTime t <= 11.
Proof. apply MonthOfDay_range. Qed.


(** The year found is the year of the day. *)
Lemma YearFromDay_spec (day : Z) :
  JSDate.DayFromYear (JSDate.YearFromDay day) <= day
  < JSDate.DayFromYear (JSDate.YearFromDay day + 1).
Proof.
  unfold JSDate.YearFromDay, JSDate.DayFromYear.
  repeat match goal with
         | |- context [?a <=? ?b] => destruct (Z.leb_spec a b)
         end;
    Z.div_mod_to_equations; lia.
Qed.

(** A year has 365 days, and one more when it is a leap year. *)
Lemma DayFromYear_next (y : Z) :
  JSDate.DayFromYear (y + 1) = JSDate.DayFromYear y + 365 + JSDate.leap_day y.
Proof.
  unfold JSDate.DayFromYear, JSDate.leap_day, JSDate.is_leap.
  destruct (y mod 4 =? 0) eqn:H4; destruct (y mod 100 =? 0) eqn:H100;
    destruct (y mod 400 =? 0) eqn:H400; simpl;
    rewrite ?Z.eqb_eq, ?Z.eqb_neq in *;
    Z.div_mod_to_equations; lia.
Qed.

Lemma DayWithinYear_range (t : Z) :
  0 <= JSDate.DayWithinYear t < 365 + JSDate.leap_day (JSDate.YearFromTime t).
Proof.
  unfold JSDate.DayWithinYear, JSDate.YearFromTime.
  pose proof (YearFromDay_spec (JSDate.Day t)) as Hspec.
  rewrite DayFromYear_next in Hspec. lia.
Qed.

(** The date of the month lies in the month. *)
Lemma DateFromTime_range (t : Z) : 1 <= JSDate.DateFromTime t <= 31.
Proof.
  pose proof (DayWithinYear_range t) as Hd.
  unfold JSDate.DateFromTime, JSDate.MonthFromTime, JSDate.MonthOfDay, JSDate.MonthStart.
  assert (Hleap : JSDate.leap_day (JSDate.YearFromTime t) = 0 \/
                  JSDate.leap_day (JSDate.YearFromTime t) = 1)
    by (unfold JSDate.leap_day; destruct (JSDate.is_leap _); lia).
  repeat match goal with
         | |- context [?a <? ?b] => destruct (Z.ltb_spec a b)
         end; simpl; lia.
Qed.



Section CalendarFacts.
Context {P : Platform}.







End CalendarFacts.

(** ** Properties of the stable sort *)

Section SortFacts.
Context {A : Type} (compareFn : A -> A -> Z).

Lemma insert_Permutation (x : A) (l : list A) :
  JSArray.insert compareFn x l ≡ₚ x :: l.
Proof.
  induction l as [|y l IH]; simpl; [done|].
  destruct (0 <? compareFn x y); [|done].
  rewrite IH. apply Permutation_swap.
Qed.

Lemma sort_Permutation (l : list A) : JSArray.sort compareFn l ≡ₚ l.
Proof.
  induction l as [|x l IH]; simpl; [done|].
  unfold JSArray.sort in IH. by rewrite insert_Permutation, IH.
Qed.

(** The comparator is the difference of a key on the elements of
    interest, larger keys first. *)
Context (key : A -> Z) (P : A -> Prop).
Hypothesis compare_key : forall x y, P x -> P y -> compareFn x y = key y - key x.

Lemma insert_descending (x : A) (l : list A) :
  P x -> Forall P l ->
  StronglySorted (fun a b => key b <= key a) l ->
  StronglySorted (fun a b => key b <= key a) (JSArray.insert compareFn x l).
Proof.
  intros Hx Hl Hs. induction Hs as [|y l Hs IH Hy]; simpl.
  - repeat constructor.
  - inversion Hl as [|? ? Py Pl]; subst.
    rewrite (compare_key x y Hx Py).
    destruct (0 <? key y - key x) eqn:Hc.
    + apply Z.ltb_lt in Hc. constructor; [by apply IH|].
      rewrite insert_Permutation. constructor; [lia|done].
    + apply Z.ltb_ge in Hc. constructor; [by constructor|].
      constructor; [lia|].
      eapply Forall_impl; [exact Hy|]. simpl. intros; lia.
Qed.

Lemma sort_descending (l : list A) :
  Forall P l -> StronglySorted (fun a b => key b <= key a) (JSArray.sort compareFn l).
Proof.
  induction 1 as [|x l Hx Hl IH]; simpl; [constructor|].
  apply insert_descending; [done| |done].
  fold (JSArray.sort compareFn l). by rewrite sort_Permutation.
Qed.

(** Stability: among the elements of one key the order of the input is
    kept. *)
Lemma insert_stable (k : Z) (x : A) (l : list A) :
  P x -> Forall P l ->
  filter (fun a => key a = k) (JSArray.insert compareFn x l) =
  filter (fun a => key a = k) (x :: l).
Proof.
  intros Hx Hl. induction Hl as [|y l Py Pl IH]; simpl; [done|].
  rewrite (compare_key x y Hx Py).
  destruct (0 <? key y - key x) eqn:Hc; [|done].
  apply Z.ltb_lt in Hc.
  rewrite !filter_cons, IH, !filter_cons.
  repeat case_decide; try done; lia.
Qed.

Lemma sort_stable (k : Z) (l : list A) :
  Forall P l ->
  filter (fun a => key a = k) (JSArray.sort compareFn l) = filter (fun a => key a = k) l.
Proof.
  induction 1 as [|x l Hx Hl IH]; simpl; [done|].
  rewrite insert_stable; [|done|].
  - rewrite !filter_cons. fold (JSArray.sort compareFn l). by rewrite IH.
  - fold (JSArray.sort compareFn l). by rewrite sort_Permutation.
Qed.
End SortFacts.

(** ** Properties of [upsertSession] *)

Lemma findIndex_None {A} (p : A -> bool) (l : list A) :
  JSArray.findIndex p l = None <-> Forall (fun x => p x = false) l.
Proof.
  induction l as [|x l IH]; simpl.
  - split; [constructor|done].
  - destruct (p x) eqn:Hp.
    + split; [done|]. inversion 1; congruence.
    + destruct (JSArray.findIndex p l); simpl.
      * split; [done|]. inversion 1; subst. by apply IH in H3.
      * split; [|done]. intros _. constructor; [done|]. by apply IH.
Qed.

Lemma findIndex_Some {A} (p : A -> bool) (l : list A) (i : nat) :
  JSArray.findIndex p l = Some i ->
  exists x, l !! i = Some x /\ p x = true /\ Forall (fun y => p y = false) (take i l).
Proof.
  revert i. induction l as [|x l IH]; simpl; intros i; [done|].
  destruct (p x) eqn:Hp.
  - intros [= <-]. exists x. by repeat split.
  - destruct (JSArray.findIndex p l) as [j|]; simpl; [|done].
    intros [= <-]. destruct (IH j eq_refl) as (y & Hy & Hpy & Hbefore).
    exists y. repeat split; [done..|]. simpl. by constructor.
Qed.

Lemma upsertSession_ids (sessions : list StoredSession.t) (session : StoredSession.t) :
  map StoredSession.sessionId (upsertSession sessions session) =
  if decide (StoredSession.sessionId session ∈ map StoredSession.sessionId sessions)
  then map StoredSession.sessionId sessions
  else map StoredSession.sessionId sessions ++ [StoredSession.sessionId session].
Proof.
  unfold upsertSession.
  destruct (JSArray.findIndex _ sessions) as [i|] eqn:Hi.
  - apply findIndex_Some in Hi as (x & Hx & Heq & _).
    apply string_eqb_eq in Heq.
    rewrite decide_True.
    + rewrite list_fmap_insert. apply list_insert_id.
      rewrite list_lookup_fmap, Hx. simpl. by rewrite Heq.
    + rewrite <- Heq. apply list_elem_of_fmap. exists x. split; [done|].
      by eapply list_elem_of_lookup_2.
  - apply findIndex_None in Hi. rewrite decide_False.
    + by rewrite map_app.
    + intros Hin. apply list_elem_of_fmap in Hin as (y & Hy & Hin).
      rewrite Forall_forall in Hi. specialize (Hi y Hin).
      apply string_eqb_neq in Hi. congruence.
Qed.

Lemma upsertSession_elem (sessions : list StoredSession.t) (session : StoredSession.t) :
  session ∈ upsertSession sessions session.
Proof.
  unfold upsertSession.
  destruct (JSArray.findIndex _ sessions) as [i|] eqn:Hi.
  - apply findIndex_Some in Hi as (x & Hx & _).
    eapply list_elem_of_lookup_2. apply list_lookup_insert_eq.
    by eapply lookup_lt_Some.
  - apply elem_of_app. right. by apply list_elem_of_singleton.
Qed.

Section RecencyFacts.
Context {P : Platform}.

Lemma byUpdatedDescending_valid (a b : StoredSession.t) :
  validUpdatedAt a -> validUpdatedAt b ->
  byUpdatedDescending a b = updatedTime b - updatedTime a.
Proof.
  unfold validUpdatedAt, byUpdatedDescending, updatedTime, JSDate.getTime.
  intros [x ->] [y ->]. reflexivity.
Qed.

Lemma upsertSession_valid (sessions : list StoredSession.t) (session : StoredSession.t) :
  Forall validUpdatedAt (session :: sessions) ->
  Forall validUpdatedAt (upsertSession sessions session).
Proof.
  inversion 1 as [|? ? Hs Hl]; subst. unfold upsertSession.
  destruct (JSArray.findIndex _ sessions) as [i|].
  - by apply Forall_insert.
  - apply Forall_app. split; [done|]. by constructor.
Qed.

(** C3, amended.  For every sequence of sessions whose [sessionId]s are
    pairwise distinct, and every session, [upsertSession] followed by
    [sortSessionsByUpdated] yields a sequence with exactly one entry per
    distinct [sessionId] (the ids of the input and the id of the upserted
    session, whose entry is the upserted session; the result is a
    rearrangement of the upserted sequence).  When the [updatedAt] of the
    sessions are dates, the result is ordered by [updatedAt] descending,
    with ties kept in the order they have after the upsert (the sort is
    stable). *)
Theorem C3_upsert_then_sort (sessions : list StoredSession.t) (session : StoredSession.t) :
  NoDup (map StoredSession.sessionId sessions) ->
  let result := sortSessionsByUpdated (upsertSession sessions session) in
  NoDup (map StoredSession.sessionId result) /\
  (forall id, id ∈ map StoredSession.sessionId result <->
              id = StoredSession.sessionId session \/
              id ∈ map StoredSession.sessionId sessions) /\
  session ∈ result /\
  result ≡ₚ upsertSession sessions session /\
  (Forall validUpdatedAt (session :: sessions) ->
   StronglySorted (fun a b => updatedTime b <= updatedTime a) result /\
   (forall t, filter (fun s => updatedTime s = t) result =
              filter (fun s => updatedTime s = t) (upsertSession sessions session))).
Proof.
  intros Hnd result.
  assert (Hperm : result ≡ₚ upsertSession sessions session)
    by apply sort_Permutation.
  assert (Hids : map StoredSession.sessionId result ≡ₚ
                 map StoredSession.sessionId (upsertSession sessions session))
    by (by rewrite Hperm).
  pose proof (upsertSession_ids sessions session) as Hup.
  split; [|split; [|split; [|split; [done|]]]].
  - rewrite Hids, Hup. case_decide; [done|].
    apply NoDup_app. split; [done|]. split; [|apply NoDup_singleton].
    intros x Hx Hx'. apply list_elem_of_singleton in Hx'. by subst.
  - intros id. rewrite Hids, Hup. case_decide.
    + split; [by right|]. intros [->|]; done.
    + rewrite elem_of_app, list_elem_of_singleton. tauto.
  - rewrite Hperm. apply upsertSession_elem.
  - intros Hvalid. split.
    + apply (sort_descending _ updatedTime validUpdatedAt byUpdatedDescending_valid).
      by apply upsertSession_valid.
    + intros t.
      apply (sort_stable _ updatedTime validUpdatedAt byUpdatedDescending_valid).
      by apply upsertSession_valid.
Qed.

End RecencyFacts.

Section RecencyExamples.
#[local] Existing Instance Example.platform.

(** C3 as the specification states it fails: with two entries of one
    [sessionId] in the input, [upsertSession] replaces the first and keeps
    the second, so the sorted result holds that [sessionId] twice. *)
Lemma C3_duplicate_ids_counterexample :
  ~ (forall (sessions : list StoredSession.t) (session : StoredSession.t),
        NoDup (map StoredSession.sessionId
                   (sortSessionsByUpdated (upsertSession sessions session)))).
Proof.
  intros H.
  pose (s := fun title at_ =>
               StoredSession.mk "abc" title [] "2024-03-01T10:00:00.000Z" at_).
  specialize (H [s "first" "2024-03-01T10:00:00.000Z"; s "second" "2024-03-02T10:00:00.000Z"]
                (s "third" "2024-03-03T10:00:00.000Z")).
  vm_compute in H. apply NoDup_cons_1_1 in H. apply H. by left.
Qed.

Lemma C3_upsert_then_sort_witness :
  let older := StoredSession.mk "a" "older" [] "2024-03-01T10:00:00.000Z" "2024-03-01T10:00:00.000Z" in
  let newer := StoredSession.mk "b" "newer" [] "2024-03-02T10:00:00.000Z" "2024-03-02T10:00:00.000Z" in
  let again := StoredSession.mk "a" "again" [] "2024-03-01T10:00:00.000Z" "2024-03-02T10:00:00.000Z" in
  sortSessionsByUpdated (upsertSession [older; newer] again) = [again; newer] /\
  NoDup (map StoredSession.sessionId (sortSessionsByUpdated (upsertSession [older; newer] again))) /\
  StronglySorted (fun a b => updatedTime b <= updatedTime a)
                 (sortSessionsByUpdated (upsertSession [older; newer] again)).
Proof.
  intros older newer again. split; [reflexivity|].
  destruct (@C3_upsert_then_sort Example.platform [older; newer] again)
    as (Hnd & _ & _ & _ & Hsorted).
  - apply (bool_decide_unpack _). vm_compute. reflexivity.
  - split; [exact Hnd|]. apply Hsorted. repeat constructor; by eexists.
Defined.

End RecencyExamples.

(** ** Properties of the bucketing *)

Section BucketFacts.
Context {P : Platform}.

#[local] Arguments push_monthly : simpl never.

(** Moves an element from inside a concatenation to its end. *)
Ltac perm_tail :=
  rewrite <- ?app_assoc; repeat apply Permutation_app_head;
  first [ reflexivity
        | etrans; [apply Permutation_app_comm|]; rewrite <- ?app_assoc; reflexivity ].

Lemma push_monthly_insert (k : string) (s : StoredSession.t)
    (m : gmap string (list StoredSession.t)) :
  push_monthly k s m = <[k := default [] (m !! k) ++ [s]]> m.
Proof.
  unfold push_monthly. destruct (m !! k) as [l|] eqn:Hk.
  - by rewrite Hk.
  - by rewrite lookup_insert_eq, insert_insert_eq.
Qed.

Lemma push_monthly_lookup (k k' : string) (s : StoredSession.t)
    (m : gmap string (list StoredSession.t)) :
  default [] (push_monthly k s m !! k') =
  default [] (m !! k') ++ (if decide (k = k') then [s] else []).
Proof.
  rewrite push_monthly_insert. case_decide as Hk.
  - subst. by rewrite lookup_insert_eq.
  - rewrite lookup_insert_ne by done. by rewrite app_nil_r.
Qed.

Lemma push_monthly_members (k : string) (s : StoredSession.t)
    (m : gmap string (list StoredSession.t)) :
  concat (map snd (map_to_list (push_monthly k s m))) ≡ₚ
  concat (map snd (map_to_list m)) ++ [s].
Proof.
  rewrite push_monthly_insert.
  rewrite <- (insert_delete_eq m).
  rewrite map_to_list_insert by apply lookup_delete_eq.
  destruct (m !! k) as [l|] eqn:Hk; simpl.
  - rewrite <- (map_to_list_delete m k l Hk). simpl.
    rewrite <- !app_assoc. apply Permutation_app_head, Permutation_app_comm.
  - rewrite delete_id by done. apply Permutation_cons_append.
Qed.

Lemma push_monthly_nonempty (k key : string) (s : StoredSession.t)
    (m : gmap string (list StoredSession.t)) :
  m !! key ≠ Some [] -> push_monthly k s m !! key ≠ Some [].
Proof.
  intros Hm. rewrite push_monthly_insert.
  destruct (decide (k = key)) as [->|Hne].
  - rewrite lookup_insert_eq. intros [= H]. by apply app_nil in H as [_ ?].
  - by rewrite lookup_insert_ne.
Qed.

(** One round of the loop puts the session into the bucket of the first
    rule that holds, at the end of that bucket, and into no other. *)
Lemma bucketSession_members (now : Z) (acc : SessionHistoryBuckets.t)
    (s : StoredSession.t) (b : Bucket) :
  let now_ : JSDate.t := Some now in
  let yesterday := JSDate.setDate now_ ((fun d => d - 1) <$> JSDate.getDate now_) in
  let sevenDaysAgo := JSDate.setDate now_ ((fun d => d - 7) <$> JSDate.getDate now_) in
  members (bucketSession now_ yesterday sevenDaysAgo acc s) b =
  members acc b ++ (if decide (bucketOf now s = b) then [s] else []).
Proof.
  intros now_ yesterday sevenDaysAgo.
  unfold bucketSession, bucketOf. fold now_ yesterday sevenDaysAgo.
  destruct acc as [t y l7 m].
  destruct (isSameDay _ now_);
    [|destruct (isSameDay _ yesterday); [|destruct (JSDate.ge _ sevenDaysAgo)]];
    destruct b as [| | |key]; simpl;
    try reflexivity; try (by rewrite app_nil_r).
  rewrite push_monthly_lookup.
  repeat case_decide; congruence.
Qed.

Lemma bucketSession_allMembers (now yesterday sevenDaysAgo : JSDate.t)
    (acc : SessionHistoryBuckets.t) (s : StoredSession.t) :
  allMembers (bucketSession now yesterday sevenDaysAgo acc s) ≡ₚ
  allMembers acc ++ [s].
Proof.
  unfold bucketSession, allMembers. destruct acc as [t y l7 m].
  destruct (isSameDay _ now);
    [|destruct (isSameDay _ yesterday); [|destruct (JSDate.ge _ sevenDaysAgo)]];
    simpl.
  - perm_tail.
  - perm_tail.
  - perm_tail.
  - rewrite push_monthly_members. perm_tail.
Qed.

Lemma bucketSession_monthly_nonempty (now yesterday sevenDaysAgo : JSDate.t)
    (acc : SessionHistoryBuckets.t) (s : StoredSession.t) (key : string) :
  SessionHistoryBuckets.monthly acc !! key ≠ Some [] ->
  SessionHistoryBuckets.monthly
    (bucketSession now yesterday sevenDaysAgo acc s) !! key ≠ Some [].
Proof.
  unfold bucketSession. destruct acc as [t y l7 m]; simpl.
  destruct (isSameDay _ now);
    [|destruct (isSameDay _ yesterday); [|destruct (JSDate.ge _ sevenDaysAgo)]];
    simpl; try done.
  apply push_monthly_nonempty.
Qed.

Lemma fold_bucketSession (now : Z) (sessions : list StoredSession.t)
    (acc : SessionHistoryBuckets.t) :
  let now_ : JSDate.t := Some now in
  let yesterday := JSDate.setDate now_ ((fun d => d - 1) <$> JSDate.getDate now_) in
  let sevenDaysAgo := JSDate.setDate now_ ((fun d => d - 7) <$> JSDate.getDate now_) in
  let result := fold_left (bucketSession now_ yesterday sevenDaysAgo) sessions acc in
  (forall b, members result b =
             members acc b ++ filter (fun s => bucketOf now s = b) sessions) /\
  allMembers result ≡ₚ allMembers acc ++ sessions /\
  (forall key, SessionHistoryBuckets.monthly acc !! key ≠ Some [] ->
               SessionHistoryBuckets.monthly result !! key ≠ Some []).
Proof.
  intros now_ yesterday sevenDaysAgo. revert acc.
  induction sessions as [|s sessions IH]; intros acc; simpl.
  - split; [|split]; [| |done].
    + intros b. by rewrite app_nil_r.
    + by rewrite app_nil_r.
  - destruct (IH (bucketSession now_ yesterday sevenDaysAgo acc s))
      as (Hm & Hp & Hn).
    split; [|split].
    + intros b. rewrite Hm. subst now_ yesterday sevenDaysAgo.
      rewrite bucketSession_members, filter_cons, <- app_assoc.
      by case_decide.
    + rewrite Hp, bucketSession_allMembers, <- app_assoc. done.
    + intros key Hkey. by apply Hn, bucketSession_monthly_nonempty.
Qed.

End BucketFacts.

Section BucketExamples.


End BucketExamples.

(** ** [JSON.parse] inverts [JSON.stringify] *)

(** Induction on JSON values, with the hypothesis for the items of an
    array and for the values of the properties of an object. *)
Lemma json_induction (Q : json -> Prop) :
  Q JNull -> (forall b, Q (JBool b)) -> (forall n, Q (JNum n)) -> (forall s, Q (JStr s)) ->
  (forall items, Forall Q items -> Q (JArr items)) ->
  (forall fields, Forall (fun kv => Q (snd kv)) fields -> Q (JObj fields)) ->
  forall v, Q v.
Proof.
  intros Hnull Hbool Hnum Hstr Harr Hobj.
  fix IH 1. intros [| b | n | s | items | fields].
  - exact Hnull.
  - apply Hbool.
  - apply Hnum.
  - apply Hstr.
  - apply Harr. induction items as [|x items IHitems]; constructor; [apply IH|exact IHitems].
  - apply Hobj. induction fields as [|kv fields IHfields]; constructor;
      [apply IH|exact IHfields].
Qed.

(** Decides the comparisons of code units in the goal. *)
Ltac units :=
  repeat match goal with
         | |- context [(?a =? ?b)%N] => destruct (N.eqb_spec a b); try lia
         | |- context [(?a <=? ?b)%N] => destruct (N.leb_spec a b); try lia
         | |- context [(?a <? ?b)%N] => destruct (N.ltb_spec a b); try lia
         end.

Section Scanner.

#[local] Open Scope N_scope.

Lemma delimited_halts (rest : string) : JSON.delimited rest -> JSON.halts rest.
Proof.
  destruct rest as [|c r]; simpl; [done|].
  unfold JSON.is_digit. intros [-> | [-> | ->]]; repeat split; done.
Qed.

Lemma delimited_skip_ws (rest : string) : JSON.delimited rest -> JSON.skip_ws rest = rest.
Proof.
  destruct rest as [|c r]; simpl; [done|].
  intros [-> | [-> | ->]]; reflexivity.
Qed.

(** *** Numbers *)

Lemma span_digits_text (s : string) :
  s = (JSON.span_digits s).1 +:+ (JSON.span_digits s).2.
Proof.
  induction s as [|c s IH]; simpl; [done|].
  destruct (JSON.is_digit c); simpl; [|done]. by rewrite <- IH.
Qed.

Lemma span_digits_append (s rest : string) :
  JSON.halts rest ->
  JSON.span_digits (s +:+ rest) =
  ((JSON.span_digits s).1, (JSON.span_digits s).2 +:+ rest).
Proof.
  intros Hrest. induction s as [|c s IH]; simpl.
  - destruct rest as [|d r]; simpl; [done|]. destruct Hrest as [-> _]. done.
  - destruct (JSON.is_digit c); simpl; [|done]. by rewrite IH.
Qed.

Lemma scan_digits_text (s tok r : string) :
  JSON.scan_digits s = Some (tok, r) -> s = tok +:+ r /\ tok <> EmptyString.
Proof.
  unfold JSON.scan_digits. pose proof (span_digits_text s) as Hs.
  destruct (JSON.span_digits s) as [[|c ds] r']; [done|].
  intros [= <- <-]. done.
Qed.

Lemma scan_digits_append (s rest tok r : string) :
  JSON.halts rest -> JSON.scan_digits s = Some (tok, r) ->
  JSON.scan_digits (s +:+ rest) = Some (tok, r +:+ rest).
Proof.
  intros Hrest. unfold JSON.scan_digits. rewrite (span_digits_append s rest Hrest).
  destruct (JSON.span_digits s) as [[|c ds] r']; [done|].
  by intros [= <- <-].
Qed.

Lemma scan_int_text (s tok r : string) :
  JSON.scan_int s = Some (tok, r) -> s = tok +:+ r /\ tok <> EmptyString.
Proof.
  destruct s as [|c s]; [done|]. unfold JSON.scan_int.
  destruct (N.eqb_spec c 48) as [->|_]; [by intros [= <- <-]|].
  apply scan_digits_text.
Qed.

Lemma scan_int_append (s rest tok r : string) :
  JSON.halts rest -> JSON.scan_int s = Some (tok, r) ->
  JSON.scan_int (s +:+ rest) = Some (tok, r +:+ rest).
Proof.
  intros Hrest. destruct s as [|c s]; [done|]. unfold JSON.scan_int.
  cbn [JSString.append]. destruct (c =? 48); [by intros [= <- <-]|].
  apply (scan_digits_append (String c s) rest tok r Hrest).
Qed.

Lemma scan_frac_text (s tok r : string) :
  JSON.scan_frac s = Some (tok, r) -> s = tok +:+ r.
Proof.
  destruct s as [|c s]; [by intros [= <- <-]|]. unfold JSON.scan_frac.
  destruct (c =? 46); [|by intros [= <- <-]].
  destruct (JSON.scan_digits s) as [[ds r']|] eqn:Hd; [|done].
  intros [= <- <-]. apply scan_digits_text in Hd as [-> _]. done.
Qed.

Lemma scan_frac_append (s rest tok r : string) :
  JSON.halts rest -> JSON.scan_frac s = Some (tok, r) ->
  JSON.scan_frac (s +:+ rest) = Some (tok, r +:+ rest).
Proof.
  intros Hrest. destruct s as [|c s].
  - intros [= <- <-]. simpl. destruct rest as [|d rest]; [done|]. simpl.
    destruct Hrest as (_ & _ & _ & Hd & _). by destruct (N.eqb_spec d 46).
  - unfold JSON.scan_frac. cbn [JSString.append].
    destruct (c =? 46); [|by intros [= <- <-]].
    destruct (JSON.scan_digits s) as [[ds r']|] eqn:Hd; [|done].
    intros [= <- <-]. by rewrite (scan_digits_append s rest ds r' Hrest Hd).
Qed.

Lemma scan_sign_text (s : string) : s = (JSON.scan_sign s).1 +:+ (JSON.scan_sign s).2.
Proof. destruct s as [|c s]; [done|]. simpl. by destruct (_ || _). Qed.

Lemma scan_sign_append (s rest : string) :
  JSON.halts rest ->
  JSON.scan_sign (s +:+ rest) = ((JSON.scan_sign s).1, (JSON.scan_sign s).2 +:+ rest).
Proof.
  intros Hrest. destruct s as [|c s].
  - destruct rest as [|d rest]; [done|]. simpl.
    destruct Hrest as (_ & H43 & H45 & _).
    by destruct (N.eqb_spec d 43), (N.eqb_spec d 45).
  - simpl. by destruct (_ || _).
Qed.

Lemma scan_exp_text (s tok r : string) :
  JSON.scan_exp s = Some (tok, r) -> s = tok +:+ r.
Proof.
  destruct s as [|c s]; [by intros [= <- <-]|]. unfold JSON.scan_exp.
  destruct (_ || _); [|by intros [= <- <-]].
  destruct (JSON.scan_digits _) as [[ds r']|] eqn:Hd; [|done].
  intros [= <- <-]. apply scan_digits_text in Hd as [Hd _].
  cbn [JSString.append]. rewrite append_assoc, <- Hd. f_equal. apply scan_sign_text.
Qed.

Lemma scan_exp_append (s rest tok r : string) :
  JSON.halts rest -> JSON.scan_exp s = Some (tok, r) ->
  JSON.scan_exp (s +:+ rest) = Some (tok, r +:+ rest).
Proof.
  intros Hrest. destruct s as [|c s].
  - intros [= <- <-]. simpl. destruct rest as [|d rest]; [done|]. simpl.
    destruct Hrest as (_ & _ & _ & _ & H69 & H101).
    by destruct (N.eqb_spec d 101), (N.eqb_spec d 69).
  - unfold JSON.scan_exp. cbn [JSString.append].
    destruct (_ || _); [|by intros [= <- <-]].
    rewrite (scan_sign_append s rest Hrest). cbn [fst snd].
    destruct (JSON.scan_digits (JSON.scan_sign s).2) as [[ds r']|] eqn:Hd; [|done].
    intros [= <- <-]. by rewrite (scan_digits_append _ rest ds r' Hrest Hd).
Qed.

Lemma scan_minus_text (s : string) : s = (JSON.scan_minus s).1 +:+ (JSON.scan_minus s).2.
Proof. destruct s as [|c s]; [done|]. simpl. by destruct (c =? 45). Qed.

Lemma scan_minus_append (s rest : string) :
  (JSON.scan_minus s).2 <> EmptyString ->
  JSON.scan_minus (s +:+ rest) = ((JSON.scan_minus s).1, (JSON.scan_minus s).2 +:+ rest).
Proof.
  destruct s as [|c s]; [done|]. simpl. by destruct (c =? 45).
Qed.

Lemma scan_number_text (s tok r : string) :
  JSON.scan_number s = Some (tok, r) -> s = tok +:+ r.
Proof.
  unfold JSON.scan_number. pose proof (scan_minus_text s) as Hs.
  destruct (JSON.scan_int _) as [[i s1]|] eqn:Hi; [|done].
  destruct (JSON.scan_frac s1) as [[f s2]|] eqn:Hf; [|done].
  destruct (JSON.scan_exp s2) as [[e s3]|] eqn:He; [|done].
  intros [= <- <-].
  apply scan_int_text in Hi as [Hi _]. apply scan_frac_text in Hf. apply scan_exp_text in He.
  rewrite Hs at 1. rewrite Hi, Hf, He. by rewrite !append_assoc.
Qed.

Lemma scan_number_append (s rest tok r : string) :
  JSON.halts rest -> JSON.scan_number s = Some (tok, r) ->
  JSON.scan_number (s +:+ rest) = Some (tok, r +:+ rest).
Proof.
  intros Hrest. unfold JSON.scan_number.
  destruct (JSON.scan_int (JSON.scan_minus s).2) as [[i s1]|] eqn:Hi; [|done].
  destruct (JSON.scan_frac s1) as [[f s2]|] eqn:Hf; [|done].
  destruct (JSON.scan_exp s2) as [[e s3]|] eqn:He; [|done].
  intros [= <- <-].
  rewrite scan_minus_append by (intros Hnil; by rewrite Hnil in Hi). cbn [fst snd].
  rewrite (scan_int_append _ rest i s1 Hrest Hi).
  rewrite (scan_frac_append _ rest f s2 Hrest Hf).
  by rewrite (scan_exp_append _ rest e s3 Hrest He).
Qed.

(** The text of a number is read as a whole, whatever delimiter follows. *)
Lemma scan_number_whole (text rest : string) :
  JSON.is_number text = true -> JSON.delimited rest ->
  JSON.scan_number (text +:+ rest) = Some (text, rest).
Proof.
  unfold JSON.is_number. intros Hnum Hrest.
  destruct (JSON.scan_number text) as [[tok [|c r]]|] eqn:Hs; try done.
  pose proof (scan_number_text _ _ _ Hs) as Htext. rewrite append_nil_r in Htext. subst tok.
  by rewrite (scan_number_append text rest text EmptyString (delimited_halts rest Hrest) Hs).
Qed.

Lemma scan_digits_head (s tok r : string) :
  JSON.scan_digits s = Some (tok, r) ->
  exists c s', s = String c s' /\ JSON.is_digit c = true.
Proof.
  unfold JSON.scan_digits. destruct s as [|c s]; [done|]. simpl.
  destruct (JSON.is_digit c) eqn:Hc; [|done]. intros _. by exists c, s.
Qed.

(** The text of a number starts with a digit or with the minus sign. *)
Lemma is_number_head (text : string) :
  JSON.is_number text = true ->
  exists c r, text = String c r /\ (JSON.is_digit c = true \/ c = 45).
Proof.
  unfold JSON.is_number, JSON.scan_number. destruct text as [|c r]; [done|].
  intros Hnum. exists c, r. split; [done|].
  destruct (N.eqb_spec c 45) as [->|Hc]; [by right|]. left.
  simpl in Hnum. apply N.eqb_neq in Hc. rewrite Hc in Hnum. simpl in Hnum.
  destruct (N.eqb_spec c 48) as [->|_]; [done|].
  destruct (JSON.scan_digits (String c r)) as [[tok r']|] eqn:Hd; [|done].
  apply scan_digits_head in Hd as (c' & s' & [= <- <-] & Hc'). done.
Qed.

Lemma number_text (text : string) : JSON.is_number text = true -> JSON.number text = text.
Proof.
  intros Hnum. unfold JSON.number.
  destruct (string_eqb_spec text "NaN") as [->|_]; [done|].
  destruct (string_eqb_spec text "Infinity") as [->|_]; [done|].
  destruct (string_eqb_spec text "-Infinity") as [->|_]; done.
Qed.

(** *** Strings *)

Lemma hex_value_digit (x : N) : x < 16 -> JSON.hex_value (JSON.hex_digit x) = Some x.
Proof.
  intros Hx. unfold JSON.hex_value, JSON.hex_digit.
  destruct (N.ltb_spec x 10); units; simpl; f_equal; lia.
Qed.

Lemma hex_digits_value (c : N) :
  ((c / 4096 * 16 + (c / 256) mod 16) * 16 + (c / 16) mod 16) * 16 + c mod 16 = c.
Proof.
  replace 4096 with (16 * 16 * 16) by reflexivity.
  replace 256 with (16 * 16) by reflexivity.
  rewrite <- !N.Div0.div_div.
  pose proof (N.div_mod' c 16). pose proof (N.div_mod' (c / 16) 16).
  pose proof (N.div_mod' (c / 16 / 16) 16).
  lia.
Qed.

Lemma parse_chars_unicode_escape (c : N) (tail : string) :
  c < 65536 ->
  JSON.parse_chars (JSON.unicode_escape c +:+ tail) = JSON.prepend c (JSON.parse_chars tail).
Proof.
  intros Hc. unfold JSON.unicode_escape.
  change (JSON.parse_chars
            (String 92 (String 117
               (String (JSON.hex_digit (c / 4096))
                  (String (JSON.hex_digit ((c / 256) mod 16))
                     (String (JSON.hex_digit ((c / 16) mod 16))
                        (String (JSON.hex_digit (c mod 16)) tail))))))
          = JSON.prepend c (JSON.parse_chars tail)).
  cbn [JSON.parse_chars]. cbn [N.eqb Pos.eqb].
  rewrite !hex_value_digit.
  - by rewrite hex_digits_value.
  - apply N.mod_lt. done.
  - apply N.mod_lt. done.
  - apply N.mod_lt. done.
  - apply N.Div0.div_lt_upper_bound. lia.
Qed.

End Scanner.

Section Literals.

#[local] Open Scope N_scope.

Lemma is_high_range (c : N) : JSON.is_high c = true <-> 55296 <= c <= 56319.
Proof. unfold JSON.is_high. rewrite andb_true_iff, !N.leb_le. done. Qed.

Lemma is_low_range (c : N) : JSON.is_low c = true <-> 56320 <= c <= 57343.
Proof. unfold JSON.is_low. rewrite andb_true_iff, !N.leb_le. done. Qed.

Lemma parse_chars_literal (c : N) (tail : string) :
  c <> 34 -> c <> 92 -> 32 <= c ->
  JSON.parse_chars (String c tail) = JSON.prepend c (JSON.parse_chars tail).
Proof. intros H34 H92 H32. cbn [JSON.parse_chars]. by units. Qed.

Lemma parse_chars_escape_unit (c : N) (tail : string) :
  JSON.parse_chars (JSON.escape_unit c +:+ tail) = JSON.prepend c (JSON.parse_chars tail).
Proof.
  unfold JSON.escape_unit.
  destruct (N.eqb_spec c 34) as [->|H34]; [reflexivity|].
  destruct (N.eqb_spec c 92) as [->|H92]; [reflexivity|].
  destruct (N.eqb_spec c 8) as [->|H8]; [reflexivity|].
  destruct (N.eqb_spec c 9) as [->|H9]; [reflexivity|].
  destruct (N.eqb_spec c 10) as [->|H10]; [reflexivity|].
  destruct (N.eqb_spec c 12) as [->|H12]; [reflexivity|].
  destruct (N.eqb_spec c 13) as [->|H13]; [reflexivity|].
  destruct (N.ltb_spec c 32) as [H32|H32].
  - apply parse_chars_unicode_escape. lia.
  - by apply parse_chars_literal.
Qed.

Lemma parse_chars_escape_bounded (n : nat) (s rest : string) :
  (JSString.length s <= n)%nat ->
  JSON.parse_chars (JSON.escape s +:+ String JSON.DQ rest) = Some (s, rest).
Proof.
  revert s. induction n as [|n IH]; intros s Hlen.
  - destruct s; [reflexivity|simpl in Hlen; lia].
  - destruct s as [|c s]; [reflexivity|]. simpl in Hlen.
    cbn [JSON.escape].
    destruct (JSON.is_high c) eqn:Hhigh.
    + apply is_high_range in Hhigh.
      destruct s as [|d s].
      * rewrite parse_chars_unicode_escape by lia. reflexivity.
      * destruct (JSON.is_low d) eqn:Hlow.
        -- apply is_low_range in Hlow. cbn [JSString.append].
           rewrite parse_chars_literal by lia.
           rewrite parse_chars_literal by lia.
           rewrite IH by (simpl in Hlen; lia). reflexivity.
        -- rewrite append_assoc, parse_chars_unicode_escape by lia.
           rewrite IH by lia. reflexivity.
    + destruct (JSON.is_low c) eqn:Hlow.
      * apply is_low_range in Hlow.
        rewrite append_assoc, parse_chars_unicode_escape by lia.
        rewrite IH by lia. reflexivity.
      * rewrite append_assoc, parse_chars_escape_unit.
        rewrite IH by lia. reflexivity.
Qed.

Lemma parse_chars_escape (s rest : string) :
  JSON.parse_chars (JSON.escape s +:+ String JSON.DQ rest) = Some (s, rest).
Proof. by apply (parse_chars_escape_bounded (JSString.length s)). Qed.

Lemma parse_chars_quote (s rest : string) :
  exists tail, JSON.quote s +:+ rest = String JSON.DQ tail /\
               JSON.parse_chars tail = Some (s, rest).
Proof.
  exists (JSON.escape s +:+ String JSON.DQ rest). split.
  - unfold JSON.quote. simpl. by rewrite append_assoc.
  - apply parse_chars_escape.
Qed.

(** *** Objects with their properties in the order of enumeration *)

Lemma assoc_fresh (k : string) (fields : list (string * json)) :
  k ∉ map fst fields -> JS.assoc k fields = None.
Proof.
  induction fields as [|[k' v'] fields IH]; simpl; [done|].
  intros Hk. apply not_elem_of_cons in Hk as [Hne Hk].
  destruct (string_eqb_spec k k') as [->|_]; [done|]. by apply IH.
Qed.

Lemma insert_index_last (n : N) (k : string) (v : json) (fields : list (string * json)) :
  Forall (fun kv => exists n', JSON.index_of (fst kv) = Some n' /\ n' < n) fields ->
  JSON.insert_index n k v fields = fields ++ [(k, v)].
Proof.
  induction 1 as [|[k' v'] fields (n' & Hk' & Hlt) _ IH]; simpl; [done|].
  simpl in Hk'. rewrite Hk'. apply N.ltb_lt in Hlt. rewrite Hlt. by rewrite IH.
Qed.

Lemma define_last (k : string) (v : json) (fields : list (string * json)) :
  k ∉ map fst fields ->
  Forall (fun kv => JSON.may_follow (fst kv) k = true) fields ->
  JSON.define k v fields = fields ++ [(k, v)].
Proof.
  intros Hfresh Hfollow. unfold JSON.define. rewrite assoc_fresh by done.
  destruct (JSON.index_of k) as [n|] eqn:Hk; [|done].
  apply insert_index_last. eapply Forall_impl; [exact Hfollow|].
  intros [k' v']. unfold JSON.may_follow. simpl. rewrite Hk.
  destruct (JSON.index_of k') as [n'|]; [|done].
  intros Hlt. exists n'. split; [done|]. by apply N.ltb_lt.
Qed.

Lemma ordered_app (l1 l2 : list string) (a b : string) :
  JSON.ordered (l1 ++ l2) = true -> a ∈ l1 -> b ∈ l2 -> JSON.may_follow a b = true.
Proof.
  induction l1 as [|x l1 IH]; simpl; [by intros _ ?%elem_of_nil|].
  intros [Hall Hord]%andb_true_iff Ha Hb.
  apply elem_of_cons in Ha as [->|Ha]; [|by apply IH].
  rewrite forallb_forall in Hall. apply Hall, list_elem_of_In, elem_of_app. by right.
Qed.

Lemma build_from (members acc : list (string * json)) :
  NoDup (map fst (acc ++ members)) ->
  JSON.ordered (map fst (acc ++ members)) = true ->
  fold_left (fun fields kv => JSON.define (fst kv) (snd kv) fields) members acc =
  acc ++ members.
Proof.
  revert acc. induction members as [|[k v] members IH]; intros acc Hnd Hord; simpl.
  - by rewrite app_nil_r.
  - rewrite define_last.
    + rewrite IH; rewrite <- app_assoc; done.
    + rewrite map_app in Hnd. apply NoDup_app in Hnd as (_ & Hdisj & _).
      intros Hin. apply (Hdisj k Hin). simpl. by left.
    + apply Forall_forall. intros [k' v'] Hin. simpl.
      rewrite map_app in Hord. apply (ordered_app _ _ k' k Hord).
      * apply list_elem_of_fmap. by exists (k', v').
      * simpl. by left.
Qed.

Lemma build_ordered (members : list (string * json)) :
  NoDup (map fst members) -> JSON.ordered (map fst members) = true ->
  JSON.build members = members.
Proof. intros Hnd Hord. unfold JSON.build. by rewrite build_from. Qed.

End Literals.

Section Codec.
Context {P : Platform}.

#[local] Arguments JSON.quote : simpl never.

(** *** One step of the parser *)

Lemma parse_value_step (fuel : nat) (c : N) (rest : string) :
  JSON.is_ws c = false ->
  JSON.parse_value (S fuel) (String c rest) =
  if (c =? 110)%N then JSON.keyword "ull" JNull rest
  else if (c =? 116)%N then JSON.keyword "rue" (JBool true) rest
  else if (c =? 102)%N then JSON.keyword "alse" (JBool false) rest
  else if (c =? 34)%N then
    match JSON.parse_chars rest with
    | Some (str, rest) => Some (JStr str, rest)
    | None => None
    end
  else if (c =? 91)%N then
    match JSON.skip_ws rest with
    | EmptyString => None
    | String d rest' =>
        if (d =? 93)%N then Some (JArr [], rest')
        else
          match JSON.parse_elements fuel rest with
          | Some (items, rest) => Some (JArr items, rest)
          | None => None
          end
    end
  else if (c =? 123)%N then
    match JSON.skip_ws rest with
    | EmptyString => None
    | String d rest' =>
        if (d =? 125)%N then Some (JObj [], rest')
        else
          match JSON.parse_members fuel rest with
          | Some (members, rest) => Some (JObj (JSON.build members), rest)
          | None => None
          end
    end
  else JSON.parse_number (String c rest).
Proof. intros Hws. cbn [JSON.parse_value JSON.skip_ws]. by rewrite Hws. Qed.

Lemma value_start_not_ws (c : N) : JSON.value_start c = true -> JSON.is_ws c = false.
Proof.
  unfold JSON.value_start, JSON.is_ws, JSON.is_digit. intros H.
  destruct (N.eqb_spec c 32) as [->|]; [done|].
  destruct (N.eqb_spec c 9) as [->|]; [done|].
  destruct (N.eqb_spec c 10) as [->|]; [done|].
  destruct (N.eqb_spec c 13) as [->|]; done.
Qed.

Lemma parse_value_string (fuel : nat) (tail : string) :
  JSON.parse_value (S fuel) (String JSON.DQ tail) =
  match JSON.parse_chars tail with
  | Some (str, rest) => Some (JStr str, rest)
  | None => None
  end.
Proof. reflexivity. Qed.

Lemma parse_value_number (fuel : nat) (c : N) (r : string) :
  JSON.is_digit c = true \/ c = 45%N ->
  JSON.parse_value (S fuel) (String c r) = JSON.parse_number (String c r).
Proof.
  intros Hc. rewrite parse_value_step.
  - destruct Hc as [Hc| ->]; [|reflexivity].
    unfold JSON.is_digit in Hc. apply andb_true_iff in Hc as [H1 H2].
    apply N.leb_le in H1, H2. by units.
  - apply value_start_not_ws. unfold JSON.value_start.
    destruct Hc as [->| ->]; reflexivity.
Qed.

Lemma parse_value_array (fuel : nat) (c : N) (r : string) :
  JSON.value_start c = true ->
  JSON.parse_value (S fuel) (String 91 (String c r)) =
  match JSON.parse_elements fuel (String c r) with
  | Some (items, rest) => Some (JArr items, rest)
  | None => None
  end.
Proof.
  intros Hc. rewrite parse_value_step by reflexivity. cbn [N.eqb Pos.eqb].
  cbn [JSON.skip_ws]. rewrite (value_start_not_ws c Hc).
  destruct (N.eqb_spec c 93) as [->|_]; [discriminate Hc|done].
Qed.

Lemma parse_value_object (fuel : nat) (r : string) :
  JSON.parse_value (S fuel) (String 123 (String JSON.DQ r)) =
  match JSON.parse_members fuel (String JSON.DQ r) with
  | Some (members, rest) => Some (JObj (JSON.build members), rest)
  | None => None
  end.
Proof. reflexivity. Qed.

Lemma parse_elements_step (fuel : nat) (s : string) :
  JSON.parse_elements (S fuel) s =
  match JSON.parse_value fuel s with
  | Some (v, rest) =>
      match JSON.skip_ws rest with
      | EmptyString => None
      | String d rest =>
          if (d =? 44)%N then
            match JSON.parse_elements fuel rest with
            | Some (vs, rest) => Some (v :: vs, rest)
            | None => None
            end
          else if (d =? 93)%N then Some ([v], rest)
          else None
      end
  | None => None
  end.
Proof. reflexivity. Qed.

Lemma parse_members_step (fuel : nat) (tail : string) :
  JSON.parse_members (S fuel) (String JSON.DQ tail) =
  match JSON.parse_chars tail with
  | Some (key, rest) =>
      match JSON.skip_ws rest with
      | EmptyString => None
      | String d rest =>
          if (d =? 58)%N then
            match JSON.parse_value fuel rest with
            | Some (v, rest) =>
                match JSON.skip_ws rest with
                | EmptyString => None
                | String d rest =>
                    if (d =? 44)%N then
                      match JSON.parse_members fuel rest with
                      | Some (kvs, rest) => Some ((key, v) :: kvs, rest)
                      | None => None
                      end
                    else if (d =? 125)%N then Some ([(key, v)], rest)
                    else None
                end
            | None => None
            end
          else None
      end
  | None => None
  end.
Proof. reflexivity. Qed.

(** The text of a valid value starts as a value does. *)
Lemma stringify_head (v : json) :
  JSON.wf v = true ->
  exists c r, JSON.stringify v = String c r /\ JSON.value_start c = true.
Proof.
  destruct v as [| [] | n | s | items | fields]; intros Hwf; try (by eexists _, _).
  simpl in Hwf. apply andb_true_iff in Hwf as [Hnum _].
  simpl. rewrite (number_text n Hnum).
  destruct (is_number_head n Hnum) as (c & r & -> & Hc).
  exists c, r. split; [done|]. unfold JSON.value_start.
  destruct Hc as [->| ->]; reflexivity.
Qed.

Lemma join_cons_cons (sep p q : string) (l : list string) :
  JSString.join sep (p :: q :: l) = p +:+ sep +:+ JSString.join sep (q :: l).
Proof. reflexivity. Qed.

Lemma stringify_array_text (items : list json) (rest : string) :
  JSON.stringify (JArr items) +:+ rest =
  String 91 (JSString.join "," (map JSON.stringify items) +:+ String 93 rest).
Proof.
  change (String 91 ((JSString.join "," (map JSON.stringify items) +:+ "]") +:+ rest) =
          String 91 (JSString.join "," (map JSON.stringify items) +:+ String 93 rest)).
  by rewrite append_assoc.
Qed.

Lemma stringify_object_text (fields : list (string * json)) (rest : string) :
  JSON.stringify (JObj fields) +:+ rest =
  String 123
    (JSString.join ","
       (map (fun kv => JSON.quote (fst kv) +:+ ":" +:+ JSON.stringify (snd kv)) fields)
     +:+ String 125 rest).
Proof.
  change (String 123
            ((JSString.join ","
                (map (fun kv => JSON.quote (fst kv) +:+ ":" +:+ JSON.stringify (snd kv)) fields)
              +:+ "}") +:+ rest) =
          String 123
            (JSString.join ","
               (map (fun kv => JSON.quote (fst kv) +:+ ":" +:+ JSON.stringify (snd kv)) fields)
             +:+ String 125 rest)).
  by rewrite append_assoc.
Qed.

Lemma forallb_elem {A} (f : A -> bool) (l : list A) (x : A) :
  forallb f l = true -> x ∈ l -> f x = true.
Proof.
  intros Hall Hx. rewrite forallb_forall in Hall. by apply Hall, list_elem_of_In.
Qed.

(** *** The parser on the text of a value *)

Lemma parse_elements_items (items : list json) :
  items <> [] -> Forall JSON.parses_back items ->
  forall (fuel : nat) (rest : string),
    (foldr (fun x acc => S (Nat.max (JSON.depth x) acc)) O items <= fuel)%nat ->
    JSON.parse_elements fuel
      (JSString.join "," (map JSON.stringify items) +:+ String 93 rest) = Some (items, rest).
Proof.
  intros Hne Hall. induction Hall as [|v items Hv Hitems IH]; [done|]. clear Hne.
  intros fuel rest Hfuel. simpl in Hfuel.
  destruct fuel as [|fuel]; [lia|]. rewrite parse_elements_step.
  destruct items as [|v' items].
  - simpl. rewrite Hv; [done|lia|]. simpl. by right; left.
  - simpl map. rewrite join_cons_cons, !append_assoc. cbn [JSString.append].
    rewrite Hv; [|lia|simpl; by left]. cbn [JSON.skip_ws JSON.is_ws N.eqb Pos.eqb orb].
    rewrite IH; [done|done|]. simpl in *. lia.
Qed.

Lemma members_text_one (k : string) (v : json) :
  JSString.join ","
    (map (fun kv => JSON.quote (fst kv) +:+ ":" +:+ JSON.stringify (snd kv)) [(k, v)]) =
  JSON.quote k +:+ ":" +:+ JSON.stringify v.
Proof. reflexivity. Qed.

Lemma members_text_cons (k : string) (v : json) (kv : string * json)
    (l : list (string * json)) :
  JSString.join ","
    (map (fun kv => JSON.quote (fst kv) +:+ ":" +:+ JSON.stringify (snd kv))
         ((k, v) :: kv :: l)) =
  (JSON.quote k +:+ ":" +:+ JSON.stringify v) +:+ "," +:+
  JSString.join ","
    (map (fun kv => JSON.quote (fst kv) +:+ ":" +:+ JSON.stringify (snd kv)) (kv :: l)).
Proof. reflexivity. Qed.

Lemma parse_members_fields (fields : list (string * json)) :
  fields <> [] -> Forall (fun kv => JSON.parses_back (snd kv)) fields ->
  forall (fuel : nat) (rest : string),
    (foldr (fun kv acc => S (Nat.max (JSON.depth (snd kv)) acc)) O fields <= fuel)%nat ->
    JSON.parse_members fuel
      (JSString.join ","
         (map (fun kv => JSON.quote (fst kv) +:+ ":" +:+ JSON.stringify (snd kv)) fields)
       +:+ String 125 rest) = Some (fields, rest).
Proof.
  intros Hne Hall. induction Hall as [|[k v] fields Hv Hfields IH]; [done|]. clear Hne.
  intros fuel rest Hfuel. simpl in Hfuel, Hv.
  destruct fuel as [|fuel]; [lia|].
  destruct fields as [|kv' fields].
  - rewrite members_text_one, !append_assoc.
    match goal with
    | |- context [JSON.quote k +:+ ?t] => destruct (parse_chars_quote k t) as (tail & -> & Hk)
    end.
    rewrite parse_members_step, Hk. cbn [JSString.append JSON.skip_ws JSON.is_ws N.eqb Pos.eqb orb].
    rewrite Hv; [done|lia|]. simpl. by right; right.
  - rewrite members_text_cons, !append_assoc.
    match goal with
    | |- context [JSON.quote k +:+ ?t] => destruct (parse_chars_quote k t) as (tail & -> & Hk)
    end.
    rewrite parse_members_step, Hk. cbn [JSString.append JSON.skip_ws JSON.is_ws N.eqb Pos.eqb orb].
    rewrite Hv; [|lia|simpl; by left]. cbn [JSON.skip_ws JSON.is_ws N.eqb Pos.eqb orb].
    rewrite IH; [done|done|]. simpl in *. lia.
Qed.

Lemma parse_value_stringify (v : json) : JSON.wf v = true -> JSON.parses_back v.
Proof.
  induction v as [| b | n | s | items IH | fields IH] using json_induction;
    intros Hwf fuel rest Hfuel Hrest; (destruct fuel as [|fuel]; [simpl in Hfuel; lia|]).
  - reflexivity.
  - by destruct b.
  - simpl in Hwf. apply andb_true_iff in Hwf as [Hnum Htext].
    apply string_eqb_eq in Htext.
    simpl JSON.stringify. rewrite (number_text n Hnum).
    destruct (is_number_head n Hnum) as (c & r & Hn & Hc).
    assert (Hstart : n +:+ rest = String c (r +:+ rest)) by (by rewrite Hn).
    rewrite Hstart, parse_value_number by done. rewrite <- Hstart.
    unfold JSON.parse_number. rewrite (scan_number_whole n rest Hnum Hrest).
    by rewrite Htext.
  - simpl JSON.stringify.
    destruct (parse_chars_quote s rest) as (tail & -> & Hs).
    by rewrite parse_value_string, Hs.
  - simpl in Hwf, Hfuel. rewrite stringify_array_text.
    destruct items as [|v items]; [reflexivity|].
    assert (Hall : Forall JSON.parses_back (v :: items)).
    { apply Forall_forall. intros x Hx. rewrite Forall_forall in IH. apply IH; [done|].
      exact (forallb_elem _ _ _ Hwf Hx). }
    pose proof (parse_elements_items (v :: items) ltac:(done) Hall fuel rest ltac:(lia)) as Hel.
    destruct (stringify_head v) as (c & r & Hc & Hstart).
    { apply (forallb_elem _ _ _ Hwf). by left. }
    assert (Hjoin : exists r', JSString.join "," (map JSON.stringify (v :: items))
                               +:+ String 93 rest = String c r').
    { destruct items; simpl; rewrite Hc; by eexists. }
    destruct Hjoin as (r' & Hjoin). rewrite Hjoin in Hel |- *.
    by rewrite parse_value_array, Hel.
  - simpl in Hwf, Hfuel. rewrite stringify_object_text.
    apply andb_true_iff in Hwf as [Hkeys Hwf]. apply andb_true_iff in Hkeys as [Hnd Hord].
    apply bool_decide_eq_true in Hnd.
    destruct fields as [|kv fields]; [reflexivity|].
    assert (Hall : Forall (fun kv => JSON.parses_back (snd kv)) (kv :: fields)).
    { apply Forall_forall. intros x Hx. rewrite Forall_forall in IH. apply IH; [done|].
      exact (forallb_elem _ _ _ Hwf Hx). }
    pose proof (parse_members_fields (kv :: fields) ltac:(done) Hall fuel rest ltac:(lia)) as Hm.
    assert (Hjoin : exists r',
               JSString.join ","
                 (map (fun kv => JSON.quote (fst kv) +:+ ":" +:+ JSON.stringify (snd kv))
                      (kv :: fields))
               +:+ String 125 rest = String JSON.DQ r').
    { destruct fields; simpl; by eexists. }
    destruct Hjoin as (r' & Hjoin). rewrite Hjoin in Hm |- *.
    by rewrite parse_value_object, Hm, build_ordered.
Qed.

Lemma stringify_length_pos (v : json) :
  JSON.wf v = true -> (1 <= JSString.length (JSON.stringify v))%nat.
Proof. intros Hwf. destruct (stringify_head v Hwf) as (c & r & -> & _). simpl. lia. Qed.

Lemma depth_items_le (items : list json) :
  Forall (fun x => (JSON.depth x <= JSString.length (JSON.stringify x))%nat) items ->
  (foldr (fun x acc => S (Nat.max (JSON.depth x) acc)) O items
   <= S (JSString.length (JSString.join "," (map JSON.stringify items))))%nat.
Proof.
  induction 1 as [|v items Hv Hitems IH]; simpl foldr; [lia|].
  destruct items as [|v' items].
  - simpl. lia.
  - change (map JSON.stringify (v :: v' :: items))
      with (JSON.stringify v :: JSON.stringify v' :: map JSON.stringify items).
    rewrite join_cons_cons, !length_append.
    change (JSON.stringify v' :: map JSON.stringify items)
      with (map JSON.stringify (v' :: items)).
    change (JSString.length ",") with 1%nat. lia.
Qed.

Lemma depth_fields_le (fields : list (string * json)) :
  Forall (fun kv => (JSON.depth (snd kv) <= JSString.length (JSON.stringify (snd kv)))%nat)
         fields ->
  (foldr (fun kv acc => S (Nat.max (JSON.depth (snd kv)) acc)) O fields
   <= S (JSString.length
           (JSString.join ","
              (map (fun kv => JSON.quote (fst kv) +:+ ":" +:+ JSON.stringify (snd kv))
                   fields))))%nat.
Proof.
  induction 1 as [|[k v] fields Hv Hfields IH]; simpl foldr; [lia|].
  simpl in Hv. destruct fields as [|kv' fields].
  - rewrite members_text_one, !length_append. simpl foldr. lia.
  - rewrite members_text_cons, !length_append.
    change (JSString.length ",") with 1%nat. simpl foldr in *. lia.
Qed.

Lemma depth_le_length (v : json) :
  JSON.wf v = true -> (JSON.depth v <= JSString.length (JSON.stringify v))%nat.
Proof.
  induction v as [| b | n | s | items IH | fields IH] using json_induction; intros Hwf;
    try (by apply stringify_length_pos).
  - pose proof (stringify_array_text items EmptyString) as Htext.
    rewrite append_nil_r in Htext. rewrite Htext.
    assert (Hall : Forall (fun x => (JSON.depth x <= JSString.length (JSON.stringify x))%nat)
                          items).
    { apply Forall_forall. intros x Hx. rewrite Forall_forall in IH. apply IH; [done|].
      exact (forallb_elem _ _ _ Hwf Hx). }
    pose proof (depth_items_le items Hall).
    change (JSON.depth (JArr items))
      with (S (foldr (fun x acc => S (Nat.max (JSON.depth x) acc)) O items)).
    cbn [JSString.length]. rewrite length_append. cbn [JSString.length]. lia.
  - pose proof (stringify_object_text fields EmptyString) as Htext.
    rewrite append_nil_r in Htext. rewrite Htext.
    simpl in Hwf. apply andb_true_iff in Hwf as [_ Hwf].
    assert (Hall : Forall (fun kv => (JSON.depth (snd kv)
                                      <= JSString.length (JSON.stringify (snd kv)))%nat)
                          fields).
    { apply Forall_forall. intros x Hx. rewrite Forall_forall in IH. apply IH; [done|].
      exact (forallb_elem _ _ _ Hwf Hx). }
    pose proof (depth_fields_le fields Hall).
    change (JSON.depth (JObj fields))
      with (S (foldr (fun kv acc => S (Nat.max (JSON.depth (snd kv)) acc)) O fields)).
    cbn [JSString.length]. rewrite length_append. cbn [JSString.length]. lia.
Qed.

(** [JSON.parse] gives back every valid value that [JSON.stringify] has
    written. *)
Lemma parse_stringify (v : json) :
  JSON.wf v = true -> JSON.parse (JSON.stringify v) = Some v.
Proof.
  intros Hwf. unfold JSON.parse.
  pose proof (parse_value_stringify v Hwf (JSString.length (JSON.stringify v)) EmptyString
                (depth_le_length v Hwf) I) as Hparse.
  rewrite append_nil_r in Hparse. by rewrite Hparse.
Qed.

Lemma stringify_array_truthy (items : list json) :
  JSString.truthy (JSON.stringify (JArr items)) = true.
Proof. reflexivity. Qed.

End Codec.

(** ** Properties of the session store *)

Section StoreFacts.
Context {P : Platform}.

Lemma optional_field_wf (name : string) (value : option json) :
  optional_wf value = true ->
  forallb (fun kv => JSON.wf (snd kv)) (optional_field name value) = true.
Proof. destruct value as [v|]; simpl; [|done]. intros ->. done. Qed.

Lemma StoredMessage_json_wf (m : StoredMessage.t) :
  StoredMessage_wf m = true -> JSON.wf (StoredMessage_json m) = true.
Proof.
  unfold StoredMessage_wf. intros Hm.
  apply andb_true_iff in Hm as [Hm Hneeds].
  apply andb_true_iff in Hm as [Hm Hnext].
  apply andb_true_iff in Hm as [Hmeta Hgroups].
  unfold StoredMessage_json. cbn [JSON.wf]. apply andb_true_iff. split.
  - destruct (StoredMessage.metadata m), (StoredMessage.serviceGroups m),
      (StoredMessage.nextActions m), (StoredMessage.needsIdentified m);
      (apply andb_true_iff; split;
       [apply bool_decide_eq_true, (bool_decide_unpack _)|]; vm_compute; reflexivity).
  - rewrite !forallb_app, !optional_field_wf by done. reflexivity.
Qed.

Lemma StoredSession_json_wf (s : StoredSession.t) :
  StoredSession_wf s = true -> JSON.wf (StoredSession_json s) = true.
Proof.
  unfold StoredSession_wf. intros Hs.
  unfold StoredSession_json. cbn [JSON.wf].
  apply andb_true_iff. split.
  { apply andb_true_iff; split;
      [apply bool_decide_eq_true, (bool_decide_unpack _)|]; vm_compute; reflexivity. }
  cbn [forallb snd JSON.wf]. rewrite andb_true_r. cbn [andb].
  rewrite forallb_forall in Hs |- *.
  intros x Hx. apply in_map_iff in Hx as (m & <- & Hm).
  by apply StoredMessage_json_wf, Hs.
Qed.

Lemma sessions_json_wf (sessions : list StoredSession.t) :
  forallb StoredSession_wf sessions = true ->
  JSON.wf (JArr (map StoredSession_json sessions)) = true.
Proof.
  intros Hs. cbn [JSON.wf]. rewrite forallb_forall in Hs |- *.
  intros x Hx. apply in_map_iff in Hx as (s & <- & Hin).
  by apply StoredSession_json_wf, Hs.
Qed.

Lemma mapM_map_Some {A B} (f : B -> option A) (g : A -> B) (l : list A) :
  (forall x, f (g x) = Some x) -> mapM f (map g l) = Some l.
Proof.
  intros Hfg. induction l as [|x l IH]; [done|].
  cbn [map mapM]. rewrite Hfg. cbn. rewrite IH. done.
Qed.

Lemma asStoredMessage_json (m : StoredMessage.t) :
  asStoredMessage (StoredMessage_json m) = Some m.
Proof.
  destruct m as [id role content metadata groups next needs created].
  destruct role, metadata, groups, next, needs; reflexivity.
Qed.

Lemma asStoredSession_json (s : StoredSession.t) :
  asStoredSession (StoredSession_json s) = Some s.
Proof.
  destruct s as [id title messages created updated].
  unfold asStoredSession, StoredSession_json, get_string. cbn.
  by rewrite (mapM_map_Some _ _ _ asStoredMessage_json).
Qed.

Lemma readStoredSessions_storage (b : Browser.t) :
  Browser.items (readStoredSessions b).2 = Browser.items b /\
  ((readStoredSessions b).2 = b \/
   (readStoredSessions b).2 = Browser.log "Failed to read Street Bot sessions" b).
Proof.
  unfold readStoredSessions, Browser.getItem.
  destruct (Browser.hasWindow b); simpl; [|by split; [|left]].
  destruct (Browser.storageReachable b); [|by split; [|right]].
  destruct (Browser.items b !! LOCAL_STORAGE_KEY) as [raw|]; [|by split; [|left]].
  destruct (JSString.truthy raw); simpl; [|by split; [|left]].
  destruct (JSON.parse raw) as [[]|]; simpl; (split; [done|]); first [by left | by right].
Qed.

(** A write that the storage does not take is logged and leaves the slot
    as it was. *)
Lemma writeStoredSessions_refused (sessions : list StoredSession.t) (b : Browser.t) :
  sessions <> [] ->
  Browser.hasWindow b = true ->
  Browser.storageReachable b = false \/
  Browser.within_quota b (JSON.stringify (JArr (map StoredSession_json sessions))) = false ->
  writeStoredSessions sessions b = Browser.log "Failed to persist Street Bot sessions" b.
Proof.
  intros Hne Hw Hrefused. unfold writeStoredSessions, Browser.setItem. rewrite Hw.
  destruct sessions as [|s sessions]; [done|]. cbn [negb].
  destruct Hrefused as [-> | ->]; [done|]. by rewrite andb_false_r.
Qed.

Lemma readStoredSessions_log (line : string) (b : Browser.t) :
  (readStoredSessions (Browser.log line b)).1 = (readStoredSessions b).1.
Proof.
  unfold readStoredSessions, Browser.getItem, Browser.log.
  cbn [Browser.hasWindow Browser.storageReachable Browser.items].
  destruct (Browser.hasWindow b); [|done]. cbn [negb].
  destruct (Browser.storageReachable b); [|done].
  destruct (Browser.items b !! LOCAL_STORAGE_KEY) as [raw|]; [|done].
  destruct (JSString.truthy raw); [|done]. cbn [negb].
  by destruct (JSON.parse raw) as [[]|].
Qed.

(** C6, amended.  [writeStoredSessions] followed by [readStoredSessions]
    gives the sequence back where the browser takes the write.  For the
    empty sequence the read returns the empty sequence, whatever the
    browser, and on a reachable storage the write has removed the slot.
    For a non-empty sequence of valid sessions, on a storage that is
    reachable and accepts the text, the read returns the sequence of the
    JavaScript objects of the sessions written, property for property,
    and these objects are the sessions written.  When there is no window
    the write does nothing, and when the storage cannot be reached or
    refuses the text the write is logged and dropped: the slot keeps what
    it held and the read returns what it returned before. *)
Theorem C6_save_load_roundtrip (b : Browser.t) :
  (readStoredSessions (writeStoredSessions [] b)).1 = [] /\
  (Browser.hasWindow b = true -> Browser.storageReachable b = true ->
   Browser.items (writeStoredSessions [] b) !! LOCAL_STORAGE_KEY = None) /\
  (forall sessions : list StoredSession.t,
      sessions <> [] ->
      forallb StoredSession_wf sessions = true ->
      Browser.hasWindow b = true ->
      Browser.storageReachable b = true ->
      Browser.within_quota b (JSON.stringify (JArr (map StoredSession_json sessions))) = true ->
      (readStoredSessions (writeStoredSessions sessions b)).1 =
      map StoredSession_json sessions /\
      mapM asStoredSession (readStoredSessions (writeStoredSessions sessions b)).1 =
      Some sessions) /\
  (forall sessions : list StoredSession.t,
      Browser.hasWindow b = false -> writeStoredSessions sessions b = b) /\
  (forall sessions : list StoredSession.t,
      sessions <> [] ->
      Browser.hasWindow b = true ->
      Browser.storageReachable b = false \/
      Browser.within_quota b (JSON.stringify (JArr (map StoredSession_json sessions))) = false ->
      writeStoredSessions sessions b = Browser.log "Failed to persist Street Bot sessions" b /\
      Browser.items (writeStoredSessions sessions b) = Browser.items b /\
      (readStoredSessions (writeStoredSessions sessions b)).1 = (readStoredSessions b).1).
Proof.
  split; [|split; [|split; [|split]]].
  - unfold writeStoredSessions, readStoredSessions, Browser.removeItem, Browser.getItem.
    destruct (Browser.hasWindow b) eqn:Hw; simpl; [|by rewrite Hw].
    destruct (Browser.storageReachable b) eqn:Hr; simpl; rewrite Hw, Hr; simpl; [|done].
    by rewrite lookup_delete_eq.
  - intros Hw Hr. unfold writeStoredSessions, Browser.removeItem. rewrite Hw, Hr. simpl.
    apply lookup_delete_eq.
  - intros sessions Hne Hwf Hw Hr Hq.
    pose proof (parse_stringify _ (sessions_json_wf sessions Hwf)) as Hparse.
    pose proof (stringify_array_truthy (map StoredSession_json sessions)) as Htruthy.
    set (text := JSON.stringify (JArr (map StoredSession_json sessions))) in *.
    assert (Hwrite : writeStoredSessions sessions b =
                     Browser.with_items b (<[LOCAL_STORAGE_KEY := text]> (Browser.items b))).
    { unfold writeStoredSessions, Browser.setItem. rewrite Hw.
      destruct sessions as [|s sessions]; [done|]. fold text. by rewrite Hr, Hq. }
    rewrite Hwrite. unfold readStoredSessions, Browser.getItem, Browser.with_items.
    cbn [Browser.hasWindow Browser.storageReachable Browser.items].
    rewrite Hw, Hr. cbn [negb]. rewrite lookup_insert_eq, Htruthy. cbn [negb].
    rewrite Hparse. cbn [fst]. split; [done|].
    apply mapM_map_Some, asStoredSession_json.
  - intros sessions Hw. unfold writeStoredSessions. by rewrite Hw.
  - intros sessions Hne Hw Hrefused.
    rewrite (writeStoredSessions_refused sessions b Hne Hw Hrefused).
    split; [done|]. split; [done|]. apply readStoredSessions_log.
Qed.

(** C7.  The code falls short of the specification on a slot that holds an array
    of values that are no sessions: [readStoredSessions] returns the
    array as it found it and logs nothing, here for the texts [[true]] and
    [[null]] and in general for every text that is JSON for an array.
    The rest of what is specified holds: the read is total, leaves the storage as
    it is, logs one warning or nothing, and returns the empty sequence
    when there is no window, when the storage cannot be reached, when the
    slot is absent or holds the empty text, when the text is not JSON and
    when the JSON value is not an array. *)
Theorem C7_load_keeps_malformed_items :
  (let b := Browser.mk true true None {[ LOCAL_STORAGE_KEY := "[true]" ]} [] in
   readStoredSessions b = ([JBool true], b) /\
   SessionShape.parses_as_sessions "[true]" = false) /\
  (let b := Browser.mk true true None {[ LOCAL_STORAGE_KEY := "[null]" ]} [] in
   readStoredSessions b = ([JNull], b) /\
   SessionShape.parses_as_sessions "[null]" = false) /\
  (forall b raw items,
     Browser.hasWindow b = true -> Browser.storageReachable b = true ->
     Browser.items b !! LOCAL_STORAGE_KEY = Some raw ->
     JSON.parse raw = Some (JArr items) ->
     readStoredSessions b = (items, b)) /\
  (forall b,
     (exists (result : list json) (b' : Browser.t), readStoredSessions b = (result, b')) /\
     Browser.items (readStoredSessions b).2 = Browser.items b /\
     ((readStoredSessions b).2 = b \/
      (readStoredSessions b).2 = Browser.log "Failed to read Street Bot sessions" b) /\
     (Browser.hasWindow b = false -> (readStoredSessions b).1 = []) /\
     (Browser.storageReachable b = false -> (readStoredSessions b).1 = []) /\
     (Browser.items b !! LOCAL_STORAGE_KEY = None -> (readStoredSessions b).1 = []) /\
     (forall raw, Browser.items b !! LOCAL_STORAGE_KEY = Some raw ->
        (raw = EmptyString \/ JSON.parse raw = None \/
         exists v, JSON.parse raw = Some v /\ match v with JArr _ => False | _ => True end) ->
        (readStoredSessions b).1 = [])).
Proof.
  split; [by split|]. split; [by split|]. split.
  { intros b raw items Hw Hr Hraw Hp.
    unfold readStoredSessions, Browser.getItem. rewrite Hw, Hr, Hraw. cbn [negb].
    rewrite Hp. destruct raw; [discriminate Hp|done]. }
  intros b.
  split; [by destruct (readStoredSessions b) as [l b']; exists l, b'|].
  destruct (readStoredSessions_storage b) as [Hitems Hlog].
  split; [exact Hitems|]. split; [exact Hlog|].
  unfold readStoredSessions, Browser.getItem.
  split; [by intros ->|].
  split; [intros ->; by destruct (Browser.hasWindow b)|].
  split; [intros ->; by destruct (Browser.hasWindow b), (Browser.storageReachable b)|].
  intros raw -> Hraw.
  destruct (Browser.hasWindow b), (Browser.storageReachable b); simpl; try done.
  destruct Hraw as [-> | [Hp | (v & Hp & Hv)]]; [done| |].
  - rewrite Hp. by destruct (JSString.truthy raw).
  - rewrite Hp. destruct (JSString.truthy raw); [|done]. by destruct v.
Qed.

End StoreFacts.

Section StoreExamples.
#[local] Existing Instance Example.platform.

(** C6 as the specification states it fails: on a browser whose session
    storage cannot be reached the write is dropped, and the read returns
    the empty sequence, not the session written. *)
Lemma C6_unreachable_storage_counterexample :
  ~ (forall (b : Browser.t) (sessions : list StoredSession.t),
        sessions <> [] ->
        forallb StoredSession_wf sessions = true ->
        mapM asStoredSession (readStoredSessions (writeStoredSessions sessions b)).1 =
        Some sessions).
Proof.
  intros H.
  specialize (H (Browser.mk true false None ∅ []) [Example.session0]
                ltac:(discriminate) eq_refl).
  vm_compute in H. discriminate H.
Qed.

Lemma C6_save_load_roundtrip_witness :
  mapM asStoredSession
       (readStoredSessions (writeStoredSessions [Example.session0] Example.browser0)).1 =
  Some [Example.session0].
Proof.
  apply (proj1 (proj2 (proj2 (@C6_save_load_roundtrip Example.platform Example.browser0))));
    try reflexivity.
  discriminate.
Defined.

End StoreExamples.

(** ** The steps of the submit handler *)

Lemma find_Some_elem {A} (f : A -> bool) (l : list A) (x : A) :
  List.find f l = Some x -> x ∈ l /\ f x = true.
Proof. intros [H1 H2]%List.find_some. split; [by apply list_elem_of_In|done]. Qed.

Lemma find_is_Some {A} (f : A -> bool) (l : list A) (x : A) :
  x ∈ l -> f x = true -> is_Some (List.find f l).
Proof.
  intros Hx Hf. destruct (List.find f l) eqn:Hfind; [by eexists|].
  apply list_elem_of_In in Hx. pose proof (List.find_none f l Hfind x Hx). congruence.
Qed.

Lemma find_none_Forall {A} (f : A -> bool) (l : list A) :
  Forall (fun x => f x = false) l -> List.find f l = None.
Proof. induction 1 as [|x l Hx Hl IH]; simpl; [done|]. by rewrite Hx. Qed.

Lemma NoDup_fmap_elem {A B} (f : A -> B) (l : list A) (x y : A) :
  NoDup (map f l) -> x ∈ l -> y ∈ l -> f x = f y -> x = y.
Proof.
  induction l as [|z l IH]; simpl; [by inversion 2|].
  intros [Hz Hl]%NoDup_cons [->|Hx]%elem_of_cons [->|Hy]%elem_of_cons Heq; auto.
  - exfalso. apply Hz. rewrite Heq. apply list_elem_of_fmap. by exists y.
  - exfalso. apply Hz. rewrite <- Heq. apply list_elem_of_fmap. by exists x.
Qed.

Lemma find_NoDup_elem (sessions : list StoredSession.t) (session : StoredSession.t) :
  NoDup (map StoredSession.sessionId sessions) -> session ∈ sessions ->
  List.find (fun item => JSString.eqb (StoredSession.sessionId item)
                                      (StoredSession.sessionId session)) sessions
    = Some session.
Proof.
  intros Hnd Hin.
  destruct (find_is_Some
              (fun item => JSString.eqb (StoredSession.sessionId item)
                                        (StoredSession.sessionId session))
              sessions session Hin) as [y Hy]; [apply string_eqb_refl|].
  rewrite Hy. f_equal. apply find_Some_elem in Hy as [Hyin Hyid].
  apply string_eqb_eq in Hyid.
  by apply (NoDup_fmap_elem StoredSession.sessionId sessions).
Qed.


Lemma replaced_elem (c : string) (u : StoredSession.t) (prev : list StoredSession.t)
    (s : StoredSession.t) :
  StoredSession.sessionId u = c ->
  s ∈ map (fun session => if JSString.eqb (StoredSession.sessionId session) c
                          then u else session) prev <->
  (s = u /\ c ∈ map StoredSession.sessionId prev) \/
  (s ∈ prev /\ StoredSession.sessionId s <> c).
Proof.
  intros Hu. rewrite list_elem_of_fmap. split.
  - intros (x & -> & Hx).
    destruct (JSString.eqb (StoredSession.sessionId x) c) eqn:Hxc.
    + left. split; [done|]. apply string_eqb_eq in Hxc. subst c.
      apply list_elem_of_fmap. by exists x.
    + right. split; [done|]. by apply string_eqb_neq.
  - intros [[-> Hc]|[Hs Hne]].
    + apply list_elem_of_fmap in Hc as (x & -> & Hx). exists x.
      by rewrite string_eqb_refl.
    + exists s. apply string_eqb_neq in Hne. by rewrite Hne.
Qed.

Lemma replaced_ids (c : string) (u : StoredSession.t) (prev : list StoredSession.t) :
  StoredSession.sessionId u = c ->
  map StoredSession.sessionId
      (map (fun session => if JSString.eqb (StoredSession.sessionId session) c
                           then u else session) prev) =
  map StoredSession.sessionId prev.
Proof.
  intros Hu. rewrite map_map. apply map_ext. intros x.
  destruct (JSString.eqb (StoredSession.sessionId x) c) eqn:Hxc; [|done].
  apply string_eqb_eq in Hxc. congruence.
Qed.


Lemma filter_keepExcept_fresh (loadingId : string) (l : list ChatMessage.t) :
  Forall (fun m => ChatMessage.id m <> loadingId) l ->
  List.filter (Home.keepExcept loadingId) l = l.
Proof.
  induction 1 as [|m l Hm Hl IH]; simpl; [done|].
  unfold Home.keepExcept at 1. apply string_eqb_neq in Hm. rewrite Hm. simpl. by rewrite IH.
Qed.

Section HandlerFacts.
Context {P : Platform}.

(** What a submission of a text that is not blank does, spelled out. *)
Lemma handleSubmit_nonblank
    (agent : option string) (uuid now : string) (st : Home.state) (b : Browser.t) :
  JSString.blank (Home.input st) = false ->
  let text := JSString.trim (Home.input st) in
  let userMessage := Home.plainMessage uuid user text None in
  let loading :=
    Home.plainMessage (uuid +:+ "-loading") assistant (getLoadingMessage text)
                      (Some Variant.callout) in
  let w :=
    Home.persistIfSession (Home.sessionId st)
      (StoredMessage.mk uuid user text None None None None now)
      (Home.mkState (Home.messages st ++ [userMessage; loading]) (Home.sessionId st)
                    (Home.storedSessions st) EmptyString, b) in
  Home.handleSubmit agent uuid now st b =
  match agent with
  | None =>
      (Home.setMessages
         (fun prev =>
            prev ++ [Home.plainMessage (uuid +:+ "-missing-agent") system
                                       Home.missingAgentText (Some Variant.callout)])
         w.1, w.2, None)
  | Some agent_url =>
      (w.1, w.2,
       Some (Home.mkPending userMessage (uuid +:+ "-loading") (Home.messages st)
               (Home.sessionId st)
               (Home.mkRequest agent_url (toAgentMessages (Home.messages st ++ [userMessage]))
                  (if Home.truthy (Home.sessionId st) then Home.sessionId st else None))))
  end.
Proof.
  intros Hblank. unfold Home.handleSubmit.
  rewrite (trim_not_blank _ Hblank). cbn -[getLoadingMessage].
  unfold Home.setMessages, Home.setInput; cbn -[getLoadingMessage].
  rewrite <- app_assoc. reflexivity.
Qed.

Lemma persistIfSession_messages (sid : option string) (m : StoredMessage.t)
    (w : Home.state * Browser.t) :
  Home.messages (Home.persistIfSession sid m w).1 = Home.messages w.1 /\
  Home.sessionId (Home.persistIfSession sid m w).1 = Home.sessionId w.1 /\
  Home.input (Home.persistIfSession sid m w).1 = Home.input w.1.
Proof.
  unfold Home.persistIfSession, Home.setStoredSessions.
  destruct sid as [c|]; [|done]. destruct (JSString.truthy c); [|done].
  by destruct (Home.persistUserMessage _ _ _ _).
Qed.



(** The three ways the first store update goes. *)
Lemma persistUserMessage_cases (c : string) (m : StoredMessage.t)
    (prev : list StoredSession.t) (b : Browser.t) :
  let found :=
    List.find (fun session => JSString.eqb (StoredSession.sessionId session) c) prev in
  let has_message (s : StoredSession.t) :=
    existsb (fun message => JSString.eqb (StoredMessage.id message) (StoredMessage.id m))
            (StoredSession.messages s) in
  (found = None /\ Home.persistUserMessage c m prev b = (prev, b)) \/
  (exists existing, found = Some existing /\ has_message existing = true /\
     Home.persistUserMessage c m prev b = (prev, b)) \/
  (exists existing, found = Some existing /\ has_message existing = false /\
     let updatedSession :=
       StoredSession.mk (StoredSession.sessionId existing) (StoredSession.title existing)
         (StoredSession.messages existing ++ [m]) (StoredSession.createdAt existing)
         (StoredMessage.createdAt m) in
     let nextSessions :=
       sortSessionsByUpdated
         (map (fun session =>
                 if JSString.eqb (StoredSession.sessionId session) c
                 then updatedSession else session) prev) in
     Home.persistUserMessage c m prev b = (nextSessions, writeStoredSessions nextSessions b)).
Proof.
  intros found has_message. unfold Home.persistUserMessage. subst found has_message.
  destruct (List.find _ prev) as [existing|] eqn:Hfind; [|by left].
  destruct (existsb _ (StoredSession.messages existing)) eqn:Hex.
  - right; left. by exists existing.
  - right; right. by exists existing.
Qed.


(** What the [catch] block of the handler leaves. *)
Lemma handleResponse_failed (p : Home.pending) (r : Home.fetched) (now : string)
    (st : Home.state) (b : Browser.t) :
  Home.failed r = true ->
  Home.messages (Home.handleResponse p r now st b).1 =
    List.filter (Home.keepExcept (Home.loadingMessageId p)) (Home.messages st) ++
    [Home.plainMessage (ChatMessage.id (Home.userMessage p) +:+ "-error") system
                       Home.unreachableText (Some Variant.callout)] /\
  Home.storedSessions (Home.handleResponse p r now st b).1 = Home.storedSessions st /\
  (Home.handleResponse p r now st b).2 = Browser.log "Street Bot request failed" b.
Proof.
  destruct r as [| | | sid |]; try discriminate; intros _; try done.
  simpl. by destruct (Home.truthy sid).
Qed.

End HandlerFacts.

(** ** Properties of the chat controller *)

Section ControllerProperties.
Context {P : Platform}.

(** C10. Submitting an input that is empty or made of white space only
    (the white space that [trim] removes: the space, the no-break space,
    the tabulators, the line ends, the space separators of Unicode and the
    byte order mark) does nothing: the handler returns the state it was
    given (messages, session id, stored sessions and input), leaves the
    browser storage and console as they were, and sends no request; no
    user message and no placeholder is appended. *)
Theorem C10_blank_submit_is_noop
    (agent : option string) (uuid now : string) (st : Home.state) (b : Browser.t) :
  JSString.blank (Home.input st) = true \/ JSString.trim (Home.input st) = EmptyString ->
  Home.handleSubmit agent uuid now st b = (st, b, None).
Proof.
  intros Hblank.
  assert (Htrim : JSString.trim (Home.input st) = EmptyString)
    by (destruct Hblank as [Hb|Ht]; [by apply trim_blank|done]).
  unfold Home.handleSubmit. by rewrite Htrim.
Qed.

(** *** Submitting without an agent *)


(** *** A remote call that fails *)





(** *** A successful turn on an existing session *)

(** C2 fails on the code.  The conversation of session [abc] is open, the
    store holds that session with one message, "I need food" is submitted
    and the agent answers with one message for the same session.  The
    submission has appended the user message [u1] to the stored session;
    the merge of the response appends it again, so the stored session ends
    with the ids [m0], [u1], [u1], [u1-assistant-0], which are not
    pairwise distinct. *)
Theorem C2_user_message_stored_twice :
  map (fun s => (StoredSession.sessionId s, map StoredMessage.id (StoredSession.messages s)))
      Example.store_after_turn
    = [("abc", ["m0"; "u1"; "u1"; "u1-assistant-0"])] /\
  ~ Forall (fun s => NoDup (map StoredMessage.id (StoredSession.messages s)))
           Example.store_after_turn.
Proof.
  assert (H : map (fun s => (StoredSession.sessionId s,
                             map StoredMessage.id (StoredSession.messages s)))
                  Example.store_after_turn
              = [("abc", ["m0"; "u1"; "u1"; "u1-assistant-0"])])
    by (vm_compute; reflexivity).
  split; [exact H|].
  destruct Example.store_after_turn as [|s [|s' l]]; try discriminate H.
  injection H as _ Hids. intros Hnd. apply Forall_inv in Hnd. rewrite Hids in Hnd.
  apply NoDup_cons_1_2, NoDup_cons_1_1 in Hnd. apply Hnd. by left.
Qed.

End ControllerProperties.

Section ControllerExamples.
#[local] Existing Instance Example.platform.

(** White space only: spaces, and the no-break space, the em space and
    the byte order mark (the code units 160, 8195 and 65279). *)
Lemma C10_blank_submit_is_noop_witness :
  let b := Browser.mk true true None ∅ [] in
  (let st := Home.mkState [] None [] "   " in
   Home.handleSubmit (Some "http://localhost:8000/agui/run-agent") "id-1"
                     "2024-03-05T12:00:00.000Z" st b = (st, b, None)) /\
  (let st := Home.mkState [] None []
               (String 160 (String 8195 (String 65279 EmptyString))) in
   Home.handleSubmit (Some "http://localhost:8000/agui/run-agent") "id-1"
                     "2024-03-05T12:00:00.000Z" st b = (st, b, None)).
Proof.
  intros b. split; intros st.
  - apply (@C10_blank_submit_is_noop Example.platform _ _ _ st b). left. reflexivity.
  - apply (@C10_blank_submit_is_noop Example.platform _ _ _ st b). left. reflexivity.
Defined.





End ControllerExamples.

(** * Further properties *)

(** ** Titles and placeholders *)

Section StoreExtras.
Context {P : Platform}.

Lemma take_length (n : nat) (s : string) : (JSString.length (JSString.take n s) <= n)%nat.
Proof.
  revert s. induction n as [|n IH]; intros [|c s]; simpl; try lia.
  specialize (IH s). lia.
Qed.

Lemma truthy_length (s : string) : JSString.truthy s = true <-> (0 < JSString.length s)%nat.
Proof. destruct s; simpl; split; (done || lia). Qed.

Lemma take_length_exact (n : nat) (s : string) :
  (n <= JSString.length s)%nat -> JSString.length (JSString.take n s) = n.
Proof.
  revert s. induction n as [|n IH]; intros [|c s]; simpl; try lia.
  intros Hn. rewrite IH; lia.
Qed.

(** X1.  The title of a new session is never empty and never longer than 48
    UTF-16 code units, whatever the first message: a blank message gives
    "Untitled chat", a trimmed message of up to 48 code units is taken as
    it is, and of a longer one the first 45 code units are kept, followed
    by an ellipsis, 46 code units in all. *)
Theorem getDefaultSessionTitle_bounds (message : string) :
  JSString.truthy (getDefaultSessionTitle message) = true /\
  (JSString.length (getDefaultSessionTitle message) <= 48)%nat /\
  (JSString.blank message = true -> getDefaultSessionTitle message = "Untitled chat") /\
  (JSString.blank message = false ->
   (JSString.length (JSString.trim message) <= 48)%nat ->
   getDefaultSessionTitle message = JSString.trim message) /\
  ((48 < JSString.length (JSString.trim message))%nat ->
   getDefaultSessionTitle message = JSString.take 45 (JSString.trim message) +:+ "…" /\
   JSString.length (getDefaultSessionTitle message) = 46%nat).
Proof.
  unfold getDefaultSessionTitle.
  destruct (JSString.blank message) eqn:Hblank.
  - rewrite (trim_blank _ Hblank). simpl.
    repeat split; intros; simpl in *; try done; lia.
  - pose proof (trim_not_blank _ Hblank) as Htruthy. rewrite Htruthy. cbn [negb].
    destruct (JSString.length (JSString.trim message) <=? 48)%nat eqn:Hlen.
    + apply Nat.leb_le in Hlen. repeat split; intros; try done; lia.
    + apply Nat.leb_gt in Hlen.
      pose proof (take_length_exact 45 (JSString.trim message) ltac:(lia)) as Htake.
      assert (Hell : JSString.length "…" = 1%nat) by reflexivity.
      split; [apply truthy_length; rewrite length_append, Hell; lia|].
      split; [rewrite length_append, Hell; lia|].
      split; [done|]. split; [intros; lia|]. intros _. split; [done|].
      rewrite length_append, Hell. lia.
Qed.

Lemma find_In {A} (f : A -> bool) (l : list A) (x : A) :
  List.find f l = Some x -> In x l /\ f x = true.
Proof. apply List.find_some. Qed.

(** X2.  The loading placeholder is always one of the thirteen fixed texts
    (the nine of the keyword groups and the four generic ones), so it is
    never empty. *)
Theorem getLoadingMessage_fixed_texts (text : string) :
  In (getLoadingMessage text)
     (map LoadingSpec.message LoadingSpec.groups ++ defaultMessages) /\
  JSString.truthy (getLoadingMessage text) = true.
Proof.
  assert (Hin : In (getLoadingMessage text)
                   (map LoadingSpec.message LoadingSpec.groups ++ defaultMessages)).
  { rewrite getLoadingMessage_select. unfold LoadingSpec.select.
    destruct (List.find _ _) as [g|] eqn:Hfind.
    - apply in_or_app. left. apply in_map. by apply find_In in Hfind as [? _].
    - apply in_or_app. right. apply nth_In.
      change (length defaultMessages) with 4%nat.
      by apply Nat.mod_upper_bound. }
  split; [exact Hin|].
  revert Hin. generalize (getLoadingMessage text). intros s Hs.
  simpl in Hs. repeat (destruct Hs as [<- | Hs]; [reflexivity|]). contradiction.
Qed.

(** ** [upsertSession] as an insertion into a store *)

Lemma upsertSession_nil (session : StoredSession.t) : upsertSession [] session = [session].
Proof. reflexivity. Qed.

Lemma upsertSession_cons (x : StoredSession.t) (l : list StoredSession.t)
    (session : StoredSession.t) :
  upsertSession (x :: l) session =
  if JSString.eqb (StoredSession.sessionId x) (StoredSession.sessionId session)
  then session :: l else x :: upsertSession l session.
Proof.
  unfold upsertSession. simpl.
  destruct (JSString.eqb _ _); [reflexivity|].
  by destruct (JSArray.findIndex _ l).
Qed.

Lemma upsertSession_find_self (sessions : list StoredSession.t) (session : StoredSession.t) :
  List.find (fun item => JSString.eqb (StoredSession.sessionId item)
                                    (StoredSession.sessionId session))
            (upsertSession sessions session) = Some session.
Proof.
  induction sessions as [|x l IH].
  - simpl. by rewrite string_eqb_refl.
  - rewrite upsertSession_cons.
    destruct (JSString.eqb (StoredSession.sessionId x) (StoredSession.sessionId session)) eqn:Hx.
    + simpl. by rewrite string_eqb_refl.
    + simpl. by rewrite Hx.
Qed.

Lemma upsertSession_find_other (sessions : list StoredSession.t) (session : StoredSession.t)
    (id : string) :
  id <> StoredSession.sessionId session ->
  List.find (fun item => JSString.eqb (StoredSession.sessionId item) id)
            (upsertSession sessions session) =
  List.find (fun item => JSString.eqb (StoredSession.sessionId item) id) sessions.
Proof.
  intros Hid. assert (Hs : JSString.eqb (StoredSession.sessionId session) id = false)
    by (apply string_eqb_neq; congruence).
  induction sessions as [|x l IH].
  - simpl. by rewrite Hs.
  - rewrite upsertSession_cons.
    destruct (JSString.eqb (StoredSession.sessionId x) (StoredSession.sessionId session)) eqn:Hx.
    + apply string_eqb_eq in Hx. simpl. rewrite Hs.
      assert (Hxid : JSString.eqb (StoredSession.sessionId x) id = false)
        by (apply string_eqb_neq; congruence).
      by rewrite Hxid.
    + simpl. destruct (JSString.eqb (StoredSession.sessionId x) id); [done|exact IH].
Qed.

Lemma upsertSession_idempotent (sessions : list StoredSession.t) (session : StoredSession.t) :
  upsertSession (upsertSession sessions session) session = upsertSession sessions session.
Proof.
  induction sessions as [|x l IH].
  - rewrite upsertSession_nil, upsertSession_cons. by rewrite string_eqb_refl.
  - rewrite upsertSession_cons.
    destruct (JSString.eqb (StoredSession.sessionId x) (StoredSession.sessionId session)) eqn:Hx.
    + rewrite upsertSession_cons. by rewrite string_eqb_refl.
    + rewrite upsertSession_cons, Hx. by rewrite IH.
Qed.

Lemma upsertSession_length (sessions : list StoredSession.t) (session : StoredSession.t) :
  length (upsertSession sessions session) =
  if decide (StoredSession.sessionId session ∈ map StoredSession.sessionId sessions)
  then length sessions else S (length sessions).
Proof.
  pose proof (upsertSession_ids sessions session) as Hids.
  apply (f_equal length) in Hids. rewrite length_map in Hids. rewrite Hids.
  case_decide; rewrite ?length_app, length_map; simpl; lia.
Qed.

(** X3.  [upsertSession] is the insertion of a store keyed by [sessionId]:
    looking the session up by its id afterwards finds it, looking another
    id up finds what was found before, upserting the same session again
    changes nothing, and the store grows by one exactly when the id was
    not in it. *)
Theorem upsertSession_store (sessions : list StoredSession.t) (session : StoredSession.t) :
  List.find (fun item => JSString.eqb (StoredSession.sessionId item)
                                    (StoredSession.sessionId session))
            (upsertSession sessions session) = Some session /\
  (forall id, id <> StoredSession.sessionId session ->
     List.find (fun item => JSString.eqb (StoredSession.sessionId item) id)
               (upsertSession sessions session) =
     List.find (fun item => JSString.eqb (StoredSession.sessionId item) id) sessions) /\
  upsertSession (upsertSession sessions session) session = upsertSession sessions session /\
  length (upsertSession sessions session) =
    (if decide (StoredSession.sessionId session ∈ map StoredSession.sessionId sessions)
     then length sessions else S (length sessions)).
Proof.
  split; [apply upsertSession_find_self|].
  split; [intros id Hid; by apply upsertSession_find_other|].
  split; [apply upsertSession_idempotent|apply upsertSession_length].
Qed.

(** ** [sortSessionsByUpdated] as a normal form *)

Lemma insert_front {A} (compareFn : A -> A -> Z) (x : A) (l : list A) :
  Forall (fun y => compareFn x y <= 0) l -> JSArray.insert compareFn x l = x :: l.
Proof.
  destruct 1 as [|y l Hy _]; simpl; [done|].
  destruct (0 <? compareFn x y) eqn:Hc; [|done]. apply Z.ltb_lt in Hc. lia.
Qed.

Lemma sort_sorted_id (l : list StoredSession.t) :
  Forall validUpdatedAt l ->
  StronglySorted (fun a b => updatedTime b <= updatedTime a) l ->
  sortSessionsByUpdated l = l.
Proof.
  intros Hvalid Hsorted. unfold sortSessionsByUpdated.
  induction Hsorted as [|x l Hsorted IH Hx]; [done|].
  inversion Hvalid as [|? ? Vx Vl]; subst. simpl.
  fold (JSArray.sort byUpdatedDescending l). rewrite (IH Vl).
  apply insert_front. rewrite Forall_forall in Hx, Vl |- *.
  intros y Hy. rewrite byUpdatedDescending_valid by auto. specialize (Hx y Hy). lia.
Qed.

Lemma sortSessionsByUpdated_valid (l : list StoredSession.t) :
  Forall validUpdatedAt l -> Forall validUpdatedAt (sortSessionsByUpdated l).
Proof. intros H. unfold sortSessionsByUpdated. by rewrite sort_Permutation. Qed.

Lemma sortSessionsByUpdated_sorted (l : list StoredSession.t) :
  Forall validUpdatedAt l ->
  StronglySorted (fun a b => updatedTime b <= updatedTime a) (sortSessionsByUpdated l).
Proof.
  apply (sort_descending _ updatedTime validUpdatedAt byUpdatedDescending_valid).
Qed.

(** X4.  Sorting loses and invents nothing (the result is a permutation of the
    input, whatever the timestamps); it leaves a list that is already in
    descending order of [updatedAt] as it is; and sorting twice is sorting
    once. *)
Theorem sortSessionsByUpdated_normal_form (sessions : list StoredSession.t) :
  sortSessionsByUpdated sessions ≡ₚ sessions /\
  length (sortSessionsByUpdated sessions) = length sessions /\
  (Forall validUpdatedAt sessions ->
   StronglySorted (fun a b => updatedTime b <= updatedTime a) sessions ->
   sortSessionsByUpdated sessions = sessions) /\
  (Forall validUpdatedAt sessions ->
   sortSessionsByUpdated (sortSessionsByUpdated sessions) = sortSessionsByUpdated sessions).
Proof.
  assert (Hperm : sortSessionsByUpdated sessions ≡ₚ sessions) by apply sort_Permutation.
  split; [exact Hperm|]. split; [by rewrite Hperm|].
  split; [apply sort_sorted_id|].
  intros Hvalid. apply sort_sorted_id.
  - by apply sortSessionsByUpdated_valid.
  - by apply sortSessionsByUpdated_sorted.
Qed.

(** ** The groups of the sidebar list the most recent session first *)

Lemma StronglySorted_filter {A} (R : A -> A -> Prop) (Q : A -> Prop)
    `{forall x, Decision (Q x)} (l : list A) :
  StronglySorted R l -> StronglySorted R (filter Q l).
Proof.
  induction 1 as [|x l Hs IH Hx]; [constructor|].
  rewrite filter_cons. case_decide; [|exact IH].
  constructor; [exact IH|]. rewrite Forall_forall in Hx |- *.
  intros y Hy. apply list_elem_of_filter in Hy as [_ Hy]. by apply Hx.
Qed.

(** X5.  Bucketing the sorted store keeps the order: within today, yesterday,
    the last seven days and every month the sessions stand most recently
    updated first. *)
Theorem bucketSessions_sorted (now : Z) (sessions : list StoredSession.t)
    (b : Bucket) :
  Forall validUpdatedAt sessions ->
  StronglySorted (fun x y => updatedTime y <= updatedTime x)
    (members (bucketSessions now (sortSessionsByUpdated sessions)) b).
Proof.
  intros Hvalid.
  destruct (fold_bucketSession now (sortSessionsByUpdated sessions)
              (SessionHistoryBuckets.mk [] [] [] ∅)) as (Hmembers & _ & _).
  unfold bucketSessions. rewrite Hmembers.
  replace (members (SessionHistoryBuckets.mk [] [] [] ∅) b) with (@nil StoredSession.t)
    by (destruct b; simpl; try done; by rewrite lookup_empty).
  simpl. apply StronglySorted_filter. by apply sortSessionsByUpdated_sorted.
Qed.

End StoreExtras.

Section StoreExtrasExamples.
#[local] Existing Instance Example.platform.

(** A blank message, a short message, and thirty letters beyond ASCII,
    which are thirty code units. *)
Lemma getDefaultSessionTitle_bounds_witness :
  getDefaultSessionTitle "   " = "Untitled chat" /\
  getDefaultSessionTitle "  I need food " = "I need food" /\
  getDefaultSessionTitle "éééééééééééééééééééééééééééééé" = "éééééééééééééééééééééééééééééé".
Proof.
  split; [|split].
  - apply (getDefaultSessionTitle_bounds "   "). reflexivity.
  - apply (getDefaultSessionTitle_bounds "  I need food "); [reflexivity|].
    vm_compute. lia.
  - apply (getDefaultSessionTitle_bounds "éééééééééééééééééééééééééééééé"); [reflexivity|].
    vm_compute. lia.
Defined.

Lemma upsertSession_store_witness :
  List.find (fun item => JSString.eqb (StoredSession.sessionId item) "abc")
            (upsertSession [Example.session0] (Example.updated "xyz" "2024-03-05T00:00:00.000Z"))
  = Some Example.session0.
Proof.
  destruct (upsertSession_store [Example.session0]
              (Example.updated "xyz" "2024-03-05T00:00:00.000Z")) as (_ & Hother & _).
  rewrite Hother; [reflexivity|discriminate].
Defined.

Lemma sortSessionsByUpdated_normal_form_witness :
  sortSessionsByUpdated (sortSessionsByUpdated Example.history_dated) =
  sortSessionsByUpdated Example.history_dated.
Proof.
  apply (sortSessionsByUpdated_normal_form Example.history_dated).
  repeat constructor; by eexists.
Defined.

Lemma bucketSessions_sorted_witness :
  StronglySorted (fun x y => updatedTime y <= updatedTime x)
    (members (bucketSessions Example.noon (sortSessionsByUpdated Example.history_dated))
             Yesterday).
Proof.
  apply bucketSessions_sorted. repeat constructor; by eexists.
Defined.

End StoreExtrasExamples.

(** ** Further properties of the submit handler *)

Section HandlerExtras.
Context {P : Platform}.

(** X6.  The first store update is safe to run twice: run again on its own
    result, with the same message, it changes neither the sessions nor the
    browser.  It keeps the number of sessions and their ids, and every
    session of another id is in the store afterwards exactly when it was
    before. *)
Theorem persistUserMessage_idempotent (c : string) (m : StoredMessage.t)
    (prev : list StoredSession.t) (b b' : Browser.t) :
  let next := (Home.persistUserMessage c m prev b).1 in
  Home.persistUserMessage c m next b' = (next, b') /\
  length next = length prev /\
  map StoredSession.sessionId next ≡ₚ map StoredSession.sessionId prev /\
  (forall s, StoredSession.sessionId s <> c -> s ∈ next <-> s ∈ prev).
Proof.
  intros next. subst next.
  destruct (persistUserMessage_cases c m prev b)
    as [[Hnone ->]|[(existing & Hfind & Hhas & ->)|(existing & Hfind & Hhas & ->)]];
    cbn [fst].
  - split; [|done]. unfold Home.persistUserMessage. by rewrite Hnone.
  - split; [|done]. unfold Home.persistUserMessage. by rewrite Hfind, Hhas.
  - apply find_Some_elem in Hfind as [Hin Hid]. apply string_eqb_eq in Hid.
    set (u := StoredSession.mk _ _ _ _ _).
    set (replaced := map _ prev).
    assert (Hu : StoredSession.sessionId u = c) by done.
    assert (Hperm : sortSessionsByUpdated replaced ≡ₚ replaced) by apply sort_Permutation.
    assert (Hrep : forall s, s ∈ replaced <->
              (s = u /\ c ∈ map StoredSession.sessionId prev) \/
              (s ∈ prev /\ StoredSession.sessionId s <> c))
      by (intros s; apply (replaced_elem c u prev s Hu)).
    split; [|split; [|split]].
    + assert (Huin : u ∈ sortSessionsByUpdated replaced).
      { rewrite Hperm. apply Hrep. left. split; [done|].
        apply list_elem_of_fmap. by exists existing. }
      destruct (find_is_Some
                  (fun session => JSString.eqb (StoredSession.sessionId session) c)
                  _ u Huin) as [y Hy]; [by apply string_eqb_eq|].
      unfold Home.persistUserMessage. rewrite Hy.
      apply find_Some_elem in Hy as [Hyin Hyc]. apply string_eqb_eq in Hyc.
      rewrite Hperm in Hyin. apply Hrep in Hyin as [[-> _]|[_ Hne]];
        [|done].
      subst u. cbn [StoredSession.messages]. rewrite existsb_app. simpl.
      by rewrite string_eqb_refl, orb_true_r.
    + rewrite Hperm. subst replaced. by rewrite length_map.
    + rewrite Hperm. subst replaced. by rewrite (replaced_ids c u prev Hu).
    + intros s Hs. rewrite Hperm, Hrep. split.
      * intros [[-> _]|[? _]]; [done|done].
      * intros ?. by right.
Qed.

(** *** The slot follows the stored sessions *)

Lemma writeStoredSessions_browser (next : list StoredSession.t) (b : Browser.t) :
  let b' := writeStoredSessions next b in
  Browser.hasWindow b' = Browser.hasWindow b /\
  Browser.storageReachable b' = Browser.storageReachable b /\
  Browser.quota b' = Browser.quota b /\
  (forall key, key <> LOCAL_STORAGE_KEY -> Browser.items b' !! key = Browser.items b !! key).
Proof.
  unfold writeStoredSessions, Browser.removeItem, Browser.setItem.
  destruct (Browser.hasWindow b) eqn:Hw; simpl; [|done].
  destruct next as [|s next].
  - destruct (Browser.storageReachable b) eqn:Hr; simpl; repeat split; try done.
    intros key Hkey. by rewrite lookup_delete_ne.
  - destruct (Browser.storageReachable b && Browser.within_quota b _) eqn:Hr; simpl;
      repeat split; try done.
    intros key Hkey. by rewrite lookup_insert_ne.
Qed.

Lemma writeStoredSessions_mirrors (next : list StoredSession.t) (b : Browser.t) :
  storageWorks b -> slotMirrors next (writeStoredSessions next b).
Proof.
  intros (Hw & Hr & Hq). unfold slotMirrors, writeStoredSessions.
  unfold Browser.removeItem, Browser.setItem, Browser.within_quota. rewrite Hw, Hr, Hq. simpl.
  destruct next as [|s next]; simpl.
  - by rewrite lookup_delete_eq.
  - by rewrite lookup_insert_eq.
Qed.

Lemma storageWorks_same (b b' : Browser.t) :
  Browser.hasWindow b' = Browser.hasWindow b ->
  Browser.storageReachable b' = Browser.storageReachable b ->
  Browser.quota b' = Browser.quota b ->
  storageWorks b -> storageWorks b'.
Proof. unfold storageWorks. intros -> -> ->. done. Qed.

Lemma writeStoredSessions_works (next : list StoredSession.t) (b : Browser.t) :
  storageWorks b -> storageWorks (writeStoredSessions next b).
Proof.
  destruct (writeStoredSessions_browser next b) as (Hw & Hr & Hq & _).
  by apply storageWorks_same.
Qed.

Lemma persistUserMessage_writes (c : string) (m : StoredMessage.t)
    (prev : list StoredSession.t) (b : Browser.t) :
  Home.persistUserMessage c m prev b = (prev, b) \/
  (Home.persistUserMessage c m prev b).2 =
    writeStoredSessions (Home.persistUserMessage c m prev b).1 b.
Proof.
  destruct (persistUserMessage_cases c m prev b)
    as [[_ ->]|[(existing & _ & _ & ->)|(existing & _ & _ & ->)]]; auto.
Qed.

Lemma mergeResponse_writes (p : Home.pending) (sid : option string)
    (assistantMessages : list ChatMessage.t) (now : string)
    (prev : list StoredSession.t) (b : Browser.t) :
  Home.mergeResponse p sid assistantMessages now prev b = (prev, b) \/
  (Home.mergeResponse p sid assistantMessages now prev b).2 =
    writeStoredSessions (Home.mergeResponse p sid assistantMessages now prev b).1 b.
Proof.
  unfold Home.mergeResponse. destruct sid as [newId|]; [|by left].
  destruct (JSString.truthy newId); simpl; [by right|by left].
Qed.

(** What holds of the browser before a store update of the handler holds
    after it, when it is kept by a write of the sessions and, for the
    slot, established by it. *)
Lemma setStoredSessions_mirrors
    (updater : list StoredSession.t -> Browser.t -> list StoredSession.t * Browser.t)
    (w : Home.state * Browser.t) :
  (forall prev b, updater prev b = (prev, b) \/
                  (updater prev b).2 = writeStoredSessions (updater prev b).1 b) ->
  storageWorks w.2 -> slotMirrors (Home.storedSessions w.1) w.2 ->
  storageWorks (Home.setStoredSessions updater w).2 /\
  slotMirrors (Home.storedSessions (Home.setStoredSessions updater w).1)
              (Home.setStoredSessions updater w).2.
Proof.
  intros Hupd Hworks Hslot. unfold Home.setStoredSessions.
  destruct (Hupd (Home.storedSessions w.1) w.2) as [->|Hwrite]; [done|].
  destruct (updater _ _) as [next b'] eqn:Hu. simpl in *. subst b'.
  split; [by apply writeStoredSessions_works|by apply writeStoredSessions_mirrors].
Qed.

Lemma setStoredSessions_frame
    (updater : list StoredSession.t -> Browser.t -> list StoredSession.t * Browser.t)
    (w : Home.state * Browser.t) (key : string) :
  (forall prev b, updater prev b = (prev, b) \/
                  (updater prev b).2 = writeStoredSessions (updater prev b).1 b) ->
  key <> LOCAL_STORAGE_KEY ->
  Browser.items (Home.setStoredSessions updater w).2 !! key = Browser.items w.2 !! key.
Proof.
  intros Hupd Hkey. unfold Home.setStoredSessions.
  destruct (Hupd (Home.storedSessions w.1) w.2) as [->|Hwrite]; [done|].
  destruct (updater _ _) as [next b'] eqn:Hu. simpl in *. subst b'.
  by apply writeStoredSessions_browser.
Qed.

Lemma persistIfSession_mirrors (sid : option string) (m : StoredMessage.t)
    (w : Home.state * Browser.t) :
  storageWorks w.2 -> slotMirrors (Home.storedSessions w.1) w.2 ->
  storageWorks (Home.persistIfSession sid m w).2 /\
  slotMirrors (Home.storedSessions (Home.persistIfSession sid m w).1)
              (Home.persistIfSession sid m w).2.
Proof.
  intros Hworks Hslot. unfold Home.persistIfSession.
  destruct sid as [c|]; [|done]. destruct (JSString.truthy c); [|done].
  apply setStoredSessions_mirrors; [|done..]. intros prev b.
  apply persistUserMessage_writes.
Qed.

Lemma persistIfSession_frame (sid : option string) (m : StoredMessage.t)
    (w : Home.state * Browser.t) (key : string) :
  key <> LOCAL_STORAGE_KEY ->
  Browser.items (Home.persistIfSession sid m w).2 !! key = Browser.items w.2 !! key.
Proof.
  intros Hkey. unfold Home.persistIfSession.
  destruct sid as [c|]; [|done]. destruct (JSString.truthy c); [|done].
  apply setStoredSessions_frame; [|done]. intros prev b.
  apply persistUserMessage_writes.
Qed.

Lemma handleSubmit_browser (agent : option string) (uuid now : string)
    (st : Home.state) (b : Browser.t) :
  Home.handleSubmit agent uuid now st b = (st, b, None) \/
  exists (m : StoredMessage.t) (w : Home.state * Browser.t),
    w.2 = b /\ Home.storedSessions w.1 = Home.storedSessions st /\
    (Home.handleSubmit agent uuid now st b).1.2 =
      (Home.persistIfSession (Home.sessionId st) m w).2 /\
    Home.storedSessions (Home.handleSubmit agent uuid now st b).1.1 =
      Home.storedSessions (Home.persistIfSession (Home.sessionId st) m w).1.
Proof.
  unfold Home.handleSubmit.
  destruct (negb (JSString.truthy (JSString.trim (Home.input st)))); [by left|].
  right. eexists _, (_, b). cbn [fst snd].
  split; [reflexivity|]. split; [|destruct agent; split; reflexivity]. reflexivity.
Qed.

(** X7.  When the session storage takes every write, the submit handler keeps
    the slot in step with the stored sessions: if the slot holds the text
    of the stored sessions (nothing when there are none) before a
    submission, or before the outcome of the remote call is handled, it
    does so afterwards, whatever the agent, the input and the outcome. *)
Theorem handler_keeps_slot_in_step
    (agent : option string) (uuid now now' : string) (p : Home.pending) (r : Home.fetched)
    (st : Home.state) (b : Browser.t) :
  storageWorks b -> slotMirrors (Home.storedSessions st) b ->
  let submitted := Home.handleSubmit agent uuid now st b in
  let answered := Home.handleResponse p r now' st b in
  (storageWorks submitted.1.2 /\
   slotMirrors (Home.storedSessions submitted.1.1) submitted.1.2) /\
  (storageWorks answered.2 /\ slotMirrors (Home.storedSessions answered.1) answered.2).
Proof.
  intros Hworks Hslot submitted answered. split.
  - subst submitted.
    destruct (handleSubmit_browser agent uuid now st b)
      as [->|(m & w & Hb & Hstore & -> & ->)]; [done|].
    apply persistIfSession_mirrors; [by rewrite Hb|by rewrite Hb, Hstore].
  - subst answered. destruct (Home.failed r) eqn:Hfailed.
    { destruct (handleResponse_failed p r now' st b Hfailed) as (_ & -> & ->).
      split; [by apply (storageWorks_same b)|exact Hslot]. }
    destruct r as [| | | sid |payload]; try discriminate.
    unfold Home.handleResponse. apply setStoredSessions_mirrors; [|done|].
    + intros prev b0. apply mergeResponse_writes.
    + cbn [fst snd]. by destruct (Home.truthy _).
Qed.

(** X8.  The handler writes to one key of the session storage only: every
    other key holds after a submission, and after the outcome of the remote
    call has been handled, what it held before, whether the storage can be
    reached or not and whether it takes the write or not. *)
Theorem handler_touches_one_key
    (agent : option string) (uuid now now' : string) (p : Home.pending) (r : Home.fetched)
    (st : Home.state) (b : Browser.t) (key : string) :
  key <> LOCAL_STORAGE_KEY ->
  Browser.items (Home.handleSubmit agent uuid now st b).1.2 !! key = Browser.items b !! key /\
  Browser.items (Home.handleResponse p r now' st b).2 !! key = Browser.items b !! key.
Proof.
  intros Hkey. split.
  - destruct (handleSubmit_browser agent uuid now st b)
      as [->|(m & w & Hb & _ & -> & _)]; [done|].
    rewrite <- Hb. by apply persistIfSession_frame.
  - destruct (Home.failed r) eqn:Hfailed.
    { by destruct (handleResponse_failed p r now' st b Hfailed) as (_ & _ & ->). }
    destruct r as [| | | sid |payload]; try discriminate.
    unfold Home.handleResponse.
    rewrite setStoredSessions_frame; [done| |done].
    intros prev b0. apply mergeResponse_writes.
Qed.

(** *** The messages of a reply *)

Lemma mapi_from_length {A B} (f : A -> nat -> B) (i : nat) (l : list A) :
  length (JSArray.mapi_from f i l) = length l.
Proof. revert i. induction l as [|x l IH]; intros i; simpl; [done|]. by rewrite IH. Qed.

Lemma mapi_from_ids (um : ChatMessage.t) (i : nat) (l : list AgentUGIResponseMessage.t) :
  map ChatMessage.id (JSArray.mapi_from (Home.toAssistantMessage um) i l) =
  map (fun k => ChatMessage.id um +:+ "-assistant-" +:+ JSString.of_int (Z.of_nat k))
      (seq i (length l)).
Proof.
  revert i. induction l as [|x l IH]; intros i; simpl; [done|]. by rewrite IH.
Qed.

Lemma mapi_from_Forall {A B} (f : A -> nat -> B) (Q : B -> Prop) (i : nat) (l : list A) :
  (forall x k, Q (f x k)) -> Forall Q (JSArray.mapi_from f i l).
Proof.
  intros Hf. revert i. induction l as [|x l IH]; intros i; simpl; constructor; auto.
Qed.

(** X9.  The messages the handler makes of a reply: as many as the reply has,
    numbered from 0 behind the id of the user message, so that their ids
    differ from each other and from the ids of the user message, of the
    placeholder and of the two notices of that submission; none has the
    role system, whatever role the reply names. *)
Theorem assistantMessages_ids (um : ChatMessage.t) (l : list AgentUGIResponseMessage.t) :
  let assistantMessages := JSArray.mapi (Home.toAssistantMessage um) l in
  length assistantMessages = length l /\
  map ChatMessage.id assistantMessages =
    map (fun k => ChatMessage.id um +:+ "-assistant-" +:+ JSString.of_int (Z.of_nat k))
        (seq 0 (length l)) /\
  NoDup (map ChatMessage.id assistantMessages) /\
  Forall (fun m =>
            ChatMessage.role m <> system /\
            ChatMessage.id m <> ChatMessage.id um /\
            ChatMessage.id m <> ChatMessage.id um +:+ "-loading" /\
            ChatMessage.id m <> ChatMessage.id um +:+ "-error" /\
            ChatMessage.id m <> ChatMessage.id um +:+ "-missing-agent")
         assistantMessages.
Proof.
  intros assistantMessages. subst assistantMessages. unfold JSArray.mapi.
  split; [apply mapi_from_length|]. split; [apply mapi_from_ids|]. split.
  - rewrite mapi_from_ids. apply NoDup_fmap_2; [|apply NoDup_seq].
    intros a c Heq. apply append_inj_r, append_inj_r, of_int_inj in Heq. lia.
  - apply mapi_from_Forall. intros x k. cbn [Home.toAssistantMessage ChatMessage.role ChatMessage.id].
    split; [by repeat case_match|].
    repeat split; intros Heq.
    + symmetry in Heq. apply string_eqb_eq in Heq.
      rewrite append_nonempty_neq in Heq; [done|discriminate].
    + by apply append_inj_r in Heq.
    + by apply append_inj_r in Heq.
    + by apply append_inj_r in Heq.
Qed.

(** *** A reply that names its session *)

Lemma upsertSession_other (sessions : list StoredSession.t) (session s : StoredSession.t) :
  StoredSession.sessionId s <> StoredSession.sessionId session ->
  s ∈ upsertSession sessions session <-> s ∈ sessions.
Proof.
  intros Hne. induction sessions as [|x l IH].
  - rewrite upsertSession_nil, list_elem_of_singleton. split; [by intros ->|by inversion 1].
  - rewrite upsertSession_cons.
    destruct (JSString.eqb (StoredSession.sessionId x) (StoredSession.sessionId session)) eqn:Hx.
    + apply string_eqb_eq in Hx. rewrite !elem_of_cons. split.
      * intros [->|?]; [done|by right].
      * intros [->|?]; [congruence|by right].
    + rewrite !elem_of_cons, IH. done.
Qed.

Lemma upsertSession_NoDup (sessions : list StoredSession.t) (session : StoredSession.t) :
  NoDup (map StoredSession.sessionId sessions) ->
  NoDup (map StoredSession.sessionId (upsertSession sessions session)).
Proof.
  intros Hnd. rewrite upsertSession_ids. case_decide; [done|].
  apply NoDup_app. split; [done|]. split; [|apply NoDup_singleton].
  intros x Hx ->%list_elem_of_singleton. done.
Qed.

(** The session the second store update writes. *)
Lemma mergeResponse_found (p : Home.pending) (newId : string)
    (assistantMessages : list ChatMessage.t) (now : string)
    (prev : list StoredSession.t) (b : Browser.t) :
  JSString.truthy newId = true ->
  NoDup (map StoredSession.sessionId prev) ->
  let existing :=
    List.find (fun session => JSString.eqb (StoredSession.sessionId session) newId) prev in
  let firstUserContent :=
    match List.find (fun msg => Role_eqb (ChatMessage.role msg) user) (Home.seenMessages p) with
    | Some msg => ChatMessage.content msg
    | None => ChatMessage.content (Home.userMessage p)
    end in
  let nextSession :=
    StoredSession.mk newId
      (match existing with
       | Some e => StoredSession.title e
       | None => getDefaultSessionTitle firstUserContent
       end)
      (match existing with Some e => StoredSession.messages e | None => [] end ++
       [StoredMessage.mk (ChatMessage.id (Home.userMessage p)) user
                         (ChatMessage.content (Home.userMessage p)) None None None None now] ++
       map (Home.toStoredMessage now) assistantMessages)
      (match existing with Some e => StoredSession.createdAt e | None => now end)
      now in
  let next := (Home.mergeResponse p (Some newId) assistantMessages now prev b).1 in
  next ≡ₚ upsertSession prev nextSession /\
  List.find (fun session => JSString.eqb (StoredSession.sessionId session) newId) next
    = Some nextSession.
Proof.
  intros Htruthy Hnd existing firstUserContent nextSession next.
  assert (Hnext : next = JSArray.sort byUpdatedDescending (upsertSession prev nextSession)).
  { subst next. unfold Home.mergeResponse. by rewrite Htruthy. }
  assert (Hperm : next ≡ₚ upsertSession prev nextSession)
    by (rewrite Hnext; apply sort_Permutation).
  split; [exact Hperm|].
  assert (Hin : nextSession ∈ next) by (rewrite Hperm; apply upsertSession_elem).
  destruct (find_is_Some (fun session => JSString.eqb (StoredSession.sessionId session) newId)
              next nextSession Hin) as [y Hy]; [by apply string_eqb_eq|].
  rewrite Hy. f_equal.
  apply find_Some_elem in Hy as [Hyin Hyid]. apply string_eqb_eq in Hyid.
  apply (NoDup_fmap_elem StoredSession.sessionId (upsertSession prev nextSession)).
  - by apply upsertSession_NoDup.
  - by rewrite <- Hperm.
  - apply upsertSession_elem.
  - done.
Qed.

Lemma handleResponse_payload (p : Home.pending) (payload : RunAgentResponsePayload.t)
    (now : string) (st : Home.state) (b : Browser.t) :
  let sid := RunAgentResponsePayload.sessionId payload in
  let assistantMessages :=
    JSArray.mapi (Home.toAssistantMessage (Home.userMessage p))
                 (default [] (RunAgentResponsePayload.newMessages payload)) in
  let after := Home.handleResponse p (Home.Payload payload) now st b in
  Home.messages after.1 =
    List.filter (Home.keepExcept (Home.loadingMessageId p)) (Home.messages st) ++
    assistantMessages /\
  Home.sessionId after.1 = (if Home.truthy sid then sid else Home.sessionId st) /\
  Home.input after.1 = Home.input st /\
  Home.storedSessions after.1 =
    (Home.mergeResponse p sid assistantMessages now (Home.storedSessions st) b).1 /\
  after.2 = (Home.mergeResponse p sid assistantMessages now (Home.storedSessions st) b).2.
Proof.
  intros sid assistantMessages after. subst after. unfold Home.handleResponse.
  fold sid. fold assistantMessages. unfold Home.setStoredSessions. cbn [fst snd].
  assert (Hstore : Home.storedSessions
            (Home.setMessages
               (fun prev =>
                  match assistantMessages with
                  | [] => List.filter (Home.keepExcept (Home.loadingMessageId p)) prev
                  | _ :: _ =>
                      List.filter (Home.keepExcept (Home.loadingMessageId p)) prev ++
                      assistantMessages
                  end)
               (if Home.truthy sid then Home.setSessionId sid st else st))
          = Home.storedSessions st) by (by destruct (Home.truthy sid)).
  rewrite Hstore.
  destruct (Home.mergeResponse p sid assistantMessages now (Home.storedSessions st) b)
    as [next b'].
  cbn [fst snd Home.messages Home.sessionId Home.input Home.storedSessions].
  repeat split.
  - destruct (Home.truthy sid), assistantMessages; simpl; by rewrite ?app_nil_r.
  - by destruct (Home.truthy sid).
  - by destruct (Home.truthy sid).
Qed.

(** X10.  A reply without a session id is shown and not stored: the messages of
    the reply take the place of the placeholder, and the stored sessions,
    the session storage and the session id of the conversation stay what
    they were. *)
Theorem reply_without_session_not_stored (p : Home.pending)
    (payload : RunAgentResponsePayload.t) (now : string) (st : Home.state) (b : Browser.t) :
  Home.truthy (RunAgentResponsePayload.sessionId payload) = false ->
  let after := Home.handleResponse p (Home.Payload payload) now st b in
  Home.messages after.1 =
    List.filter (Home.keepExcept (Home.loadingMessageId p)) (Home.messages st) ++
    JSArray.mapi (Home.toAssistantMessage (Home.userMessage p))
                 (default [] (RunAgentResponsePayload.newMessages payload)) /\
  Home.sessionId after.1 = Home.sessionId st /\
  Home.storedSessions after.1 = Home.storedSessions st /\
  after.2 = b.
Proof.
  intros Hsid after.
  destruct (handleResponse_payload p payload now st b) as (Hm & Hs & _ & Hst & Hb).
  fold after in Hm, Hs, Hst, Hb. rewrite Hsid in Hs.
  assert (Hmerge : forall l, Home.mergeResponse p (RunAgentResponsePayload.sessionId payload) l
                     now (Home.storedSessions st) b = (Home.storedSessions st, b)).
  { intros l. unfold Home.mergeResponse.
    destruct (RunAgentResponsePayload.sessionId payload) as [newId|]; [|done].
    simpl in Hsid. by rewrite Hsid. }
  rewrite Hmerge in Hst, Hb. done.
Qed.

(** X11.  A reply that names its session, on a store without a repeated session
    id: afterwards the conversation has that session id, the store still
    has no repeated id, the sessions of other ids are the ones it had, and
    the session of that id is the one found before (or a new one, titled
    after the first user message of the conversation and created now) with
    the user message and the messages of the reply at its end, updated
    now.  When every [updatedAt] is a date the store is in descending
    order of it. *)
Theorem reply_with_session_stored (p : Home.pending) (payload : RunAgentResponsePayload.t)
    (newId now : string) (st : Home.state) (b : Browser.t) :
  RunAgentResponsePayload.sessionId payload = Some newId ->
  JSString.truthy newId = true ->
  NoDup (map StoredSession.sessionId (Home.storedSessions st)) ->
  let after := Home.handleResponse p (Home.Payload payload) now st b in
  let existing :=
    List.find (fun session => JSString.eqb (StoredSession.sessionId session) newId)
              (Home.storedSessions st) in
  let assistantMessages :=
    JSArray.mapi (Home.toAssistantMessage (Home.userMessage p))
                 (default [] (RunAgentResponsePayload.newMessages payload)) in
  Home.sessionId after.1 = Some newId /\
  NoDup (map StoredSession.sessionId (Home.storedSessions after.1)) /\
  (forall s, StoredSession.sessionId s <> newId ->
     s ∈ Home.storedSessions after.1 <-> s ∈ Home.storedSessions st) /\
  (exists session,
     List.find (fun session => JSString.eqb (StoredSession.sessionId session) newId)
               (Home.storedSessions after.1) = Some session /\
     StoredSession.sessionId session = newId /\
     StoredSession.updatedAt session = now /\
     StoredSession.messages session =
       match existing with Some e => StoredSession.messages e | None => [] end ++
       [StoredMessage.mk (ChatMessage.id (Home.userMessage p)) user
                         (ChatMessage.content (Home.userMessage p)) None None None None now] ++
       map (Home.toStoredMessage now) assistantMessages /\
     match existing with
     | Some e =>
         StoredSession.title session = StoredSession.title e /\
         StoredSession.createdAt session = StoredSession.createdAt e /\
         length (Home.storedSessions after.1) = length (Home.storedSessions st)
     | None =>
         StoredSession.title session =
           getDefaultSessionTitle
             (match List.find (fun msg => Role_eqb (ChatMessage.role msg) user)
                              (Home.seenMessages p) with
              | Some msg => ChatMessage.content msg
              | None => ChatMessage.content (Home.userMessage p)
              end) /\
         StoredSession.createdAt session = now /\
         length (Home.storedSessions after.1) = S (length (Home.storedSessions st))
     end) /\
  (Forall validUpdatedAt (Home.storedSessions st) -> is_Some (JSDate.parse now) ->
   StronglySorted (fun x y => updatedTime y <= updatedTime x) (Home.storedSessions after.1)).
Proof.
  intros Hsid Htruthy Hnd after existing assistantMessages.
  destruct (handleResponse_payload p payload now st b) as (_ & Hs & _ & Hst & _).
  fold after in Hs, Hst. rewrite Hsid in Hs, Hst. simpl in Hs. rewrite Htruthy in Hs.
  fold assistantMessages in Hst.
  destruct (mergeResponse_found p newId assistantMessages now (Home.storedSessions st) b
              Htruthy Hnd) as [Hperm Hfound].
  rewrite <- Hst in Hperm, Hfound. fold existing in Hperm, Hfound.
  set (nextSession := StoredSession.mk newId _ _ _ now) in Hperm, Hfound.
  split; [exact Hs|]. split; [|split; [|split]].
  - rewrite Hperm. by apply upsertSession_NoDup.
  - intros s Hne. rewrite Hperm. by apply upsertSession_other.
  - exists nextSession. split; [exact Hfound|]. repeat split.
    assert (Hlen : length (Home.storedSessions after.1) =
                   if decide (newId ∈ map StoredSession.sessionId (Home.storedSessions st))
                   then length (Home.storedSessions st)
                   else S (length (Home.storedSessions st)))
      by (rewrite Hperm; apply upsertSession_length).
    subst nextSession. cbn [StoredSession.title StoredSession.createdAt].
    destruct existing as [e|] eqn:He.
    + repeat split. rewrite Hlen, decide_True; [done|].
      apply find_Some_elem in He as [Hin Hid]. apply string_eqb_eq in Hid. subst newId.
      apply list_elem_of_fmap. by exists e.
    + repeat split. rewrite Hlen, decide_False; [done|].
      intros (x & -> & Hx)%list_elem_of_fmap.
      apply list_elem_of_In in Hx.
      pose proof (List.find_none _ _ He x Hx) as Hno. simpl in Hno.
      by rewrite string_eqb_refl in Hno.
  - intros Hvalid Hnow.
    assert (Heq : Home.storedSessions after.1 =
                  JSArray.sort byUpdatedDescending
                    (upsertSession (Home.storedSessions st) nextSession)).
    { rewrite Hst. unfold Home.mergeResponse. by rewrite Htruthy. }
    rewrite Heq.
    apply (sort_descending _ updatedTime validUpdatedAt byUpdatedDescending_valid).
    apply upsertSession_valid. by constructor.
Qed.

(** *** The session of the conversation after a submission *)


(** *** A turn that is answered *)

(** X13.  A whole turn: a text that is not blank is submitted with an agent
    configured and the agent answers.  When no message of the
    conversation has the id of the placeholder, the conversation is
    afterwards what it was, followed by the user message and the
    messages of the reply: the placeholder is gone and nothing else is
    removed.  The input is empty, and the request that went out carried
    the conversation with the user message and without the
    placeholder. *)
Theorem turn_answered (agent_url uuid now now' : string)
    (payload : RunAgentResponsePayload.t) (st : Home.state) (b : Browser.t) :
  JSString.blank (Home.input st) = false ->
  Forall (fun m => ChatMessage.id m <> uuid +:+ "-loading") (Home.messages st) ->
  let um := Home.plainMessage uuid user (JSString.trim (Home.input st)) None in
  exists st1 b1 p,
    Home.handleSubmit (Some agent_url) uuid now st b = (st1, b1, Some p) /\
    Home.body_messages (Home.sent p) = toAgentMessages (Home.messages st ++ [um]) /\
    let final := Home.handleResponse p (Home.Payload payload) now' st1 b1 in
    Home.messages final.1 =
      Home.messages st ++ [um] ++
      JSArray.mapi (Home.toAssistantMessage um)
                   (default [] (RunAgentResponsePayload.newMessages payload)) /\
    Forall (fun m => ChatMessage.id m <> uuid +:+ "-loading") (Home.messages final.1) /\
    Home.input final.1 = EmptyString.
Proof.
  intros Hblank Hfresh um.
  pose proof (handleSubmit_nonblank (Some agent_url) uuid now st b Hblank) as Hsub.
  cbn zeta in Hsub. fold um in Hsub.
  set (w := Home.persistIfSession _ _ _) in Hsub.
  exists w.1, w.2. eexists. split; [exact Hsub|]. split; [done|].
  destruct (persistIfSession_messages (Home.sessionId st)
              (StoredMessage.mk uuid user (JSString.trim (Home.input st))
                                None None None None now)
              (Home.mkState
                 (Home.messages st ++
                  [um; Home.plainMessage (uuid +:+ "-loading") assistant
                         (getLoadingMessage (JSString.trim (Home.input st)))
                         (Some Variant.callout)])
                 (Home.sessionId st) (Home.storedSessions st) EmptyString, b))
    as (Hm & _ & Hi). fold w in Hm, Hi. cbn [fst Home.messages Home.input] in Hm, Hi.
  cbn zeta.
  destruct (handleResponse_payload
              (Home.mkPending um (uuid +:+ "-loading") (Home.messages st) (Home.sessionId st)
                 (Home.mkRequest agent_url (toAgentMessages (Home.messages st ++ [um]))
                    (if Home.truthy (Home.sessionId st) then Home.sessionId st else None)))
              payload now' w.1 w.2) as (Hfinal & _ & Hinput & _).
  cbn [Home.loadingMessageId Home.userMessage] in Hfinal.
  rewrite Hm in Hfinal. rewrite Hinput, Hi.
  assert (Hfilter :
    List.filter (Home.keepExcept (uuid +:+ "-loading"))
      (Home.messages st ++
       [um; Home.plainMessage (uuid +:+ "-loading") assistant
              (getLoadingMessage (JSString.trim (Home.input st))) (Some Variant.callout)])
    = Home.messages st ++ [um]).
  { rewrite List.filter_app, (filter_keepExcept_fresh _ _ Hfresh). f_equal.
    unfold um, Home.keepExcept, Home.plainMessage. cbn [List.filter ChatMessage.id].
    rewrite append_nonempty_neq by discriminate. by rewrite string_eqb_refl. }
  rewrite Hfilter, <- app_assoc in Hfinal.
  split; [exact Hfinal|]. split; [|done].
  rewrite Hfinal. rewrite !Forall_app. split; [done|]. split.
  - constructor; [|constructor]. unfold um, Home.plainMessage. cbn [ChatMessage.id].
    intros Heq. apply string_eqb_eq in Heq.
    rewrite append_nonempty_neq in Heq; [done|discriminate].
  - unfold JSArray.mapi. apply mapi_from_Forall. intros x k.
    unfold um, Home.plainMessage. cbn [Home.toAssistantMessage ChatMessage.id].
    by intros ?%append_inj_r.
Qed.

(** *** The order of the store *)

Lemma sorted_wellKept (sessions : list StoredSession.t) :
  NoDup (map StoredSession.sessionId sessions) -> Forall validUpdatedAt sessions ->
  wellKept (JSArray.sort byUpdatedDescending sessions).
Proof.
  intros Hnd Hvalid.
  assert (Hperm : JSArray.sort byUpdatedDescending sessions ≡ₚ sessions)
    by apply sort_Permutation.
  split; [by rewrite Hperm|]. split; [by rewrite Hperm|].
  by apply (sort_descending _ updatedTime validUpdatedAt byUpdatedDescending_valid).
Qed.

Lemma persistUserMessage_wellKept (c : string) (m : StoredMessage.t)
    (prev : list StoredSession.t) (b : Browser.t) :
  is_Some (JSDate.parse (StoredMessage.createdAt m)) ->
  wellKept prev -> wellKept (Home.persistUserMessage c m prev b).1.
Proof.
  intros Hnow (Hnd & Hvalid & Hsorted).
  destruct (persistUserMessage_cases c m prev b)
    as [[_ ->]|[(existing & _ & _ & ->)|(existing & Hfind & _ & ->)]]; try done.
  cbn [fst]. apply find_Some_elem in Hfind as [_ Hid]. apply string_eqb_eq in Hid.
  set (u := StoredSession.mk _ _ _ _ _).
  assert (Hu : StoredSession.sessionId u = c) by done.
  apply sorted_wellKept.
  - by rewrite (replaced_ids c u prev Hu).
  - apply Forall_forall. intros s [[-> _]|[Hs _]]%(replaced_elem c u prev s Hu); [done|].
    by apply (proj1 (Forall_forall _ _) Hvalid).
Qed.

Lemma mergeResponse_wellKept (p : Home.pending) (sid : option string)
    (assistantMessages : list ChatMessage.t) (now : string)
    (prev : list StoredSession.t) (b : Browser.t) :
  is_Some (JSDate.parse now) ->
  wellKept prev -> wellKept (Home.mergeResponse p sid assistantMessages now prev b).1.
Proof.
  intros Hnow (Hnd & Hvalid & Hsorted). unfold Home.mergeResponse.
  destruct sid as [newId|]; [|done]. destruct (JSString.truthy newId); [|done].
  cbn [negb fst]. apply sorted_wellKept.
  - by apply upsertSession_NoDup.
  - apply upsertSession_valid. by constructor.
Qed.

(** X14.  The handler keeps the store as the sidebar expects it.  If the stored
    sessions have no repeated session id, dates as [updatedAt] and the
    most recently updated first, they do so after a submission and after
    the outcome of the remote call has been handled, for every agent
    setting, input and outcome, the clock giving dates. *)
Theorem handler_keeps_store_ordered
    (agent : option string) (uuid now now' : string) (p : Home.pending) (r : Home.fetched)
    (st : Home.state) (b : Browser.t) :
  is_Some (JSDate.parse now) -> is_Some (JSDate.parse now') ->
  wellKept (Home.storedSessions st) ->
  wellKept (Home.storedSessions (Home.handleSubmit agent uuid now st b).1.1) /\
  wellKept (Home.storedSessions (Home.handleResponse p r now' st b).1).
Proof.
  intros Hnow Hnow' Hkept. split.
  - destruct (JSString.blank (Home.input st)) eqn:Hblank.
    + unfold Home.handleSubmit. by rewrite (trim_blank _ Hblank).
    + pose proof (handleSubmit_nonblank agent uuid now st b Hblank) as Hsub.
      cbn zeta in Hsub. rewrite Hsub. clear Hsub.
      set (w := Home.persistIfSession _ _ _).
      assert (Hw : wellKept (Home.storedSessions w.1)).
      { subst w. unfold Home.persistIfSession.
        destruct (Home.sessionId st) as [c|]; [|done].
        destruct (JSString.truthy c); [|done].
        unfold Home.setStoredSessions. cbn [fst snd Home.storedSessions].
        pose proof (persistUserMessage_wellKept c
                      (StoredMessage.mk uuid user (JSString.trim (Home.input st))
                                        None None None None now)
                      (Home.storedSessions st) b Hnow Hkept) as Hp.
        by destruct (Home.persistUserMessage _ _ _ _). }
      by destruct agent.
  - destruct (Home.failed r) eqn:Hfailed.
    { by destruct (handleResponse_failed p r now' st b Hfailed) as (_ & -> & _). }
    destruct r as [| | | sid |payload]; try discriminate.
    destruct (handleResponse_payload p payload now' st b) as (_ & _ & _ & -> & _).
    by apply mergeResponse_wellKept.
Qed.

End HandlerExtras.

Section HandlerExtrasExamples.
#[local] Existing Instance Example.platform.

Lemma persistUserMessage_idempotent_witness :
  let m := StoredMessage.mk "u1" user "I need food" None None None None
                            "2024-03-05T12:00:00.000Z" in
  Example.updated "xyz" "2024-03-05T00:00:00.000Z" ∈
    (Home.persistUserMessage "abc" m
       [Example.session0; Example.updated "xyz" "2024-03-05T00:00:00.000Z"]
       Example.browser0).1.
Proof.
  intros m.
  destruct (persistUserMessage_idempotent "abc" m
              [Example.session0; Example.updated "xyz" "2024-03-05T00:00:00.000Z"]
              Example.browser0 Example.browser0) as (_ & _ & _ & Hframe).
  apply Hframe; [discriminate|]. apply list_elem_of_In. right. by left.
Defined.

Lemma handler_keeps_slot_in_step_witness :
  let submitted :=
    Home.handleSubmit (Some Example.agent_url) "u1" "2024-03-05T12:00:00.000Z"
      Example.state0
      (Browser.mk true true None
         {[ LOCAL_STORAGE_KEY := JSON.stringify (JArr [StoredSession_json Example.session0]) ]}
         []) in
  slotMirrors (Home.storedSessions submitted.1.1) submitted.1.2.
Proof.
  intros submitted.
  refine (proj2 (proj1 (handler_keeps_slot_in_step (Some Example.agent_url) "u1"
            "2024-03-05T12:00:00.000Z" "2024-03-05T12:00:00.000Z"
            (Home.mkPending (Home.plainMessage "u1" user "I need food" None) "u1-loading" []
               None (Home.mkRequest Example.agent_url [] None))
            Home.NetworkError Example.state0 _ _ _))).
  - by repeat split.
  - reflexivity.
Defined.

Lemma handler_touches_one_key_witness :
  Browser.items
    (Home.handleSubmit (Some Example.agent_url) "u1" "2024-03-05T12:00:00.000Z"
       Example.state0 (Browser.mk true true None {[ "theme" := "dark" ]} [])).1.2
    !! "theme" = Some "dark".
Proof.
  destruct (handler_touches_one_key (Some Example.agent_url) "u1"
              "2024-03-05T12:00:00.000Z" "2024-03-05T12:00:00.000Z"
              (Home.mkPending (Home.plainMessage "u1" user "I need food" None) "u1-loading" []
                 None (Home.mkRequest Example.agent_url [] None))
              Home.NetworkError Example.state0
              (Browser.mk true true None {[ "theme" := "dark" ]} []) "theme") as [-> _].
  - discriminate.
  - reflexivity.
Defined.

Lemma reply_without_session_not_stored_witness :
  let payload := RunAgentResponsePayload.mk (RunAgentResponsePayload.newMessages Example.reply)
                                            (Some EmptyString) in
  let p := Home.mkPending (Home.plainMessage "u1" user "I need food" None) "u1-loading" []
                          None (Home.mkRequest Example.agent_url [] None) in
  Home.storedSessions
    (Home.handleResponse p (Home.Payload payload) "2024-03-05T12:00:02.000Z"
                         Example.state0 Example.browser0).1 = [Example.session0].
Proof.
  intros payload p.
  by destruct (reply_without_session_not_stored p payload "2024-03-05T12:00:02.000Z"
                 Example.state0 Example.browser0 eq_refl) as (_ & _ & -> & _).
Defined.

Lemma reply_with_session_stored_witness :
  let p := Home.mkPending (Home.plainMessage "u1" user "I need food" None) "u1-loading" []
                          None (Home.mkRequest Example.agent_url [] None) in
  Home.sessionId
    (Home.handleResponse p (Home.Payload Example.reply) "2024-03-05T12:00:02.000Z"
                         Example.state0 Example.browser0).1 = Some "abc".
Proof.
  intros p.
  refine (proj1 (reply_with_session_stored p Example.reply "abc" "2024-03-05T12:00:02.000Z"
                   Example.state0 Example.browser0 eq_refl eq_refl _)).
  simpl. apply NoDup_singleton.
Defined.


Lemma turn_answered_witness :
  exists st1 b1 p,
    Home.handleSubmit (Some Example.agent_url) "u1" "2024-03-05T12:00:00.000Z"
                      Example.state0 Example.browser0 = (st1, b1, Some p) /\
    map ChatMessage.id
        (Home.messages
           (Home.handleResponse p (Home.Payload Example.reply) "2024-03-05T12:00:02.000Z"
                                st1 b1).1)
    = ["m0"; "u1"; "u1-assistant-0"].
Proof.
  destruct (turn_answered Example.agent_url "u1" "2024-03-05T12:00:00.000Z"
              "2024-03-05T12:00:02.000Z" Example.reply Example.state0 Example.browser0)
    as (st1 & b1 & p & Hsub & _ & Hfinal & _).
  - reflexivity.
  - repeat constructor. discriminate.
  - exists st1, b1, p. split; [exact Hsub|]. by rewrite Hfinal.
Defined.

Lemma handler_keeps_store_ordered_witness :
  wellKept
    (Home.storedSessions
       (Home.handleSubmit (Some Example.agent_url) "u1" "2024-03-05T12:00:00.000Z"
                          Example.state0 Example.browser0).1.1).
Proof.
  refine (proj1 (handler_keeps_store_ordered (Some Example.agent_url) "u1"
            "2024-03-05T12:00:00.000Z" "2024-03-05T12:00:01.000Z"
            (Home.mkPending (Home.plainMessage "u1" user "I need food" None) "u1-loading" []
               None (Home.mkRequest Example.agent_url [] None))
            Home.NetworkError Example.state0 Example.browser0 _ _ _)).
  - by eexists.
  - by eexists.
  - split; [simpl; apply NoDup_singleton|].
    split; repeat constructor. by eexists.
Defined.

End HandlerExtrasExamples.

(** ** Opening a session *)

Section PageExtras.
Context {P : Platform}.

(** X15.  Selecting a session of a store without a repeated id opens it: the
    conversation shows its messages, with their ids, roles and contents
    in the stored order and none of them as a callout, the session id of
    the conversation is its id and the input is empty; the stored
    sessions and the search are kept.  Selecting an id the store does not
    hold changes nothing. *)
Theorem handleSelectSession_opens (p : Page.t) (session : StoredSession.t) (id : string) :
  (NoDup (map StoredSession.sessionId (Home.storedSessions (Page.home p))) ->
   session ∈ Home.storedSessions (Page.home p) ->
   let opened := Page.handleSelectSession (StoredSession.sessionId session) p in
   Home.sessionId (Page.home opened) = Some (StoredSession.sessionId session) /\
   map ChatMessage.id (Home.messages (Page.home opened)) =
     map StoredMessage.id (StoredSession.messages session) /\
   map ChatMessage.role (Home.messages (Page.home opened)) =
     map StoredMessage.role (StoredSession.messages session) /\
   map ChatMessage.content (Home.messages (Page.home opened)) =
     map StoredMessage.content (StoredSession.messages session) /\
   Forall (fun m => ChatMessage.variant m = None) (Home.messages (Page.home opened)) /\
   Home.input (Page.home opened) = EmptyString /\
   Page.hasInitializedSession opened = true /\
   Home.storedSessions (Page.home opened) = Home.storedSessions (Page.home p) /\
   Page.sidebarSearch opened = Page.sidebarSearch p) /\
  (id ∉ map StoredSession.sessionId (Home.storedSessions (Page.home p)) ->
   Page.handleSelectSession id p = p).
Proof.
  split.
  - intros Hnd Hin opened. subst opened. unfold Page.handleSelectSession.
    rewrite (find_NoDup_elem _ session Hnd Hin). cbn.
    rewrite !map_map. repeat split; try done.
    apply Forall_forall. by intros m (x & -> & _)%list_elem_of_fmap.
  - intros Hid. unfold Page.handleSelectSession.
    rewrite find_none_Forall; [done|].
    apply Forall_forall. intros s Hs. apply string_eqb_neq. intros <-.
    apply Hid, list_elem_of_fmap. by exists s.
Qed.

(** X16.  The effect that opens the latest session acts once: with a session
    selected before, a session id or a message in the conversation it
    does nothing; otherwise it opens the first stored session (the most
    recent one); and running it again after itself changes nothing.  It
    never changes the stored sessions. *)
Theorem selectLatest_once (p : Page.t) :
  Page.selectLatest (Page.selectLatest p) = Page.selectLatest p /\
  Home.storedSessions (Page.home (Page.selectLatest p)) = Home.storedSessions (Page.home p) /\
  (Page.hasInitializedSession p = true \/
   Home.truthy (Home.sessionId (Page.home p)) = true \/
   Home.messages (Page.home p) <> [] ->
   Page.selectLatest p = p) /\
  (forall latest rest,
     Page.hasInitializedSession p = false ->
     Home.truthy (Home.sessionId (Page.home p)) = false ->
     Home.messages (Page.home p) = [] ->
     Home.storedSessions (Page.home p) = latest :: rest ->
     Page.selectLatest p =
     Page.mk (Home.mkState (map Page.toChatMessage (StoredSession.messages latest))
                           (Some (StoredSession.sessionId latest))
                           (latest :: rest) EmptyString)
             true (Page.sidebarSearch p)).
Proof.
  assert (Hopen : forall latest rest,
            Page.hasInitializedSession p = false ->
            Home.truthy (Home.sessionId (Page.home p)) = false ->
            Home.messages (Page.home p) = [] ->
            Home.storedSessions (Page.home p) = latest :: rest ->
            Page.selectLatest p =
            Page.mk (Home.mkState (map Page.toChatMessage (StoredSession.messages latest))
                                  (Some (StoredSession.sessionId latest))
                                  (latest :: rest) EmptyString)
                    true (Page.sidebarSearch p)).
  { intros latest rest Hflag Hsid Hmsgs Hstore. unfold Page.selectLatest.
    rewrite Hflag, Hsid, Hmsgs, Hstore. cbn.
    unfold Page.handleSelectSession. cbn. rewrite Hstore. cbn.
    by rewrite string_eqb_refl. }
  assert (Hguard : Page.hasInitializedSession p = true \/
                   Home.truthy (Home.sessionId (Page.home p)) = true \/
                   Home.messages (Page.home p) <> [] ->
                   Page.selectLatest p = p).
  { intros Hg. unfold Page.selectLatest.
    destruct Hg as [->|[->|Hm]]; [done|by rewrite orb_true_r|].
    destruct (Home.messages (Page.home p)); [done|]. cbn. by rewrite !orb_true_r. }
  split; [|split; [|split; [exact Hguard|exact Hopen]]].
  - destruct (Page.hasInitializedSession p) eqn:Hflag; [by rewrite !Hguard by auto|].
    destruct (Home.truthy (Home.sessionId (Page.home p))) eqn:Hsid;
      [by rewrite !Hguard by auto|].
    destruct (Home.messages (Page.home p)) as [|m ms] eqn:Hmsgs;
      [|by rewrite !Hguard by (right; right; first [done|by rewrite Hmsgs])].
    destruct (Home.storedSessions (Page.home p)) as [|latest rest] eqn:Hstore.
    + assert (Hp : Page.selectLatest p = p)
        by (unfold Page.selectLatest; by rewrite Hflag, Hsid, Hmsgs, Hstore).
      by rewrite !Hp.
    + rewrite (Hopen latest rest) by done. unfold Page.selectLatest. done.
  - destruct (Page.hasInitializedSession p) eqn:Hflag; [by rewrite !Hguard by auto|].
    destruct (Home.truthy (Home.sessionId (Page.home p))) eqn:Hsid;
      [by rewrite !Hguard by auto|].
    destruct (Home.messages (Page.home p)) as [|m ms] eqn:Hmsgs;
      [|by rewrite !Hguard by (right; right; first [done|by rewrite Hmsgs])].
    destruct (Home.storedSessions (Page.home p)) as [|latest rest] eqn:Hstore.
    + unfold Page.selectLatest. by rewrite Hflag, Hsid, Hmsgs, Hstore.
    + by rewrite (Hopen latest rest).
Qed.

Lemma toChatMessage_toStoredMessage (now : string) (m : ChatMessage.t) :
  Page.toChatMessage (Home.toStoredMessage now m) = Page.withoutVariant m.
Proof. reflexivity. Qed.

(** X17.  Reopening the session of a turn that has just been answered shows the
    turn as it was stored: the messages the session had, the user message
    and the messages of the reply, without the callout style the reply
    was shown with; the messages on screen that the session did not hold
    are not brought back. *)
Theorem reopen_after_reply (p : Home.pending) (payload : RunAgentResponsePayload.t)
    (newId now : string) (st : Home.state) (b : Browser.t) (flag : bool) (search : string) :
  RunAgentResponsePayload.sessionId payload = Some newId ->
  JSString.truthy newId = true ->
  NoDup (map StoredSession.sessionId (Home.storedSessions st)) ->
  let after := Home.handleResponse p (Home.Payload payload) now st b in
  let reopened := Page.handleSelectSession newId (Page.mk after.1 flag search) in
  let stored :=
    match List.find (fun session => JSString.eqb (StoredSession.sessionId session) newId)
                    (Home.storedSessions st) with
    | Some e => StoredSession.messages e
    | None => []
    end in
  Home.sessionId (Page.home reopened) = Some newId /\
  Home.messages (Page.home reopened) =
    map Page.toChatMessage stored ++
    [Home.plainMessage (ChatMessage.id (Home.userMessage p)) user
                       (ChatMessage.content (Home.userMessage p)) None] ++
    map Page.withoutVariant
        (JSArray.mapi (Home.toAssistantMessage (Home.userMessage p))
                      (default [] (RunAgentResponsePayload.newMessages payload))).
Proof.
  intros Hsid Htruthy Hnd after reopened stored.
  destruct (handleResponse_payload p payload now st b) as (_ & _ & _ & Hst & _).
  fold after in Hst. rewrite Hsid in Hst.
  destruct (mergeResponse_found p newId
              (JSArray.mapi (Home.toAssistantMessage (Home.userMessage p))
                            (default [] (RunAgentResponsePayload.newMessages payload)))
              now (Home.storedSessions st) b Htruthy Hnd) as [_ Hfound].
  rewrite <- Hst in Hfound.
  subst reopened. unfold Page.handleSelectSession. cbn [Page.home]. rewrite Hfound.
  cbn [Page.home Home.sessionId Home.messages StoredSession.sessionId StoredSession.messages].
  split; [done|].
  rewrite !map_app, map_map. cbn [map]. f_equal.
Qed.

(** X18.  A new chat and the effect that runs after it.  The handler empties
    the conversation and leaves the store, the search and the flag of the
    first selection as they are; the effect that opens the latest session
    then sees a conversation without session and without messages.  When
    a session has been selected since the page was loaded, or the store is
    empty, the page stays the fresh chat: the next submission sends the
    agent the user message alone and no session id, shows the user message
    and the placeholder only, and leaves the store and the session storage
    as they are.  When no session has been selected yet and the store is
    not empty, the effect reopens the first session of the store: the
    conversation is that session's, the flag is set, and the next
    submission sends that session's messages before the user message,
    under the id of that session. *)
Theorem newChat_then_submit (agent_url uuid now text : string) (p : Page.t) (b : Browser.t) :
  JSString.blank text = false ->
  let opened := Page.selectLatest (Page.handleNewChat p) in
  let submitted :=
    Home.handleSubmit (Some agent_url) uuid now
                      (Page.home (Page.handleExampleClick text opened)) b in
  let um := Home.plainMessage uuid user (JSString.trim text) None in
  let loading :=
    Home.plainMessage (uuid +:+ "-loading") assistant
                      (getLoadingMessage (JSString.trim text)) (Some Variant.callout) in
  Page.handleNewChat p =
    Page.mk (Home.mkState [] None (Home.storedSessions (Page.home p)) EmptyString)
            (Page.hasInitializedSession p) (Page.sidebarSearch p) /\
  (Page.hasInitializedSession p = true \/ Home.storedSessions (Page.home p) = [] ->
   opened = Page.handleNewChat p /\
   exists st' pending,
     submitted = (st', b, Some pending) /\
     Home.body_messages (Home.sent pending) =
       [AgentUGIMessage.mk uuid user [JSString.trim text]] /\
     Home.body_sessionId (Home.sent pending) = None /\
     Home.url (Home.sent pending) = agent_url /\
     Home.messages st' = [um; loading] /\
     Home.sessionId st' = None /\
     Home.storedSessions st' = Home.storedSessions (Page.home p)) /\
  (forall latest rest,
     Page.hasInitializedSession p = false ->
     Home.storedSessions (Page.home p) = latest :: rest ->
     opened =
       Page.mk (Home.mkState (map Page.toChatMessage (StoredSession.messages latest))
                             (Some (StoredSession.sessionId latest))
                             (latest :: rest) EmptyString)
               true (Page.sidebarSearch p) /\
     exists st' b' pending,
       submitted = (st', b', Some pending) /\
       Home.body_messages (Home.sent pending) =
         toAgentMessages (map Page.toChatMessage (StoredSession.messages latest)) ++
         [AgentUGIMessage.mk uuid user [JSString.trim text]] /\
       Home.body_sessionId (Home.sent pending) =
         (if JSString.truthy (StoredSession.sessionId latest)
          then Some (StoredSession.sessionId latest) else None) /\
       Home.messages st' =
         map Page.toChatMessage (StoredSession.messages latest) ++ [um; loading] /\
       Home.sessionId st' = Some (StoredSession.sessionId latest)).
Proof.
  intros Hblank opened submitted um loading.
  split; [reflexivity|]. split.
  - intros Hcase.
    assert (Hopened : opened = Page.handleNewChat p).
    { subst opened. unfold Page.selectLatest.
      cbn [Page.handleNewChat Page.home Page.hasInitializedSession Home.handleNewChat
           Home.setInput Home.setSessionId Home.setMessages Home.messages Home.sessionId
           Home.storedSessions Home.truthy length].
      destruct Hcase as [-> | ->]; [reflexivity|].
      by rewrite orb_true_r. }
    split; [exact Hopened|].
    subst submitted. rewrite Hopened.
    pose proof (handleSubmit_nonblank (Some agent_url) uuid now
                  (Page.home (Page.handleExampleClick text (Page.handleNewChat p))) b)
      as Hsub.
    cbn zeta in Hsub. rewrite Hsub by done. clear Hsub.
    cbn [Page.handleExampleClick Page.handleNewChat Page.home Home.handleNewChat
         Home.setInput Home.setSessionId Home.setMessages Home.messages Home.sessionId
         Home.storedSessions Home.input Home.persistIfSession fst snd Home.truthy app].
    eexists _, _. split; [reflexivity|]. by repeat split.
  - intros latest rest Hflag Hstore.
    assert (Hopened : opened =
       Page.mk (Home.mkState (map Page.toChatMessage (StoredSession.messages latest))
                             (Some (StoredSession.sessionId latest))
                             (latest :: rest) EmptyString)
               true (Page.sidebarSearch p)).
    { subst opened. unfold Page.selectLatest.
      cbn [Page.handleNewChat Page.home Page.hasInitializedSession Home.handleNewChat
           Home.setInput Home.setSessionId Home.setMessages Home.messages Home.sessionId
           Home.storedSessions Home.truthy length Page.sidebarSearch].
      rewrite Hflag, Hstore. cbn [length orb Nat.ltb Nat.leb Nat.eqb].
      unfold Page.handleSelectSession. cbn [Page.home Page.sidebarSearch].
      change (Home.storedSessions (Home.handleNewChat (Page.home p)))
        with (Home.storedSessions (Page.home p)).
      rewrite Hstore. cbn [List.find]. by rewrite string_eqb_refl. }
    split; [exact Hopened|].
    subst submitted. rewrite Hopened.
    match goal with
    | |- context [Home.handleSubmit ?a ?u ?n ?st ?bb] =>
        pose proof (handleSubmit_nonblank a u n st bb) as Hsub;
        pose proof (persistIfSession_messages (Home.sessionId st)
                      (StoredMessage.mk uuid user (JSString.trim (Home.input st))
                                        None None None None now)
                      (Home.mkState (Home.messages st ++
                          [Home.plainMessage uuid user (JSString.trim (Home.input st)) None;
                           Home.plainMessage (uuid +:+ "-loading") assistant
                             (getLoadingMessage (JSString.trim (Home.input st)))
                             (Some Variant.callout)])
                         (Home.sessionId st) (Home.storedSessions st) EmptyString, bb))
          as (Hm & Hs & _)
    end.
    cbn zeta in Hsub. rewrite Hsub by done. clear Hsub.
    cbn [Page.handleExampleClick Page.home Home.setInput Home.messages Home.sessionId
         Home.storedSessions Home.input fst snd] in Hm, Hs |- *.
    eexists _, _, _. split; [reflexivity|].
    cbn [Home.sent Home.body_messages Home.body_sessionId Home.truthy].
    rewrite Hm, Hs. unfold toAgentMessages. rewrite map_app.
    by repeat split.
Qed.

(** ** The sidebar *)

Lemma is_ascii_trimStart (s : string) :
  JSString.is_ascii s = true -> JSString.is_ascii (JSString.trimStart s) = true.
Proof.
  induction s as [|c s IH]; [done|]. cbn [JSString.trimStart].
  destruct (JSString.is_space c); [|done].
  cbn [JSString.is_ascii]. intros [_ Hs]%andb_prop. by apply IH.
Qed.

Lemma is_ascii_trimEnd (s : string) :
  JSString.is_ascii s = true -> JSString.is_ascii (JSString.trimEnd s) = true.
Proof.
  induction s as [|c s IH]; [done|]. cbn [JSString.is_ascii JSString.trimEnd].
  intros [Hc Hs]%andb_prop. specialize (IH Hs).
  destruct (JSString.trimEnd s) as [|d r].
  - destruct (JSString.is_space c); [done|]. cbn [JSString.is_ascii]. by rewrite Hc.
  - cbn [JSString.is_ascii] in IH |- *. by rewrite Hc, IH.
Qed.

Lemma is_ascii_trim (s : string) :
  JSString.is_ascii s = true -> JSString.is_ascii (JSString.trim s) = true.
Proof. intros Hs. by apply is_ascii_trimEnd, is_ascii_trimStart. Qed.

Lemma filter_sublist {A} (f : A -> bool) (l : list A) : sublist (List.filter f l) l.
Proof.
  induction l as [|x l IH]; simpl; [constructor|].
  destruct (f x); by constructor.
Qed.

Lemma filter_ext_Forall {A} (f g : A -> bool) (l : list A) :
  Forall (fun x => f x = g x) l -> List.filter f l = List.filter g l.
Proof.
  induction 1 as [|x l Hx _ IH]; [done|]. simpl. by rewrite Hx, IH.
Qed.

Lemma mapSessionToEntry_active (sid : option string) (s : StoredSession.t) :
  HistoryEntry.state (Sidebar.mapSessionToEntry sid s) = Some active <->
  sid = Some (StoredSession.sessionId s).
Proof.
  unfold Sidebar.mapSessionToEntry. cbn [HistoryEntry.state].
  destruct sid as [current|]; [|done].
  destruct (JSString.eqb (StoredSession.sessionId s) current) eqn:Heq.
  - apply string_eqb_eq in Heq. by subst.
  - apply string_eqb_neq in Heq. split; [done|]. intros [= ->]. done.
Qed.

Lemma mapSessionToEntry_title (sid : option string) (s s' : StoredSession.t) :
  Sidebar.mapSessionToEntry sid s = Sidebar.mapSessionToEntry sid s' ->
  StoredSession.title s = StoredSession.title s'.
Proof. unfold Sidebar.mapSessionToEntry. by intros [= _ Htitle _]. Qed.

(** X19.  The search of the sidebar.  The query is the text of the search
    box, trimmed and in lower case, and a session is found when the lower
    case of its title contains the query.  Case is ignored on both sides:
    two texts of the search box with the same trimmed lower case give the
    same sidebar, and of two stored sessions whose titles have the same
    lower case both are found or neither is.  For a text and titles of
    ASCII characters the lower case is that of the letters A to Z.  With
    a query that is not empty the groups by date are empty and the
    results are the sessions found, in the order of the store: every such
    session has its entry, every entry is the entry of such a session,
    opens that session when clicked, and is marked active exactly when it
    is the session of the conversation. *)
Theorem sidebar_search (now : Z) (storedSessions : list StoredSession.t)
    (sessionId : option string) (sidebarSearch : string) :
  let view := Sidebar.history now storedSessions sessionId sidebarSearch in
  let query := toLowerCase (JSString.trim sidebarSearch) in
  let matches (s : StoredSession.t) :=
    JSString.includes (toLowerCase (StoredSession.title s)) query in
  (forall other,
      toLowerCase (JSString.trim other) = query ->
      Sidebar.history now storedSessions sessionId other = view) /\
  (JSString.is_ascii sidebarSearch = true ->
   query = JSString.ascii_lower (JSString.trim sidebarSearch) /\
   (Forall (fun s => JSString.is_ascii (StoredSession.title s) = true) storedSessions ->
    JSString.truthy query = true ->
    Sidebar.searchResults view =
      map (Sidebar.mapSessionToEntry sessionId)
          (List.filter
             (fun s => JSString.includes (JSString.ascii_lower (StoredSession.title s))
                         (JSString.ascii_lower (JSString.trim sidebarSearch)))
             storedSessions))) /\
  (JSString.truthy query = true ->
   Sidebar.historyEntriesToday view = [] /\
   Sidebar.historyEntriesYesterday view = [] /\
   Sidebar.historyGroups view = [] /\
   Sidebar.searchResults view =
     map (Sidebar.mapSessionToEntry sessionId) (List.filter matches storedSessions) /\
   sublist (map HistoryEntry.id (Sidebar.searchResults view))
           (map StoredSession.sessionId storedSessions) /\
   (forall e, e ∈ Sidebar.searchResults view <->
              exists s, s ∈ storedSessions /\ matches s = true /\
                        e = Sidebar.mapSessionToEntry sessionId s) /\
   (forall s s',
       s ∈ storedSessions -> s' ∈ storedSessions ->
       toLowerCase (StoredSession.title s) = toLowerCase (StoredSession.title s') ->
       (Sidebar.mapSessionToEntry sessionId s ∈ Sidebar.searchResults view <->
        Sidebar.mapSessionToEntry sessionId s' ∈ Sidebar.searchResults view)) /\
   Forall (fun e => HistoryEntry.onClick e = HistoryEntry.id e /\
                    (HistoryEntry.state e = Some active <->
                     sessionId = Some (HistoryEntry.id e)))
          (Sidebar.searchResults view)).
Proof.
  intros view query matches.
  assert (Hresults : JSString.truthy query = true ->
            Sidebar.searchResults view =
            map (Sidebar.mapSessionToEntry sessionId) (List.filter matches storedSessions)).
  { intros Hquery. subst view. unfold Sidebar.history. fold query. by rewrite Hquery. }
  assert (Helem : JSString.truthy query = true ->
            forall e, e ∈ Sidebar.searchResults view <->
              exists s, s ∈ storedSessions /\ matches s = true /\
                        e = Sidebar.mapSessionToEntry sessionId s).
  { intros Hquery e. rewrite (Hresults Hquery), list_elem_of_fmap. split.
    - intros (s & -> & Hs). apply list_elem_of_In, List.filter_In in Hs as [Hs Hm].
      exists s. split; [by apply list_elem_of_In|done].
    - intros (s & Hs & Hm & ->). exists s. split; [done|].
      apply list_elem_of_In, List.filter_In. split; [by apply list_elem_of_In|done]. }
  assert (Hfound : JSString.truthy query = true ->
            forall s, s ∈ storedSessions ->
              Sidebar.mapSessionToEntry sessionId s ∈ Sidebar.searchResults view <->
              matches s = true).
  { intros Hquery s Hs. rewrite (Helem Hquery). split.
    - intros (s' & _ & Hm & Heq). apply mapSessionToEntry_title in Heq.
      subst matches. cbn beta in Hm |- *. by rewrite Heq.
    - intros Hm. by exists s. }
  split; [|split].
  - intros other Hother. subst view. unfold Sidebar.history. by rewrite Hother.
  - intros Hascii.
    assert (Hq : query = JSString.ascii_lower (JSString.trim sidebarSearch)).
    { subst query. by rewrite toLowerCase_ascii by by apply is_ascii_trim. }
    split; [exact Hq|]. intros Htitles Hquery. rewrite (Hresults Hquery). f_equal.
    apply filter_ext_Forall. eapply Forall_impl; [exact Htitles|].
    intros s Hs. subst matches. cbn beta. by rewrite Hq, (toLowerCase_ascii _ Hs).
  - intros Hquery.
    assert (Hview : view = Sidebar.mkView
              (map (Sidebar.mapSessionToEntry sessionId) (List.filter matches storedSessions))
              [] [] []).
    { subst view. unfold Sidebar.history. fold query. by rewrite Hquery. }
    split; [by rewrite Hview|]. split; [by rewrite Hview|]. split; [by rewrite Hview|].
    split; [by apply Hresults|]. split; [|split; [|split]].
    + rewrite (Hresults Hquery), map_map. cbn [Sidebar.mapSessionToEntry HistoryEntry.id].
      apply (fmap_sublist StoredSession.sessionId), filter_sublist.
    + by apply Helem.
    + intros s s' Hs Hs' Htitle. rewrite !(Hfound Hquery) by done.
      subst matches. cbn beta. by rewrite Htitle.
    + apply Forall_forall. intros e (s & _ & _ & ->)%(Helem Hquery). split; [done|].
      apply mapSessionToEntry_active.
Qed.

(** *** The months of the archive *)

Lemma insert_byMonthDescending (x : string * list StoredSession.t)
    (l : list (string * list StoredSession.t)) :
  StronglySorted (fun a b => JSString.ltb (fst a) (fst b) = false) l ->
  StronglySorted (fun a b => JSString.ltb (fst a) (fst b) = false)
                 (JSArray.insert Sidebar.byMonthDescending x l).
Proof.
  induction 1 as [|y l Hs IH Hy]; simpl.
  - repeat constructor.
  - unfold Sidebar.byMonthDescending at 1.
    destruct (JSString.ltb (fst y) (fst x)) eqn:Hyx; simpl.
    + constructor; [by constructor|]. constructor; [by apply ltb_asym|].
      eapply Forall_impl; [exact Hy|]. cbn beta. intros z Hz.
      destruct (JSString.ltb (fst x) (fst z)) eqn:Hxz; [|done].
      by rewrite (ltb_trans _ _ _ Hyx Hxz) in Hz.
    + constructor; [exact IH|].
      assert (Hperm : JSArray.insert Sidebar.byMonthDescending x l ≡ₚ x :: l)
        by apply insert_Permutation.
      rewrite Hperm. by constructor.
Qed.

Lemma sort_byMonthDescending (l : list (string * list StoredSession.t)) :
  StronglySorted (fun a b => JSString.ltb (fst a) (fst b) = false)
                 (JSArray.sort Sidebar.byMonthDescending l).
Proof.
  induction l as [|x l IH]; [constructor|].
  change (JSArray.sort Sidebar.byMonthDescending (x :: l))
    with (JSArray.insert Sidebar.byMonthDescending x
            (JSArray.sort Sidebar.byMonthDescending l)).
  by apply insert_byMonthDescending.
Qed.

Lemma StronglySorted_strict (l : list (string * list StoredSession.t)) :
  NoDup (map fst l) ->
  StronglySorted (fun a b => JSString.ltb (fst a) (fst b) = false) l ->
  StronglySorted (fun a b => JSString.ltb (fst b) (fst a) = true) l.
Proof.
  intros Hnd. induction 1 as [|x l Hs IH Hx]; [constructor|].
  simpl in Hnd. apply NoDup_cons in Hnd as [Hx' Hnd].
  constructor; [by apply IH|].
  rewrite Forall_forall in Hx |- *. intros y Hy.
  destruct (ltb_total (fst x) (fst y)) as [Hlt|Hlt]; [|by rewrite (Hx y Hy) in Hlt|done].
  intros Heq. apply Hx'. rewrite Heq. apply list_elem_of_fmap. by exists y.
Qed.

Lemma StronglySorted_lookup {A} (R : A -> A -> Prop) (l : list A) (i j : nat) (x y : A) :
  StronglySorted R l -> l !! i = Some x -> l !! j = Some y -> (i < j)%nat -> R x y.
Proof.
  intros Hs. revert i j. induction Hs as [|z l Hs IH Hz]; intros i j Hi Hj Hlt; [done|].
  destruct j as [|j]; [lia|]. destruct i as [|i].
  - injection Hi as ->. rewrite Forall_forall in Hz. apply Hz.
    exact (list_elem_of_lookup_2 l j y Hj).
  - apply (IH i j); [done|done|lia].
Qed.

(** The text of a year of four digits and of a month. *)
Lemma of_int_four (n : Z) :
  1000 <= n <= 9999 ->
  JSString.of_int n =
  String (JSString.digit_char (n / 10 / 10 / 10 mod 10))
    (String (JSString.digit_char (n / 10 / 10 mod 10))
       (String (JSString.digit_char (n / 10 mod 10))
          (String (JSString.digit_char (n mod 10)) EmptyString))).
Proof.
  intros Hn. unfold JSString.of_int, JSString.digits.
  assert (Hneg : (n <? 0) = false) by lia. rewrite Hneg.
  assert (Hlog : 9 <= Z.log2 n).
  { change 9 with (Z.log2 512). apply Z.log2_le_mono. lia. }
  destruct (Z.to_nat (Z.log2 n)) as [|[|[|fuel]]] eqn:Hfuel; [lia|lia|lia|].
  cbn [JSString.digits_fuel].
  assert (H1 : (n <? 10) = false) by lia. rewrite H1.
  assert (H2 : (n / 10 <? 10) = false).
  { apply Z.ltb_ge. apply Z.div_le_lower_bound; lia. }
  rewrite H2.
  assert (H3 : (n / 10 / 10 <? 10) = false).
  { apply Z.ltb_ge. rewrite Z.div_div by lia. apply Z.div_le_lower_bound; lia. }
  rewrite H3.
  assert (H4 : (n / 10 / 10 / 10 <? 10) = true).
  { apply Z.ltb_lt. rewrite !Z.div_div by lia. apply Z.div_lt_upper_bound; lia. }
  by rewrite H4.
Qed.

Lemma month_two (m : Z) :
  0 <= m <= 11 ->
  JSString.padStart2 (JSString.of_int (m + 1)) =
  String (JSString.digit_char ((m + 1) / 10))
         (String (JSString.digit_char ((m + 1) mod 10)) EmptyString).
Proof.
  intros Hm.
  assert (Hcases : m = 0 \/ m = 1 \/ m = 2 \/ m = 3 \/ m = 4 \/ m = 5 \/
                   m = 6 \/ m = 7 \/ m = 8 \/ m = 9 \/ m = 10 \/ m = 11) by lia.
  destruct Hcases as [->|[->|[->|[->|[->|[->|[->|[->|[->|[->|[->| ->]]]]]]]]]]];
    reflexivity.
Qed.

Lemma digit_char_compare (a b : Z) :
  0 <= a -> 0 <= b ->
  (JSString.digit_char a ?= JSString.digit_char b)%N = (a ?= b).
Proof.
  intros Ha Hb. unfold JSString.digit_char.
  rewrite Z2N.inj_compare by lia. apply Z.add_compare_mono_l.
Qed.

(** Among the years of four digits the order of the keys is the order of
    the months in time. *)
Lemma monthKey_chronological (y m y' m' : Z) :
  1000 <= y <= 9999 -> 1000 <= y' <= 9999 -> 0 <= m <= 11 -> 0 <= m' <= 11 ->
  JSString.ltb (JSString.of_int y +:+ "-" +:+ JSString.padStart2 (JSString.of_int (m + 1)))
               (JSString.of_int y' +:+ "-" +:+ JSString.padStart2 (JSString.of_int (m' + 1)))
    = true <->
  12 * y + m < 12 * y' + m'.
Proof.
  intros Hy Hy' Hm Hm'.
  rewrite (of_int_four y Hy), (of_int_four y' Hy'), (month_two m Hm), (month_two m' Hm').
  unfold JSString.ltb.
  cbn [JSString.append JSString.compare].
  rewrite !digit_char_compare by (try apply Z.mod_pos_bound; try apply Z.div_pos; lia).
  rewrite N.compare_refl.
  pose proof (Z.div_mod y 10 ltac:(lia)) as E0.
  pose proof (Z.div_mod (y / 10) 10 ltac:(lia)) as E1.
  pose proof (Z.div_mod (y / 10 / 10) 10 ltac:(lia)) as E2.
  pose proof (Z.div_mod (y / 10 / 10 / 10) 10 ltac:(lia)) as E3.
  pose proof (Z.div_mod y' 10 ltac:(lia)) as E0'.
  pose proof (Z.div_mod (y' / 10) 10 ltac:(lia)) as E1'.
  pose proof (Z.div_mod (y' / 10 / 10) 10 ltac:(lia)) as E2'.
  pose proof (Z.div_mod (y' / 10 / 10 / 10) 10 ltac:(lia)) as E3'.
  pose proof (Z.div_mod (m + 1) 10 ltac:(lia)) as M.
  pose proof (Z.div_mod (m' + 1) 10 ltac:(lia)) as M'.
  pose proof (Z.mod_pos_bound y 10 ltac:(lia)).
  pose proof (Z.mod_pos_bound (y / 10) 10 ltac:(lia)).
  pose proof (Z.mod_pos_bound (y / 10 / 10) 10 ltac:(lia)).
  pose proof (Z.mod_pos_bound (y / 10 / 10 / 10) 10 ltac:(lia)).
  pose proof (Z.mod_pos_bound y' 10 ltac:(lia)).
  pose proof (Z.mod_pos_bound (y' / 10) 10 ltac:(lia)).
  pose proof (Z.mod_pos_bound (y' / 10 / 10) 10 ltac:(lia)).
  pose proof (Z.mod_pos_bound (y' / 10 / 10 / 10) 10 ltac:(lia)).
  pose proof (Z.mod_pos_bound (m + 1) 10 ltac:(lia)).
  pose proof (Z.mod_pos_bound (m' + 1) 10 ltac:(lia)).
  assert (Hy4 : y / 10 / 10 / 10 / 10 = 0).
  { rewrite !Z.div_div by lia. apply Z.div_small. lia. }
  assert (Hy4' : y' / 10 / 10 / 10 / 10 = 0).
  { rewrite !Z.div_div by lia. apply Z.div_small. lia. }
  repeat match goal with
         | |- context [?a ?= ?b] => destruct (Z.compare_spec a b)
         end; split; intros; first [discriminate | reflexivity | lia | exfalso; lia].
Qed.

(** X20.  The months of the archive are listed in descending order of their
    keys, compared as texts, code unit by code unit: each key once, with
    the sessions the bucketing put under it.  For months of the years
    1000 to 9999 that is latest first: of two entries whose keys are the
    keys of two dates in such years, the one listed first is of the later
    month.  The entry of the sessions without a date, [NaN-NaN], comes
    before the entry of every month. *)
Theorem archiveMonths_descending (monthly : gmap string (list StoredSession.t)) :
  StronglySorted (fun a b => JSString.ltb (fst b) (fst a) = true)
                 (Sidebar.archiveMonths monthly) /\
  NoDup (map fst (Sidebar.archiveMonths monthly)) /\
  (forall key items, (key, items) ∈ Sidebar.archiveMonths monthly <->
                     monthly !! key = Some items) /\
  (forall i j a b items items',
      Sidebar.archiveMonths monthly !! i = Some (formatDateKey (Some a), items) ->
      Sidebar.archiveMonths monthly !! j = Some (formatDateKey (Some b), items') ->
      1000 <= JSDate.YearFromTime (JSDate.LocalTime a) <= 9999 ->
      1000 <= JSDate.YearFromTime (JSDate.LocalTime b) <= 9999 ->
      ((i < j)%nat <->
       12 * JSDate.YearFromTime (JSDate.LocalTime b) +
         JSDate.MonthFromTime (JSDate.LocalTime b) <
       12 * JSDate.YearFromTime (JSDate.LocalTime a) +
         JSDate.MonthFromTime (JSDate.LocalTime a))) /\
  formatDateKey None = "NaN-NaN" /\
  (forall i j a items items',
      Sidebar.archiveMonths monthly !! i = Some (formatDateKey None, items) ->
      Sidebar.archiveMonths monthly !! j = Some (formatDateKey (Some a), items') ->
      (i < j)%nat).
Proof.
  assert (Hperm : Sidebar.archiveMonths monthly ≡ₚ map_to_list monthly)
    by apply sort_Permutation.
  assert (Hnd : NoDup (map fst (Sidebar.archiveMonths monthly))).
  { rewrite Hperm. apply NoDup_fst_map_to_list. }
  assert (Hsorted : StronglySorted (fun a b => JSString.ltb (fst b) (fst a) = true)
                                   (Sidebar.archiveMonths monthly)).
  { apply StronglySorted_strict; [exact Hnd|]. apply sort_byMonthDescending. }
  assert (Horder : forall i j x y,
             Sidebar.archiveMonths monthly !! i = Some x ->
             Sidebar.archiveMonths monthly !! j = Some y ->
             ((i < j)%nat <-> JSString.ltb (fst y) (fst x) = true)).
  { intros i j x y Hi Hj. split.
    - intros Hlt. exact (StronglySorted_lookup _ _ i j x y Hsorted Hi Hj Hlt).
    - intros Hyx. destruct (Nat.lt_trichotomy i j) as [Hlt|[->|Hgt]]; [done| |].
      + rewrite Hi in Hj. injection Hj as ->. by rewrite ltb_irrefl in Hyx.
      + pose proof (StronglySorted_lookup _ _ j i y x Hsorted Hj Hi Hgt) as Hxy.
        cbn beta in Hxy. by rewrite (ltb_asym _ _ Hxy) in Hyx. }
  split; [exact Hsorted|]. split; [exact Hnd|]. split; [|split; [|split; [done|]]].
  - intros key items. rewrite Hperm. apply elem_of_map_to_list.
  - intros i j a b items items' Hi Hj Ha Hb.
    rewrite (Horder i j _ _ Hi Hj). cbn [fst].
    unfold formatDateKey, JSDate.getFullYear, JSDate.getMonth.
    cbn [fmap option_fmap option_map JSDate.num_to_string]. unfold compose.
    apply monthKey_chronological; try done; apply MonthFromTime_range.
  - intros i j a items items' Hi Hj. apply (Horder i j _ _ Hi Hj). cbn [fst].
    unfold formatDateKey at 1, JSDate.getFullYear, JSDate.getMonth.
    cbn [fmap option_fmap option_map JSDate.num_to_string]. unfold compose.
    destruct (of_int_head (JSDate.YearFromTime (JSDate.LocalTime a)))
      as (c & r & Hc & Hhead).
    rewrite Hc. change (formatDateKey None) with "NaN-NaN"%js.
    unfold JSString.ltb. cbn [JSString.append JSString.compare].
    assert (Hlt : (c ?= 78)%N = Lt).
    { apply N.compare_lt_iff.
      destruct (JSDate.YearFromTime (JSDate.LocalTime a) <? 0); lia. }
    by rewrite Hlt.
Qed.

Lemma sum_lengths_Permutation (l k : list (string * list StoredSession.t)) :
  l ≡ₚ k -> length (concat (map snd l)) = length (concat (map snd k)).
Proof.
  induction 1 as [|x l k _ IH|x y l|l k j _ IH1 _ IH2]; simpl;
    rewrite ?length_app; lia.
Qed.

(** X21.  The sidebar without a search.  There are no search results; today and
    yesterday list the sessions of these buckets in their order, an entry
    being marked active exactly when it is the session of the
    conversation; the groups are the last seven days, when there is a
    session in them, and then the months of the archive in their order,
    each with its number of sessions.  Every stored session is counted
    once: the entries of today and yesterday, the sessions of the last
    seven days and those of the months add up to the store. *)
Theorem sidebar_history (now : Z) (storedSessions : list StoredSession.t)
    (sessionId : option string) (sidebarSearch : string) :
  JSString.blank sidebarSearch = true ->
  let view := Sidebar.history now storedSessions sessionId sidebarSearch in
  let buckets := bucketSessions now storedSessions in
  let months := Sidebar.archiveMonths (SessionHistoryBuckets.monthly buckets) in
  Sidebar.searchResults view = [] /\
  map HistoryEntry.id (Sidebar.historyEntriesToday view) =
    map StoredSession.sessionId (SessionHistoryBuckets.today buckets) /\
  map HistoryEntry.id (Sidebar.historyEntriesYesterday view) =
    map StoredSession.sessionId (SessionHistoryBuckets.yesterday buckets) /\
  Forall (fun e => HistoryEntry.onClick e = HistoryEntry.id e /\
                   (HistoryEntry.state e = Some active <->
                    sessionId = Some (HistoryEntry.id e)))
         (Sidebar.historyEntriesToday view ++ Sidebar.historyEntriesYesterday view) /\
  Sidebar.historyGroups view =
    match SessionHistoryBuckets.last7Days buckets with
    | [] => []
    | _ => ["Previous 7 days (" +:+
            JSString.of_int (Z.of_nat (length (SessionHistoryBuckets.last7Days buckets))) +:+
            ")"]
    end ++ map Sidebar.groupLabel months /\
  Forall (fun group => snd group <> []) months /\
  (length (Sidebar.historyEntriesToday view) +
   length (Sidebar.historyEntriesYesterday view) +
   length (SessionHistoryBuckets.last7Days buckets) +
   length (concat (map snd months)) = length storedSessions)%nat.
Proof.
  intros Hblank view buckets months.
  assert (Hview : view =
    Sidebar.mkView []
      (map (Sidebar.mapSessionToEntry sessionId) (SessionHistoryBuckets.today buckets))
      (map (Sidebar.mapSessionToEntry sessionId) (SessionHistoryBuckets.yesterday buckets))
      (match SessionHistoryBuckets.last7Days buckets with
       | [] => []
       | _ => ["Previous 7 days (" +:+
               JSString.of_int
                 (Z.of_nat (length (SessionHistoryBuckets.last7Days buckets))) +:+ ")"]
       end ++ map Sidebar.groupLabel months)).
  { subst view. unfold Sidebar.history.
    rewrite (trim_blank _ Hblank), (toLowerCase_ascii EmptyString eq_refl).
    cbn [JSString.ascii_lower JSString.truthy].
    fold buckets. fold months. f_equal.
    by destruct (SessionHistoryBuckets.last7Days buckets). }
  rewrite Hview.
  cbn [Sidebar.searchResults Sidebar.historyEntriesToday Sidebar.historyEntriesYesterday
       Sidebar.historyGroups].
  assert (Hperm : months ≡ₚ map_to_list (SessionHistoryBuckets.monthly buckets))
    by apply sort_Permutation.
  destruct (fold_bucketSession now storedSessions
              (SessionHistoryBuckets.mk [] [] [] ∅)) as (_ & Hall & Hnonempty).
  fold (bucketSessions now storedSessions) in Hall, Hnonempty.
  fold buckets in Hall, Hnonempty.
  split; [done|]. split; [by rewrite map_map|]. split; [by rewrite map_map|].
  split; [|split; [done|split]].
  - rewrite <- map_app. apply Forall_forall. intros e (s & -> & _)%list_elem_of_fmap.
    split; [done|]. apply mapSessionToEntry_active.
  - apply Forall_forall. intros [key items] Hin. rewrite Hperm in Hin.
    apply elem_of_map_to_list in Hin. simpl. intros ->.
    apply (Hnonempty key); [|exact Hin].
    cbn [SessionHistoryBuckets.monthly]. by rewrite lookup_empty.
  - rewrite !length_map, (sum_lengths_Permutation _ _ Hperm).
    apply Permutation_length in Hall. unfold allMembers in Hall.
    cbn [SessionHistoryBuckets.today SessionHistoryBuckets.yesterday
         SessionHistoryBuckets.last7Days SessionHistoryBuckets.monthly] in Hall.
    rewrite map_to_list_empty in Hall. rewrite !length_app in Hall.
    cbn [map concat length] in Hall. lia.
Qed.

(** *** The keys of the months *)

Lemma append_inj_length (a a' b b' : string) :
  a +:+ b = a' +:+ b' -> JSString.length b = JSString.length b' -> a = a' /\ b = b'.
Proof.
  revert a'. induction a as [|c a IH]; intros a' Heq Hlen.
  - destruct a' as [|c' a']; [done|].
    apply (f_equal JSString.length) in Heq. rewrite !length_append in Heq.
    cbn [JSString.length] in Heq. lia.
  - destruct a' as [|c' a'].
    + apply (f_equal JSString.length) in Heq. rewrite !length_append in Heq.
      cbn [JSString.length] in Heq. lia.
    + change (String c (a +:+ b) = String c' (a' +:+ b')) in Heq.
      injection Heq as -> Heq. destruct (IH a' Heq Hlen) as [-> ->]. done.
Qed.

Lemma month_text (m : Z) :
  0 <= m <= 11 ->
  JSString.length (JSString.padStart2 (JSString.of_int (m + 1))) = 2%nat /\
  forall m', 0 <= m' <= 11 ->
    JSString.padStart2 (JSString.of_int (m + 1)) =
    JSString.padStart2 (JSString.of_int (m' + 1)) -> m = m'.
Proof.
  intros Hm.
  assert (Hcases : forall k, 0 <= k <= 11 ->
            k = 0 \/ k = 1 \/ k = 2 \/ k = 3 \/ k = 4 \/ k = 5 \/
            k = 6 \/ k = 7 \/ k = 8 \/ k = 9 \/ k = 10 \/ k = 11) by (intros; lia).
  split.
  - destruct (Hcases m Hm) as [->|[->|[->|[->|[->|[->|[->|[->|[->|[->|[->| ->]]]]]]]]]]];
      reflexivity.
  - intros m' Hm'.
    destruct (Hcases m Hm) as [->|[->|[->|[->|[->|[->|[->|[->|[->|[->|[->| ->]]]]]]]]]]];
      destruct (Hcases m' Hm') as [->|[->|[->|[->|[->|[->|[->|[->|[->|[->|[->| ->]]]]]]]]]]];
      vm_compute; congruence.
Qed.

(** X22.  The key of a month names one month of one year: two dates have the
    same key exactly when they have the same local year and the same
    local month, or are both no dates. *)
Theorem formatDateKey_month (a b : JSDate.t) :
  formatDateKey a = formatDateKey b <->
  JSDate.getFullYear a = JSDate.getFullYear b /\
  JSDate.getMonth a = JSDate.getMonth b.
Proof.
  split; [|by unfold formatDateKey; intros [-> ->]].
  unfold formatDateKey, JSDate.getFullYear, JSDate.getMonth.
  destruct a as [x|], b as [y|]; cbn [fmap option_fmap option_map JSDate.num_to_string];
    unfold compose.
  - intros Heq.
    pose proof (MonthFromTime_range (JSDate.LocalTime x)) as Hx.
    pose proof (MonthFromTime_range (JSDate.LocalTime y)) as Hy.
    destruct (month_text _ Hx) as [Hlx Hinj]. destruct (month_text _ Hy) as [Hly _].
    rewrite <- !append_assoc in Heq.
    apply append_inj_length in Heq as [Hyear Hmonth]; [|by rewrite Hlx, Hly].
    apply append_inj_length in Hyear as [Hyear _]; [|done].
    apply of_int_inj in Hyear. apply Hinj in Hmonth; [|done]. by rewrite Hyear, Hmonth.
  - intros Heq. exfalso.
    destruct (of_int_head (JSDate.YearFromTime (JSDate.LocalTime x)))
      as (c & r & Hc & Hne).
    rewrite Hc in Heq. injection Heq as -> _.
    destruct (JSDate.YearFromTime (JSDate.LocalTime x) <? 0); [done|lia].
  - intros Heq. exfalso.
    destruct (of_int_head (JSDate.YearFromTime (JSDate.LocalTime y)))
      as (c & r & Hc & Hne).
    rewrite Hc in Heq. injection Heq as <- _.
    destruct (JSDate.YearFromTime (JSDate.LocalTime y) <? 0); [done|lia].
  - done.
Qed.

(** ** Reloading the page *)

(** X23.  What the page loads when it starts is what the handler left in the
    slot.  On a storage that can be read, when the slot holds the text of
    stored sessions (nothing when there are none), [readStoredSessions]
    returns the objects of these sessions, property for property, and
    logs nothing; these objects are the sessions.  The effect that runs
    after the first render puts them into the store, sorted: the store is
    a rearrangement of the sessions while the conversation stays empty
    and without session; when every [updatedAt] is a date the store is in
    descending order of [updatedAt]; and when the sessions are in that
    order already, as the handler leaves them, the store is the sequence
    itself and the effect that follows opens its first session. *)
Theorem reload_restores_store (sessions : list StoredSession.t) (b : Browser.t) :
  Browser.hasWindow b = true ->
  Browser.storageReachable b = true ->
  slotMirrors sessions b ->
  forallb StoredSession_wf sessions = true ->
  let loaded := Page.loadStoredSessions sessions Page.initial in
  readStoredSessions b = (map StoredSession_json sessions, b) /\
  mapM asStoredSession (readStoredSessions b).1 = Some sessions /\
  Home.storedSessions (Page.home loaded) ≡ₚ sessions /\
  Home.messages (Page.home loaded) = [] /\
  Home.sessionId (Page.home loaded) = None /\
  Page.hasInitializedSession loaded = false /\
  (Forall validUpdatedAt sessions ->
   StronglySorted (fun x y => updatedTime y <= updatedTime x)
                  (Home.storedSessions (Page.home loaded)) /\
   (StronglySorted (fun x y => updatedTime y <= updatedTime x) sessions ->
    Home.storedSessions (Page.home loaded) = sessions /\
    forall latest rest,
      sessions = latest :: rest ->
      Page.selectLatest loaded =
      Page.mk (Home.mkState (map Page.toChatMessage (StoredSession.messages latest))
                            (Some (StoredSession.sessionId latest)) sessions EmptyString)
              true EmptyString)).
Proof.
  intros Hw Hr Hslot Hwf loaded.
  assert (Hread : readStoredSessions b = (map StoredSession_json sessions, b)).
  { unfold readStoredSessions, Browser.getItem.
    rewrite Hw, Hr. cbn [negb]. rewrite Hslot.
    destruct sessions as [|s sessions]; [done|].
    rewrite stringify_array_truthy. cbn [negb].
    by rewrite (parse_stringify _ (sessions_json_wf _ Hwf)). }
  split; [exact Hread|]. split.
  { rewrite Hread. cbn [fst]. apply mapM_map_Some, asStoredSession_json. }
  split; [apply sort_Permutation|]. split; [done|]. split; [done|]. split; [done|].
  intros Hvalid. split; [by apply sortSessionsByUpdated_sorted|].
  intros Hsorted.
  assert (Hstore : Home.storedSessions (Page.home loaded) = sessions)
    by by apply sort_sorted_id.
  split; [exact Hstore|]. intros latest rest Hsessions.
  subst loaded. unfold Page.loadStoredSessions in *.
  cbn [Page.home Home.storedSessions] in Hstore.
  rewrite Hstore. unfold Page.selectLatest, Page.handleSelectSession.
  cbn [Page.initial Page.home Page.hasInitializedSession Page.sidebarSearch Home.messages
       Home.sessionId Home.storedSessions Home.input Home.truthy length orb Nat.ltb Nat.leb].
  rewrite Hsessions. cbn [length Nat.eqb List.find]. by rewrite string_eqb_refl.
Qed.

(** X24.  A write that fails is not seen by the page and changes nothing but
    the console: without a window nothing happens at all; when the
    storage cannot be reached, or refuses the text of the sessions for
    its length, the failure is logged, the slot and every other key keep
    their value, and a read afterwards gives what it gave before. *)
Theorem failed_write_keeps_slot (next : list StoredSession.t) (b : Browser.t) :
  (Browser.hasWindow b = false -> writeStoredSessions next b = b) /\
  (Browser.hasWindow b = true ->
   Browser.storageReachable b = false \/
   (next <> [] /\
    Browser.within_quota b (JSON.stringify (JArr (map StoredSession_json next))) = false) ->
   writeStoredSessions next b = Browser.log "Failed to persist Street Bot sessions" b /\
   Browser.items (writeStoredSessions next b) = Browser.items b /\
   (readStoredSessions (writeStoredSessions next b)).1 = (readStoredSessions b).1).
Proof.
  split.
  - intros Hw. unfold writeStoredSessions. by rewrite Hw.
  - intros Hw Hfail.
    assert (Hwrite : writeStoredSessions next b =
                     Browser.log "Failed to persist Street Bot sessions" b).
    { unfold writeStoredSessions, Browser.removeItem, Browser.setItem. rewrite Hw. cbn [negb].
      destruct Hfail as [Hr|[Hne Hq]].
      - rewrite Hr. by destruct next.
      - destruct next as [|s next]; [done|]. by rewrite Hq, andb_false_r. }
    rewrite Hwrite. split; [done|]. split; [done|].
    unfold readStoredSessions, Browser.getItem, Browser.log.
    cbn [Browser.hasWindow Browser.storageReachable Browser.items].
    destruct (Browser.hasWindow b); [|done]. cbn [negb].
    destruct (Browser.storageReachable b); [|done].
    destruct (Browser.items b !! LOCAL_STORAGE_KEY) as [raw|]; [|done].
    destruct (JSString.truthy raw); [|done]. cbn [negb].
    by destruct (JSON.parse raw) as [[]|].
Qed.

(** ** The text of the empty input box during a turn *)

Lemma last_app_singleton {A} (l : list A) (x : A) : last (l ++ [x]) = Some x.
Proof. by rewrite last_snoc. Qed.

(** X25.  While a turn is being answered the input box already invites the next
    question, since the placeholder of the answer is an assistant message;
    after a submission without an agent, and after a remote call that
    failed, it asks for a follow-up, the last message being a notice of
    the system. *)
Theorem placeholder_during_turn (agent_url uuid now now' : string) (p : Home.pending)
    (r : Home.fetched) (st : Home.state) (b : Browser.t) :
  (JSString.blank (Home.input st) = false ->
   Page.placeholder (Home.messages (Home.handleSubmit (Some agent_url) uuid now st b).1.1)
     = "What would you like to ask next?" /\
   Page.placeholder (Home.messages (Home.handleSubmit None uuid now st b).1.1)
     = "Type your follow-up for Street Bot") /\
  (Home.failed r = true ->
   Page.placeholder (Home.messages (Home.handleResponse p r now' st b).1)
     = "Type your follow-up for Street Bot").
Proof.
  split.
  - intros Hblank.
    pose proof (handleSubmit_nonblank (Some agent_url) uuid now st b Hblank) as Hsome.
    pose proof (handleSubmit_nonblank None uuid now st b Hblank) as Hnone.
    cbn zeta in Hsome, Hnone. rewrite Hsome, Hnone. cbn [fst snd].
    set (w := Home.persistIfSession _ _ _).
    destruct (persistIfSession_messages (Home.sessionId st)
                (StoredMessage.mk uuid user (JSString.trim (Home.input st))
                                  None None None None now)
                (Home.mkState
                   (Home.messages st ++
                    [Home.plainMessage uuid user (JSString.trim (Home.input st)) None;
                     Home.plainMessage (uuid +:+ "-loading") assistant
                       (getLoadingMessage (JSString.trim (Home.input st)))
                       (Some Variant.callout)])
                   (Home.sessionId st) (Home.storedSessions st) EmptyString, b))
      as (Hm & _). fold w in Hm. cbn [fst Home.messages] in Hm.
    split.
    + rewrite Hm. unfold Page.placeholder.
      change (Home.messages st ++ [?x; ?y]) with (Home.messages st ++ ([x] ++ [y])).
      by rewrite app_assoc, last_snoc.
    + unfold Home.setMessages. cbn [Home.messages]. unfold Page.placeholder.
      by rewrite last_snoc.
  - intros Hfailed.
    destruct (handleResponse_failed p r now' st b Hfailed) as (-> & _).
    unfold Page.placeholder. by rewrite last_snoc.
Qed.

(** ** What is rendered *)

Lemma digits_fuel_all_digits (fuel : nat) (n : Z) (acc : string) :
  0 <= n ->
  forallb JSON.is_digit (JSString.to_list acc) = true ->
  forallb JSON.is_digit (JSString.to_list (JSString.digits_fuel fuel n acc)) = true.
Proof.
  revert n acc. induction fuel as [|fuel IH]; intros n acc Hn Hacc; [done|].
  cbn [JSString.digits_fuel].
  assert (Hstep : forallb JSON.is_digit
                    (JSString.to_list (String (JSString.digit_char (n mod 10)) acc))
                  = true).
  { cbn [JSString.to_list forallb]. rewrite Hacc, andb_true_r.
    destruct (digit_char_range (n mod 10)) as [Hd _]; [apply Z.mod_pos_bound; lia|].
    unfold JSON.is_digit. apply andb_true_iff. split; apply N.leb_le; lia. }
  destruct (n <? 10); [done|]. apply IH; [|done]. apply Z.div_pos; lia.
Qed.

Lemma of_int_all_digits (i : nat) :
  forallb JSON.is_digit (JSString.to_list (JSString.of_int (Z.of_nat i))) = true.
Proof.
  unfold JSString.of_int.
  destruct (Z.of_nat i <? 0) eqn:Hneg; [apply Z.ltb_lt in Hneg; lia|].
  apply digits_fuel_all_digits; [lia|done].
Qed.

Lemma all_digits_no_dash (d u v : string) :
  forallb JSON.is_digit (JSString.to_list d) = true -> d <> u +:+ String 45 v.
Proof.
  revert d. induction u as [|c u IH]; intros d Hd Heq.
  - change (EmptyString +:+ String 45 v) with (String 45 v) in Heq. by subst d.
  - change (String c u +:+ String 45 v) with (String c (u +:+ String 45 v)) in Heq.
    subst d. cbn [JSString.to_list forallb] in Hd.
    apply andb_true_iff in Hd as [_ Hd]. by apply (IH _ Hd).
Qed.

Lemma key_split (a b d1 d2 : string) :
  forallb JSON.is_digit (JSString.to_list d1) = true ->
  forallb JSON.is_digit (JSString.to_list d2) = true ->
  a +:+ String 45 d1 = b +:+ String 45 d2 -> a = b /\ d1 = d2.
Proof.
  intros H1 H2. revert b. induction a as [|c a IH]; intros b Heq.
  - destruct b as [|c' b]; [by injection Heq as ->|].
    change (String 45 d1 = String c' (b +:+ String 45 d2)) in Heq.
    injection Heq as _ Heq. by apply all_digits_no_dash in Heq.
  - destruct b as [|c' b].
    + change (String c (a +:+ String 45 d1) = String 45 d2) in Heq.
      injection Heq as _ Heq. symmetry in Heq. by apply all_digits_no_dash in Heq.
    + change (String c (a +:+ String 45 d1) = String c' (b +:+ String 45 d2)) in Heq.
      injection Heq as -> Heq. by destruct (IH b Heq) as [-> ->].
Qed.

Lemma messageKey_index (x y : ChatMessage.t) (i j : nat) :
  Page.messageKey x i = Page.messageKey y j -> ChatMessage.id x = ChatMessage.id y /\ i = j.
Proof.
  unfold Page.messageKey. intros Heq.
  apply key_split in Heq as [Hid Hidx]; try apply of_int_all_digits.
  split; [done|]. apply of_int_inj in Hidx. lia.
Qed.

Lemma mapi_from_elem {A B} (f : A -> nat -> B) (i : nat) (l : list A) (k : B) :
  k ∈ JSArray.mapi_from f i l -> exists x j, x ∈ l /\ (i <= j)%nat /\ k = f x j.
Proof.
  revert i. induction l as [|x l IH]; intros i; cbn [JSArray.mapi_from]; [by inversion 1|].
  intros [->|Hin]%elem_of_cons.
  - exists x, i. split; [by left|]. split; [lia|done].
  - destruct (IH _ Hin) as (y & j & Hy & Hj & ->). exists y, j.
    split; [by right|]. split; [lia|done].
Qed.

(** X26.  The keys of the messages in the list of the conversation are pairwise
    distinct, whatever the ids of the messages: also when two messages
    have the same id, or when an id ends like another id followed by an
    index.  Two keys are equal only for the same id at the same place. *)
Theorem messageKeys_distinct (messages : list ChatMessage.t) :
  NoDup (Page.messageKeys messages) /\
  length (Page.messageKeys messages) = length messages /\
  (forall x y i j, Page.messageKey x i = Page.messageKey y j ->
                   ChatMessage.id x = ChatMessage.id y /\ i = j).
Proof.
  split; [|split; [apply mapi_from_length|apply messageKey_index]].
  unfold Page.messageKeys, JSArray.mapi. generalize 0%nat.
  induction messages as [|x l IH]; intros i; cbn [JSArray.mapi_from]; [constructor|].
  constructor; [|apply IH].
  intros (y & j & _ & Hj & Heq)%mapi_from_elem.
  apply messageKey_index in Heq as [_ ->]. lia.
Qed.

Lemma existsb_filter_length {A} (f : A -> bool) (l : list A) :
  (0 <? length (List.filter f l))%nat = existsb f l.
Proof.
  induction l as [|x l IH]; [done|]. cbn [List.filter existsb].
  destruct (f x); [done|]. by rewrite IH.
Qed.

(** X27.  The sections the sidebar shows.  With a query that is not blank it
    shows the search results when a title matches and the notice that
    nothing matches otherwise, and never the groups by date.  With an
    empty query it shows neither of the two.  A query made of white space
    only is no search for the history, and a search for the notice: the
    notice that nothing matches stands above the groups by date. *)
Theorem sidebar_sections (now : Z) (storedSessions : list StoredSession.t)
    (sessionId : option string) (sidebarSearch : string) :
  let view := Sidebar.history now storedSessions sessionId sidebarSearch in
  let query := toLowerCase (JSString.trim sidebarSearch) in
  let browsing :=
    Sidebar.sections EmptyString
      (Sidebar.history now storedSessions sessionId EmptyString) in
  (JSString.blank sidebarSearch = false ->
   Sidebar.sections sidebarSearch view =
     if existsb (fun s => JSString.includes (toLowerCase (StoredSession.title s))
                                            query) storedSessions
     then [Sidebar.SearchResultsSection] else [Sidebar.NoMatchesNotice]) /\
  (JSString.blank sidebarSearch = true ->
   Sidebar.sections sidebarSearch view =
     if JSString.truthy sidebarSearch then Sidebar.NoMatchesNotice :: browsing
     else browsing) /\
  (Sidebar.NoMatchesNotice ∉ browsing) /\ (Sidebar.SearchResultsSection ∉ browsing).
Proof.
  intros view query browsing.
  assert (Hno : Sidebar.searchResults
                  (Sidebar.history now storedSessions sessionId EmptyString) = []).
  { unfold Sidebar.history. change (JSString.trim EmptyString) with EmptyString.
    by rewrite (toLowerCase_ascii EmptyString eq_refl). }
  assert (Hbrowsing : (Sidebar.NoMatchesNotice ∉ browsing) /\
                      (Sidebar.SearchResultsSection ∉ browsing)).
  { subst browsing. unfold Sidebar.sections. rewrite Hno. cbn [length Nat.ltb Nat.leb JSString.truthy andb app].
    split; intros Hin;
      repeat (apply elem_of_app in Hin as [Hin|Hin]);
      repeat case_match; try (by inversion Hin);
      apply list_elem_of_singleton in Hin; discriminate. }
  split; [|split; [|exact Hbrowsing]].
  - intros Hblank.
    assert (Hquery : JSString.truthy query = true).
    { subst query. pose proof (trim_not_blank _ Hblank) as Htrim.
      destruct (toLowerCase (JSString.trim sidebarSearch)) eqn:Hlower; [|done].
      apply toLowerCase_nonempty in Hlower. by rewrite Hlower in Htrim. }
    assert (Hsearch : JSString.truthy sidebarSearch = true) by (by destruct sidebarSearch).
    subst view. unfold Sidebar.history. fold query. rewrite Hquery.
    unfold Sidebar.sections.
    cbn [Sidebar.searchResults Sidebar.historyEntriesToday Sidebar.historyEntriesYesterday
         Sidebar.historyGroups].
    rewrite length_map, existsb_filter_length, Hsearch.
    by destruct (existsb _ storedSessions).
  - intros Hblank.
    assert (Hview : view = Sidebar.history now storedSessions sessionId EmptyString).
    { subst view. unfold Sidebar.history. by rewrite (trim_blank _ Hblank). }
    rewrite Hview. subst browsing. unfold Sidebar.sections. rewrite Hno.
    by destruct (JSString.truthy sidebarSearch).
Qed.

End PageExtras.

Section PageExtrasExamples.
#[local] Existing Instance Example.platform.

Lemma handleSelectSession_opens_witness :
  let p := Page.mk Example.state0 false EmptyString in
  map ChatMessage.id (Home.messages (Page.home (Page.handleSelectSession "abc" p))) = ["m0"] /\
  Page.handleSelectSession "xyz" p = p.
Proof.
  intros p.
  destruct (handleSelectSession_opens p Example.session0 "xyz") as [Hopen Hnone]. split.
  - refine (proj1 (proj2 (Hopen _ _))).
    + simpl. apply NoDup_singleton.
    + simpl. by apply list_elem_of_singleton.
  - apply Hnone. simpl. by intros ?%list_elem_of_singleton.
Defined.

Lemma selectLatest_once_witness :
  let p := Page.mk (Home.mkState [] None [Example.session0] "draft") false EmptyString in
  map ChatMessage.id (Home.messages (Page.home (Page.selectLatest p))) = ["m0"] /\
  Page.selectLatest
    (Page.mk (Home.mkState [] (Some "abc") [Example.session0] "draft") false EmptyString)
  = Page.mk (Home.mkState [] (Some "abc") [Example.session0] "draft") false EmptyString.
Proof.
  intros p. split.
  - destruct (selectLatest_once p) as (_ & _ & _ & Hopen).
    by rewrite (Hopen Example.session0 [] eq_refl eq_refl eq_refl eq_refl).
  - destruct (selectLatest_once
                (Page.mk (Home.mkState [] (Some "abc") [Example.session0] "draft")
                         false EmptyString)) as (_ & _ & Hguard & _).
    apply Hguard. right; left. reflexivity.
Defined.

Lemma reopen_after_reply_witness :
  let p := Home.mkPending (Home.plainMessage "u1" user "I need food" None) "u1-loading" []
                          None (Home.mkRequest Example.agent_url [] None) in
  let after :=
    Home.handleResponse p (Home.Payload Example.reply) "2024-03-05T12:00:02.000Z"
                        Example.state0 Example.browser0 in
  Home.sessionId
    (Page.home (Page.handleSelectSession "abc" (Page.mk after.1 true EmptyString)))
  = Some "abc".
Proof.
  intros p after.
  refine (proj1 (reopen_after_reply p Example.reply "abc" "2024-03-05T12:00:02.000Z"
                   Example.state0 Example.browser0 true EmptyString eq_refl eq_refl _)).
  simpl. apply NoDup_singleton.
Defined.

(** A new chat on a page where a session has been selected, and on a page
    where none has been: there the session of the store is open again
    and the next submission goes under its id. *)
Lemma newChat_then_submit_witness :
  (exists st' pending,
     Home.handleSubmit (Some Example.agent_url) "u2" "2024-03-05T12:00:00.000Z"
       (Page.home (Page.handleExampleClick "Find a shelter"
          (Page.selectLatest
             (Page.handleNewChat (Page.mk Example.state0 true EmptyString)))))
       Example.browser0 = (st', Example.browser0, Some pending) /\
     Home.body_sessionId (Home.sent pending) = None) /\
  (exists st' b' pending,
     Home.handleSubmit (Some Example.agent_url) "u2" "2024-03-05T12:00:00.000Z"
       (Page.home (Page.handleExampleClick "Find a shelter"
          (Page.selectLatest
             (Page.handleNewChat (Page.mk Example.state0 false EmptyString)))))
       Example.browser0 = (st', b', Some pending) /\
     Home.body_sessionId (Home.sent pending) = Some "abc" /\
     map ChatMessage.id (Home.messages st') = ["m0"; "u2"; "u2-loading"]).
Proof.
  split.
  - destruct (@newChat_then_submit Example.platform Example.agent_url "u2"
                "2024-03-05T12:00:00.000Z" "Find a shelter"
                (Page.mk Example.state0 true EmptyString) Example.browser0 eq_refl)
      as (_ & Hfresh & _).
    destruct (Hfresh (or_introl eq_refl)) as (_ & st' & pending & Hsub & _ & Hsid & _).
    by exists st', pending.
  - destruct (@newChat_then_submit Example.platform Example.agent_url "u2"
                "2024-03-05T12:00:00.000Z" "Find a shelter"
                (Page.mk Example.state0 false EmptyString) Example.browser0 eq_refl)
      as (_ & _ & Hopen).
    destruct (Hopen Example.session0 [] eq_refl eq_refl)
      as (_ & st' & b' & pending & Hsub & _ & Hsid & Hmessages & _).
    exists st', b', pending. split; [exact Hsub|]. split; [exact Hsid|].
    by rewrite Hmessages.
Defined.

Lemma sidebar_search_witness :
  map HistoryEntry.label
      (Sidebar.searchResults
         (Sidebar.history Example.noon Example.history None "  YESTERDAY ")) =
  ["end of yesterday"; "midnight yesterday"] /\
  Sidebar.historyGroups
    (Sidebar.history Example.noon Example.history None "  YESTERDAY ") = [] /\
  map HistoryEntry.label
      (Sidebar.searchResults
         (@Sidebar.history Example.latin1 Example.noon
            [Example.updated "CAFÉ hours" "2024-03-05T00:00:00.000Z";
             Example.updated "Cafe Roma" "2024-03-04T00:00:00.000Z"]
            None "café")) = ["CAFÉ hours"].
Proof.
  destruct (@sidebar_search Example.platform Example.noon Example.history None "  YESTERDAY ")
    as (_ & _ & Hsearch).
  destruct (Hsearch eq_refl) as (_ & _ & Hgroups & Hresults & _).
  destruct (@sidebar_search Example.latin1 Example.noon
              [Example.updated "CAFÉ hours" "2024-03-05T00:00:00.000Z";
               Example.updated "Cafe Roma" "2024-03-04T00:00:00.000Z"]
              None "café") as (_ & _ & Hlatin).
  destruct (Hlatin eq_refl) as (_ & _ & _ & Hfound & _).
  split; [by rewrite Hresults|]. split; [exact Hgroups|]. by rewrite Hfound.
Defined.

(** The months of two years and the sessions without a date, in the order
    of the sidebar. *)
Lemma archiveMonths_descending_witness :
  let months :=
    Sidebar.archiveMonths
      {[ "2023-12" := [Example.updated "last year" "2023-12-31T23:59:59.999Z"];
         "NaN-NaN" := [Example.updated "no date" "yesterday"];
         "2024-02" := [Example.session0] ]} in
  map fst months = ["NaN-NaN"; "2024-02"; "2023-12"] /\
  StronglySorted (fun a b => JSString.ltb (fst b) (fst a) = true) months.
Proof.
  intros months. split; [reflexivity|].
  apply (@archiveMonths_descending Example.platform).
Defined.

Lemma sidebar_history_witness :
  Sidebar.historyGroups (Sidebar.history Example.noon Example.history (Some "no date") " ")
  = ["Previous 7 days (1)"; "NaN-NaN (1)"; "2024-02 (1)"; "2023-12 (1)"].
Proof.
  destruct (sidebar_history Example.noon Example.history (Some "no date") " " eq_refl)
    as (_ & _ & _ & _ & -> & _).
  vm_compute. reflexivity.
Defined.

Lemma formatDateKey_month_witness :
  formatDateKey (JSDate.parse "2024-03-05T00:00:00.000Z") =
  formatDateKey (JSDate.parse "2024-03-31T23:59:59.999Z").
Proof.
  apply formatDateKey_month. split; reflexivity.
Defined.

(** A session whose message carries a number with a fraction. *)
Lemma reload_restores_store_witness :
  let session :=
    StoredSession.mk "abc" "Where can I sleep tonight?"
      [StoredMessage.mk "m0" user "Where can I sleep tonight?"
         (Some (JObj [("score", JNum "0.5")])) None None None "2024-03-04T09:00:00.000Z"]
      "2024-03-04T09:00:00.000Z" "2024-03-04T09:00:00.000Z" in
  let b :=
    Browser.mk true true None
      {[ LOCAL_STORAGE_KEY := JSON.stringify (JArr [StoredSession_json session]) ]} [] in
  readStoredSessions b = ([StoredSession_json session], b) /\
  Home.storedSessions (Page.home (Page.loadStoredSessions [session] Page.initial))
    = [session].
Proof.
  intros session b.
  destruct (@reload_restores_store Example.platform [session] b eq_refl eq_refl eq_refl eq_refl)
    as (Hread & _ & _ & _ & _ & _ & Hsorted).
  split; [exact Hread|].
  refine (proj1 (proj2 (Hsorted _) _)).
  - repeat constructor. by eexists.
  - repeat constructor.
Defined.

Lemma failed_write_keeps_slot_witness :
  let b := Browser.mk true true (Some 10%nat)
             {[ LOCAL_STORAGE_KEY := "[]" ]} [] in
  Browser.items (writeStoredSessions [Example.session0] b) = Browser.items b.
Proof.
  intros b.
  refine (proj1 (proj2 (proj2 (failed_write_keeps_slot [Example.session0] b) eq_refl _))).
  right. split; [discriminate|reflexivity].
Defined.

Lemma placeholder_during_turn_witness :
  Page.placeholder
    (Home.messages
       (Home.handleSubmit (Some Example.agent_url) "u1" "2024-03-05T12:00:00.000Z"
                          Example.state0 Example.browser0).1.1)
  = "What would you like to ask next?".
Proof.
  refine (proj1 (proj1 (placeholder_during_turn Example.agent_url "u1"
            "2024-03-05T12:00:00.000Z" "2024-03-05T12:00:01.000Z"
            (Home.mkPending (Home.plainMessage "u1" user "I need food" None) "u1-loading" []
               None (Home.mkRequest Example.agent_url [] None))
            Home.NetworkError Example.state0 Example.browser0) eq_refl)).
Defined.

Lemma messageKeys_distinct_witness :
  Page.messageKey (Home.plainMessage "u1" user "a" None) 10 <>
  Page.messageKey (Home.plainMessage "u1-1" user "b" None) 0.
Proof.
  intros Heq.
  destruct (messageKeys_distinct []) as (_ & _ & Hkey).
  by destruct (Hkey _ _ _ _ Heq) as [Hid _].
Defined.

Lemma sidebar_sections_witness :
  Sidebar.sections "  " (Sidebar.history Example.noon Example.history None "  ") =
  [Sidebar.NoMatchesNotice; Sidebar.TodaySection; Sidebar.YesterdaySection;
   Sidebar.ArchiveSection] /\
  Sidebar.sections "zzz" (Sidebar.history Example.noon Example.history None "zzz") =
  [Sidebar.NoMatchesNotice].
Proof.
  destruct (sidebar_sections Example.noon Example.history None "  ") as (_ & Hblank & _).
  destruct (sidebar_sections Example.noon Example.history None "zzz") as (Hquery & _).
  split.
  - rewrite (Hblank eq_refl). vm_compute. reflexivity.
  - rewrite (Hquery eq_refl). reflexivity.
Defined.

End PageExtrasExamples.

(** ** The agent of the page *)

Lemma truthy_append_r (s t : string) :
  JSString.truthy t = true -> JSString.truthy (s +:+ t) = true.
Proof. destruct s; [by destruct t|done]. Qed.

Lemma dropTrailingSlash_append (s t : string) :
  JSString.truthy t = true ->
  AguiProvider.dropTrailingSlash (s +:+ t) = s +:+ AguiProvider.dropTrailingSlash t.
Proof.
  intros Ht. induction s as [|c s IH]; [done|].
  change (String c s +:+ t) with (String c (s +:+ t)).
  change (String c s +:+ AguiProvider.dropTrailingSlash t)
    with (String c (s +:+ AguiProvider.dropTrailingSlash t)).
  rewrite <- IH.
  pose proof (truthy_append_r s t Ht) as Hst.
  destruct (s +:+ t) as [|d r]; [done|].
  done.
Qed.

(** X28.  The URL of the agent.  A value of the environment variable that is
    not blank wins, trimmed, whatever the address of the page.  Without
    one there is an agent exactly when the page runs in a window whose
    address parses: on port 3000 it is port 8000 of the same host, and
    otherwise the origin of the page without a slash at its end, followed
    by the path of the agent.  The URL of the agent is never empty. *)
Theorem agentUrl_derivation (env : option string) (w : AguiProvider.window) :
  (forall url, env = Some url -> JSString.blank url = false ->
     AguiProvider.agent env w = Some (JSString.trim url)) /\
  (AguiProvider.agent env w = None <->
     Home.truthy (JSString.trim <$> env) = false /\
     (w = AguiProvider.NoWindow \/ w = AguiProvider.Window None)) /\
  (forall url, AguiProvider.agent env w = Some url -> JSString.truthy url = true) /\
  (forall current,
     Home.truthy (JSString.trim <$> env) = false ->
     w = AguiProvider.Window (Some current) ->
     AguiProvider.agent env w =
       Some (if JSString.eqb (AguiProvider.port current) "3000"
             then AguiProvider.protocol current +:+ "//" +:+
                  AguiProvider.hostname current +:+ ":8000/agui/run-agent"
             else AguiProvider.dropTrailingSlash (AguiProvider.origin current) +:+
                  "/agui/run-agent")).
Proof.
  assert (Henv : forall url, env = Some url -> JSString.blank url = false ->
            AguiProvider.agent env w = Some (JSString.trim url)).
  { intros url -> Hblank. unfold AguiProvider.agent, AguiProvider.agentUrl.
    cbn [fmap option_fmap option_map Home.truthy].
    rewrite (trim_not_blank _ Hblank). cbn [Home.truthy].
    by rewrite (trim_not_blank _ Hblank). }
  assert (Hwin : forall current,
            Home.truthy (JSString.trim <$> env) = false ->
            w = AguiProvider.Window (Some current) ->
            AguiProvider.agent env w =
              Some (if JSString.eqb (AguiProvider.port current) "3000"
                    then AguiProvider.protocol current +:+ "//" +:+
                         AguiProvider.hostname current +:+ ":8000/agui/run-agent"
                    else AguiProvider.dropTrailingSlash (AguiProvider.origin current) +:+
                         "/agui/run-agent")).
  { intros current Hno ->. unfold AguiProvider.agent, AguiProvider.agentUrl.
    rewrite Hno. cbn [Home.truthy]. rewrite truthy_append_r by done. cbn [negb].
    destruct (JSString.eqb (AguiProvider.port current) "3000"); [|done].
    rewrite <- !append_assoc.
    rewrite (dropTrailingSlash_append _ ":8000") by done.
    by rewrite !append_assoc. }
  split; [exact Henv|]. split; [|split; [|exact Hwin]].
  - destruct (Home.truthy (JSString.trim <$> env)) eqn:Htruthy.
    + split; [|by intros [? _]]. intros Hnone. exfalso.
      destruct env as [url|]; [|done]. cbn in Htruthy.
      rewrite (Henv url eq_refl) in Hnone; [done|].
      destruct (JSString.blank url) eqn:Hb; [|done].
      by rewrite (trim_blank _ Hb) in Htruthy.
    + destruct w as [|[current|]].
      * split; [by auto|]. intros _. unfold AguiProvider.agent, AguiProvider.agentUrl.
        by rewrite Htruthy.
      * rewrite (Hwin current eq_refl eq_refl). split; [done|]. by intros [_ [|]].
      * split; [by auto|]. intros _. unfold AguiProvider.agent, AguiProvider.agentUrl.
        by rewrite Htruthy.
  - intros url. unfold AguiProvider.agent.
    destruct (AguiProvider.agentUrl env w) as [u|]; [|done]. cbn [Home.truthy].
    destruct (JSString.truthy u) eqn:Hu; [|done]. by intros [= <-].
Qed.

(** ** The scraper *)

(** X29.  [normalizeUrl] gives an address with a scheme and leaves an address
    with a scheme, in whatever case it is written, as it is; applied
    twice it does what it does once. *)
Theorem normalizeUrl_scheme (url : string) :
  ScrapeXd.hasScheme (ScrapeXd.normalizeUrl url) = true /\
  ScrapeXd.normalizeUrl (ScrapeXd.normalizeUrl url) = ScrapeXd.normalizeUrl url /\
  (ScrapeXd.hasScheme url = true -> ScrapeXd.normalizeUrl url = url) /\
  (ScrapeXd.hasScheme url = false -> ScrapeXd.normalizeUrl url = "https://" +:+ url).
Proof.
  assert (Hhttps : forall u, ScrapeXd.hasScheme ("https://" +:+ u) = true).
  { intros u. unfold ScrapeXd.hasScheme. apply orb_true_iff. right.
    change (JSString.ascii_lower ("https://" +:+ u))
      with ("https://" +:+ JSString.ascii_lower u).
    by destruct (JSString.ascii_lower u). }
  assert (Hscheme : ScrapeXd.hasScheme (ScrapeXd.normalizeUrl url) = true).
  { unfold ScrapeXd.normalizeUrl. destruct (ScrapeXd.hasScheme url) eqn:Hs; [done|].
    cbn [negb]. apply Hhttps. }
  split; [exact Hscheme|]. split.
  - unfold ScrapeXd.normalizeUrl at 1. by rewrite Hscheme.
  - unfold ScrapeXd.normalizeUrl. split; by intros ->.
Qed.

Lemma enqueueComponent_spec (q : ScrapeXd.pending) (c : ScrapeXd.component) :
  ScrapeXd.enqueueComponent q c =
  if ScrapeXd.usable c && negb (bool_decide (ScrapeXd.key (ScrapeXd.entry c) ∈ ScrapeXd.seen q))
  then ScrapeXd.mkPending (ScrapeXd.queue q ++ [ScrapeXd.entry c])
                          ({[ ScrapeXd.key (ScrapeXd.entry c) ]} ∪ ScrapeXd.seen q)
  else q.
Proof.
  unfold ScrapeXd.enqueueComponent, ScrapeXd.enqueue, ScrapeXd.usable, ScrapeXd.entry.
  destruct c as [[i|] [p|]]; cbn [ScrapeXd.id ScrapeXd.path default]; try done.
  destruct (JSString.truthy i), (JSString.truthy p); cbn [negb orb andb]; try done.
  by destruct (bool_decide _).
Qed.

Lemma collect_mentioned (m : ScrapeXd.manifest) :
  ScrapeXd.collect m =
  fold_left ScrapeXd.enqueueComponent (ScrapeXd.mentioned m) (ScrapeXd.mkPending [] ∅).
Proof.
  unfold ScrapeXd.collect, ScrapeXd.mentioned. rewrite !fold_left_app.
  assert (Harts : forall arts q,
            fold_left ScrapeXd.enqueueArtboard arts q =
            fold_left ScrapeXd.enqueueComponent
              (concat (map (fun a => default [] (ScrapeXd.components a)) arts)) q).
  { induction arts as [|a arts IH]; intros q; [done|].
    cbn [map concat fold_left]. by rewrite fold_left_app, IH. }
  rewrite Harts.
  by destruct (ScrapeXd.globalResources m), (ScrapeXd.interactions m).
Qed.

Lemma fold_enqueueComponent (cs : list ScrapeXd.component) (q : ScrapeXd.pending) :
  NoDup (map ScrapeXd.key (ScrapeXd.queue q)) ->
  (forall k, k ∈ ScrapeXd.seen q <-> k ∈ map ScrapeXd.key (ScrapeXd.queue q)) ->
  let q' := fold_left ScrapeXd.enqueueComponent cs q in
  NoDup (map ScrapeXd.key (ScrapeXd.queue q')) /\
  (forall k, k ∈ ScrapeXd.seen q' <-> k ∈ map ScrapeXd.key (ScrapeXd.queue q')) /\
  (forall k, k ∈ map ScrapeXd.key (ScrapeXd.queue q) ->
             k ∈ map ScrapeXd.key (ScrapeXd.queue q')) /\
  (forall c, c ∈ cs -> ScrapeXd.usable c = true ->
             ScrapeXd.key (ScrapeXd.entry c) ∈ map ScrapeXd.key (ScrapeXd.queue q')) /\
  (forall e, e ∈ ScrapeXd.queue q' ->
             e ∈ ScrapeXd.queue q \/
             exists c, c ∈ cs /\ ScrapeXd.usable c = true /\ ScrapeXd.entry c = e).
Proof.
  revert q. induction cs as [|c cs IH]; intros q Hnd Hseen; cbn [fold_left].
  - repeat split; try done; try (by apply Hseen).
    + by inversion 1.
    + by left.
  - set (q1 := ScrapeXd.enqueueComponent q c).
    assert (Hq1 : NoDup (map ScrapeXd.key (ScrapeXd.queue q1)) /\
                  (forall k, k ∈ ScrapeXd.seen q1 <-> k ∈ map ScrapeXd.key (ScrapeXd.queue q1)) /\
                  (forall k, k ∈ map ScrapeXd.key (ScrapeXd.queue q) ->
                             k ∈ map ScrapeXd.key (ScrapeXd.queue q1)) /\
                  (ScrapeXd.usable c = true ->
                   ScrapeXd.key (ScrapeXd.entry c) ∈ map ScrapeXd.key (ScrapeXd.queue q1)) /\
                  (forall e, e ∈ ScrapeXd.queue q1 ->
                             e ∈ ScrapeXd.queue q \/
                             (ScrapeXd.usable c = true /\ ScrapeXd.entry c = e))).
    { subst q1. rewrite enqueueComponent_spec.
      destruct (ScrapeXd.usable c) eqn:Hu; cbn [andb];
        [|repeat split; intros; try done; try (by apply Hseen); by auto].
      destruct (bool_decide _) eqn:Hk; cbn [negb].
      - apply bool_decide_eq_true in Hk.
        repeat split; intros; try done; try (by apply Hseen); by auto.
      - apply bool_decide_eq_false in Hk. cbn [ScrapeXd.queue ScrapeXd.seen].
        rewrite map_app. cbn [map]. split; [|split; [|split; [|split]]].
        + apply NoDup_app. split; [done|]. split; [|apply NoDup_singleton].
          intros k Hin ->%list_elem_of_singleton. by apply Hk, Hseen.
        + intros k. rewrite elem_of_union, elem_of_singleton, elem_of_app,
            list_elem_of_singleton, Hseen. tauto.
        + intros k Hin. apply elem_of_app. by left.
        + intros _. apply elem_of_app. right. by apply list_elem_of_singleton.
        + intros e [Hin| ->%list_elem_of_singleton]%elem_of_app; auto. }
    destruct Hq1 as (Hnd1 & Hseen1 & Hmono1 & Hc1 & Hfrom1).
    destruct (IH q1 Hnd1 Hseen1) as (Hnd' & Hseen' & Hmono' & Hcs' & Hfrom').
    split; [done|]. split; [done|]. split; [by auto|]. split.
    + intros c' [->|Hin]%elem_of_cons Hu; [by apply Hmono', Hc1|by apply Hcs'].
    + intros e He. destruct (Hfrom' e He) as [Hin|(c' & Hc' & Hu & Heq)].
      * destruct (Hfrom1 e Hin) as [?|[Hu Heq]]; [by left|].
        right. exists c. split; [by left|done].
      * right. exists c'. split; [by right|done].
Qed.

(** X30.  The queue of downloads the page script builds from a manifest.  No
    two entries of it have the same key (component id, a bar, component
    path); every entry is the id and path of a component the manifest
    mentions with both of them non-empty; and every such component has its
    key in the queue.  So the queue is empty exactly when the manifest
    mentions no such component. *)
Theorem collect_queue (m : ScrapeXd.manifest) :
  let q := ScrapeXd.queue (ScrapeXd.collect m) in
  NoDup (map ScrapeXd.key q) /\
  NoDup q /\
  (forall c, c ∈ ScrapeXd.mentioned m -> ScrapeXd.usable c = true ->
             ScrapeXd.key (ScrapeXd.entry c) ∈ map ScrapeXd.key q) /\
  (forall e, e ∈ q ->
             exists c, c ∈ ScrapeXd.mentioned m /\ ScrapeXd.usable c = true /\
                       ScrapeXd.entry c = e) /\
  (forall k, k ∈ ScrapeXd.seen (ScrapeXd.collect m) <-> k ∈ map ScrapeXd.key q) /\
  (q = [] <-> Forall (fun c => ScrapeXd.usable c = false) (ScrapeXd.mentioned m)).
Proof.
  intros q. subst q. rewrite collect_mentioned.
  destruct (fold_enqueueComponent (ScrapeXd.mentioned m) (ScrapeXd.mkPending [] ∅))
    as (Hnd & Hseen & _ & Hall & Hfrom).
  { constructor. }
  { intros k. cbn. rewrite elem_of_empty. split; [done|by inversion 1]. }
  set (q := fold_left _ _ _) in *.
  assert (Hfrom' : forall e, e ∈ ScrapeXd.queue q ->
            exists c, c ∈ ScrapeXd.mentioned m /\ ScrapeXd.usable c = true /\
                      ScrapeXd.entry c = e).
  { intros e He. destruct (Hfrom e He) as [Hin|?]; [by inversion Hin|done]. }
  split; [exact Hnd|]. split; [by apply (NoDup_fmap_1 ScrapeXd.key)|].
  split; [exact Hall|]. split; [exact Hfrom'|]. split; [exact Hseen|]. split.
  - intros Hempty. apply Forall_forall. intros c Hc.
    destruct (ScrapeXd.usable c) eqn:Hu; [|done].
    specialize (Hall c Hc Hu). rewrite Hempty in Hall. by inversion Hall.
  - intros Hnone. destruct (ScrapeXd.queue q) as [|e l] eqn:Hq; [done|].
    destruct (Hfrom' e) as (c & Hc & Hu & _); [by left|].
    rewrite Forall_forall in Hnone. specialize (Hnone c Hc). congruence.
Qed.

Lemma agentUrl_derivation_witness :
  AguiProvider.agent (Some "  ")
    (AguiProvider.Window
       (Some (AguiProvider.mkLocation "http:" "localhost" "3000" "http://localhost:3000")))
  = Some "http://localhost:8000/agui/run-agent" /\
  AguiProvider.agent (Some " https://agent.example/run ") AguiProvider.NoWindow
  = Some "https://agent.example/run".
Proof.
  destruct (agentUrl_derivation (Some "  ")
              (AguiProvider.Window
                 (Some (AguiProvider.mkLocation "http:" "localhost" "3000"
                                                "http://localhost:3000"))))
    as (_ & _ & _ & Hwin).
  destruct (agentUrl_derivation (Some " https://agent.example/run ") AguiProvider.NoWindow)
    as (Henv & _).
  split.
  - by rewrite (Hwin _ eq_refl eq_refl).
  - by rewrite (Henv _ eq_refl eq_refl).
Defined.

Lemma normalizeUrl_scheme_witness :
  ScrapeXd.normalizeUrl "HTTPS://xd.adobe.com/view/1" = "HTTPS://xd.adobe.com/view/1" /\
  ScrapeXd.normalizeUrl "xd.adobe.com/view/1" = "https://xd.adobe.com/view/1".
Proof.
  split.
  - by apply (proj1 (proj2 (proj2 (normalizeUrl_scheme "HTTPS://xd.adobe.com/view/1")))).
  - by apply (proj2 (proj2 (proj2 (normalizeUrl_scheme "xd.adobe.com/view/1")))).
Defined.

Lemma collect_queue_witness :
  let shared := ScrapeXd.mkComponent (Some "c1") (Some "img/a.png") in
  let m := ScrapeXd.mkManifest (Some shared) None
             (Some [ScrapeXd.mkArtboard
                      (Some [shared; ScrapeXd.mkComponent (Some "c2") None])])
             (Some [ScrapeXd.mkComponent (Some "c3") (Some "img/b.png")]) in
  "c1|img/a.png" ∈ map ScrapeXd.key (ScrapeXd.queue (ScrapeXd.collect m)) /\
  ScrapeXd.queue (ScrapeXd.collect m) = [("c1", "img/a.png"); ("c3", "img/b.png")].
Proof.
  intros shared m. split; [|reflexivity].
  destruct (collect_queue m) as (_ & _ & Hall & _).
  apply (Hall shared); [|reflexivity]. by left.
Defined.
